(** * ST25DVXXX / AT24Cxx I2C EEPROM driver: model and verified properties

    The development embeds [drivers/st25dvxxx/st25dvxxx.c] and the
    declarations it uses from [drivers/include/st25dvxxx.h] and
    [drivers/st25dvxxx/include/st25dvxxx_defines.h].

    Integer model: the ILP32 ABI of the boards the driver is built for
    ([int], [size_t] and [uint32_t] are 32 bits wide).  Unsigned values
    are integers of [Z] with the wrap-around written where the C code
    computes in a fixed width.

    Effects: the driver talks to the I2C bus, the timer and the GPIO
    lines.  These collaborators are an interface ([Periph]) over an
    abstract hardware state; every call to one of them is appended to a
    trace.  Loops that the C code writes as [while] take a fuel argument;
    a computation that runs out of fuel yields [None]. *)

From Stdlib Require Import ZArith List Bool Lia.
Import ListNotations.
Local Open Scope Z_scope.

(** ** Fixed-width integers *)

Definition uint8 (x : Z) : Z := x mod 2 ^ 8.
Definition uint32 (x : Z) : Z := x mod 2 ^ 32.
(** [size_t] on ILP32. *)
Definition size_t (x : Z) : Z := x mod 2 ^ 32.

Definition is_uint8 (x : Z) : Prop := 0 <= x < 2 ^ 8.
Definition is_uint32 (x : Z) : Prop := 0 <= x < 2 ^ 32.

(** An [int] object that may not have been assigned yet. *)
Inductive cint : Type :=
| Indeterminate
| Int (z : Z).

(** ** Constants *)

(** [errno.h] *)
Definition EIO : Z := 5.
Definition ENXIO : Z := 6.
Definition EINVAL : Z := 22.
Definition ERANGE : Z := 34.
Definition ENOTSUP : Z := 134.

(** [enum { ST25DVXXX_OK, ST25DVXXX_I2C_ERROR }] *)
Definition ST25DVXXX_OK : Z := 0.
Definition ST25DVXXX_I2C_ERROR : Z := 1.

(** [st25dvxxx_defines.h] *)
Definition ST25DVXXX_POLL_DELAY_US : Z := 1000.
Definition ST25DVXXX_CLEAR_BYTE : Z := 0.
Definition ST25DVXXX_DEF_DEV_ADDR : Z := 80.

(** [st25dvxxx.c] *)
Definition ST25DVXXX_SET_BUF_SIZE : Z := 32.

(** Modelled from the spec: the bus transport's flag that selects the
    16-bit in-transaction address mode ([periph/i2c.h] is not among the
    sources); no flag means the 8-bit mode. *)
Definition I2C_REG16 : Z := 32.

(** [#define MOD_POW2(x, y) ((x) & ((y) - 1))]; [Z.land] is two's
    complement, so [y = 0] gives the all-ones mask as in C. *)
Definition MOD_POW2 (x y : Z) : Z := Z.land x (y - 1).

(** [#define MIN(a, b) ((a) < (b) ? (a) : (b))] *)
Definition MIN (a b : Z) : Z := if a <? b then a else b.

(** ** Device descriptor *)

Record st25dvxxx_params_t : Type := {
  i2c : Z;            (* I2C bus number *)
  pin_wp : Z;         (* write protect pin *)
  eeprom_size : Z;    (* uint32_t: EEPROM memory capacity *)
  dev_addr : Z;       (* uint8_t: I2C device address *)
  page_size : Z;      (* uint8_t: page size *)
  max_polls : Z       (* uint8_t: number of ACK poll attempts *)
}.

Record st25dvxxx_t : Type := { params : st25dvxxx_params_t }.

Definition DEV_I2C_BUS (dev : st25dvxxx_t) : Z := i2c (params dev).
Definition DEV_PIN_WP (dev : st25dvxxx_t) : Z := pin_wp (params dev).
Definition DEV_EEPROM_SIZE (dev : st25dvxxx_t) : Z := eeprom_size (params dev).
Definition DEV_I2C_ADDR (dev : st25dvxxx_t) : Z := dev_addr (params dev).
Definition DEV_PAGE_SIZE (dev : st25dvxxx_t) : Z := page_size (params dev).
Definition DEV_MAX_POLLS (dev : st25dvxxx_t) : Z := max_polls (params dev).

(** The fields hold values of their C types. *)
Definition dev_wf (dev : st25dvxxx_t) : Prop :=
  is_uint32 (DEV_EEPROM_SIZE dev) /\ is_uint8 (DEV_I2C_ADDR dev) /\
  is_uint8 (DEV_PAGE_SIZE dev) /\ is_uint8 (DEV_MAX_POLLS dev).

(** The page size is a power of two (that fits its [uint8_t] field). *)
Definition page_pow2 (dev : st25dvxxx_t) : Prop :=
  exists k, 0 <= k < 8 /\ DEV_PAGE_SIZE dev = 2 ^ k.

(** ** Collaborators *)

(** Calls that leave the driver, with their arguments and, for the bus
    transfers, the status the bus answered. *)
Inductive event : Type :=
| EvI2cAcquire (bus : Z)
| EvI2cRelease (bus : Z)
| EvI2cReadRegs (bus addr reg len flags : Z) (status : Z)
| EvI2cWriteRegs (bus addr reg : Z) (data : list Z) (len flags : Z) (status : Z)
| EvXtimerUsleep (us : Z)
| EvGpioSet (pin : Z)
| EvGpioClear (pin : Z).

(** The bus transport, the timer and the GPIO lines, over a hardware
    state [H].  A transfer answers a status ([- ENXIO] when the device
    does not acknowledge); a read also answers the bytes received.
    [periph_i2c_max_bytes_per_frame] is [Some n] on platforms that
    define [PERIPH_I2C_MAX_BYTES_PER_FRAME] as [n]. *)
Class Periph (H : Type) : Type := {
  hw_i2c_acquire : Z -> H -> H;
  hw_i2c_release : Z -> H -> H;
  hw_i2c_read_regs : Z -> Z -> Z -> Z -> Z -> H -> (Z * list Z) * H;
  hw_i2c_write_regs : Z -> Z -> Z -> list Z -> Z -> Z -> H -> Z * H;
  hw_xtimer_usleep : Z -> H -> H;
  hw_gpio_set : Z -> H -> H;
  hw_gpio_clear : Z -> H -> H;
  gpio_is_valid : Z -> bool;
  periph_i2c_max_bytes_per_frame : option Z
}.

Record world (H : Type) : Type := {
  hw : H;
  trace : list event
}.
Arguments hw {H} _.
Arguments trace {H} _.
Arguments Build_world {H} _ _.

(** ** The monad of driver code: state passing over the world, [None]
    when the fuel is used up. *)

Definition M (H A : Type) : Type := world H -> option (A * world H).

Definition ret {H A : Type} (a : A) : M H A := fun w => Some (a, w).

Definition bind {H A B : Type} (m : M H A) (k : A -> M H B) : M H B :=
  fun w => match m w with
           | Some (a, w') => k a w'
           | None => None
           end.

Definition out_of_fuel {H A : Type} : M H A := fun _ => None.

Notation "x <- m ;; k" := (bind m (fun x => k))
  (at level 61, m at next level, right associativity).
Notation "m ;;; k" := (bind m (fun _ => k))
  (at level 61, right associativity).

(** One collaborator call: update the hardware, log the event. *)
Definition call {H A : Type} (f : H -> A * H) (ev : A -> event) : M H A :=
  fun w => let (a, h') := f (hw w) in
           Some (a, {| hw := h'; trace := trace w ++ [ev a] |}).

Section Driver.

Context {H : Type} {P : Periph H}.

Definition i2c_acquire (bus : Z) : M H unit :=
  call (fun h => (tt, hw_i2c_acquire bus h)) (fun _ => EvI2cAcquire bus).

Definition i2c_release (bus : Z) : M H unit :=
  call (fun h => (tt, hw_i2c_release bus h)) (fun _ => EvI2cRelease bus).

Definition i2c_read_regs (bus addr reg len flags : Z) : M H (Z * list Z) :=
  call (hw_i2c_read_regs bus addr reg len flags)
       (fun r => EvI2cReadRegs bus addr reg len flags (fst r)).

Definition i2c_write_regs (bus addr reg : Z) (data : list Z) (len flags : Z)
  : M H Z :=
  call (hw_i2c_write_regs bus addr reg data len flags)
       (fun r => EvI2cWriteRegs bus addr reg data len flags r).

Definition xtimer_usleep (us : Z) : M H unit :=
  call (fun h => (tt, hw_xtimer_usleep us h)) (fun _ => EvXtimerUsleep us).

Definition gpio_set (pin : Z) : M H unit :=
  call (fun h => (tt, hw_gpio_set pin h)) (fun _ => EvGpioSet pin).

Definition gpio_clear (pin : Z) : M H unit :=
  call (fun h => (tt, hw_gpio_clear pin h)) (fun _ => EvGpioClear pin).

(** ** The driver *)

(** The loop shared, word for word, by [_read] and [_write_page]:
<<
    uint8_t polls = DEV_MAX_POLLS;
    while (-ENXIO == (check = txn)) {
        if (--polls == 0) { break; }
        xtimer_usleep(ST25DVXXX_POLL_DELAY_US);
    }
    return check;
>>
    [status] reads the [int] the transfer returned. *)
Fixpoint poll_loop {A : Type} (fuel : nat) (txn : M H A) (status : A -> Z)
  (polls : Z) : M H A :=
  match fuel with
  | O => out_of_fuel
  | S fuel' =>
      check <- txn ;;
      if status check =? - ENXIO then
        let polls := uint8 (polls - 1) in
        if polls =? 0 then ret check
        else xtimer_usleep ST25DVXXX_POLL_DELAY_US ;;;
             poll_loop fuel' txn status polls
      else ret check
  end.

Definition _read (fuel : nat) (dev : st25dvxxx_t) (pos len : Z)
  : M H (Z * list Z) :=
  let polls := DEV_MAX_POLLS dev in
  let '(dev_addr, pos, flags) :=
    if DEV_EEPROM_SIZE dev >? 2048 then
      (uint8 (Z.lor (DEV_I2C_ADDR dev) (Z.shiftr (Z.land pos 0xFF0000) 16)),
       Z.land pos 0xFFFF, I2C_REG16)
    else
      (uint8 (Z.lor (DEV_I2C_ADDR dev) (Z.shiftr (Z.land pos 0xFF00) 8)),
       Z.land pos 0xFF, 0) in
  poll_loop fuel (i2c_read_regs (DEV_I2C_BUS dev) dev_addr pos len flags)
            fst polls.

(** With [PERIPH_I2C_MAX_BYTES_PER_FRAME] the read is cut into frames;
    [acc] holds what has been stored through [data_p] so far. *)
Fixpoint _read_max_loop (fuel : nat) (dev : st25dvxxx_t) (frame : Z)
  (pos : Z) (acc : list Z) (len : Z) : M H (Z * list Z) :=
  if len =? 0 then ret (ST25DVXXX_OK, acc)
  else
    match fuel with
    | O => out_of_fuel
    | S fuel' =>
        let clen := MIN len frame in
        r <- _read fuel dev pos clen ;;
        if fst r =? ST25DVXXX_OK then
          _read_max_loop fuel' dev frame (uint32 (pos + clen))
                         (acc ++ snd r) (size_t (len - clen))
        else ret (- EIO, acc ++ snd r)
    end.

Definition _read_max (fuel : nat) (dev : st25dvxxx_t) (pos len : Z)
  : M H (Z * list Z) :=
  match periph_i2c_max_bytes_per_frame with
  | Some frame => _read_max_loop fuel dev frame pos [] len
  | None => _read fuel dev pos len
  end.

Definition _write_page (fuel : nat) (dev : st25dvxxx_t) (pos : Z)
  (data : list Z) (len : Z) : M H Z :=
  let polls := DEV_MAX_POLLS dev in
  let '(dev_addr, pos, flags) :=
    if DEV_EEPROM_SIZE dev >? 2048 then
      (uint8 (Z.lor (DEV_I2C_ADDR dev) (Z.shiftr (Z.land pos 0xFF0000) 16)),
       Z.land pos 0xFFFF, I2C_REG16)
    else
      (uint8 (Z.lor (DEV_I2C_ADDR dev) (Z.shiftr (Z.land pos 0xFF00) 8)),
       Z.land pos 0xFF, 0) in
  poll_loop fuel (i2c_write_regs (DEV_I2C_BUS dev) dev_addr pos data len flags)
            (fun check => check) polls.

(** [cdata] is the rest of the caller's buffer; a page write reads its
    first [clen] bytes. *)
Fixpoint _write_loop (fuel : nat) (dev : st25dvxxx_t) (check : Z) (pos : Z)
  (cdata : list Z) (len : Z) : M H Z :=
  if len =? 0 then ret check
  else
    match fuel with
    | O => out_of_fuel
    | S fuel' =>
        let clen :=
          MIN len (uint32 (DEV_PAGE_SIZE dev
                           - MOD_POW2 pos (DEV_PAGE_SIZE dev))) in
        check <- _write_page fuel dev pos
                   (firstn (Z.to_nat clen) cdata) clen ;;
        if check =? 0 then
          _write_loop fuel' dev check (uint32 (pos + clen))
                      (skipn (Z.to_nat clen) cdata) (size_t (len - clen))
        else ret check
    end.

Definition _write (fuel : nat) (dev : st25dvxxx_t) (pos : Z) (data : list Z)
  (len : Z) : M H Z :=
  _write_loop fuel dev 0 pos data len.

(** [check] starts unassigned. *)
Fixpoint _set_loop (fuel : nat) (dev : st25dvxxx_t) (check : cint) (pos : Z)
  (set_buffer : list Z) (len : Z) : M H cint :=
  if len =? 0 then ret check
  else
    match fuel with
    | O => out_of_fuel
    | S fuel' =>
        let clen := MIN ST25DVXXX_SET_BUF_SIZE len in
        check <- _write fuel dev pos set_buffer clen ;;
        if check =? 0 then
          _set_loop fuel' dev (Int check) (uint32 (pos + clen))
                    set_buffer (size_t (len - clen))
        else ret (Int check)
    end.

Definition _set (fuel : nat) (dev : st25dvxxx_t) (pos val len : Z)
  : M H cint :=
  let set_buffer := repeat val (Z.to_nat ST25DVXXX_SET_BUF_SIZE) in
  _set_loop fuel dev Indeterminate pos set_buffer len.

Definition st25dvxxx_read_byte (fuel : nat) (dev : st25dvxxx_t) (pos : Z)
  : M H (Z * list Z) :=
  if pos >=? DEV_EEPROM_SIZE dev then ret (- ERANGE, [])
  else
    i2c_acquire (DEV_I2C_BUS dev) ;;;
    check <- _read fuel dev pos 1 ;;
    i2c_release (DEV_I2C_BUS dev) ;;;
    ret check.

Definition st25dvxxx_read (fuel : nat) (dev : st25dvxxx_t) (pos len : Z)
  : M H (Z * list Z) :=
  if uint32 (pos + len) >? DEV_EEPROM_SIZE dev then ret (- ERANGE, [])
  else
    if negb (len =? 0) then
      i2c_acquire (DEV_I2C_BUS dev) ;;;
      check <- _read_max fuel dev pos len ;;
      i2c_release (DEV_I2C_BUS dev) ;;;
      ret check
    else ret (ST25DVXXX_OK, []).

Definition st25dvxxx_write_byte (fuel : nat) (dev : st25dvxxx_t)
  (pos data : Z) : M H Z :=
  if pos >=? DEV_EEPROM_SIZE dev then ret (- ERANGE)
  else
    i2c_acquire (DEV_I2C_BUS dev) ;;;
    check <- _write fuel dev pos [data] 1 ;;
    i2c_release (DEV_I2C_BUS dev) ;;;
    ret check.

Definition st25dvxxx_write (fuel : nat) (dev : st25dvxxx_t) (pos : Z)
  (data : list Z) (len : Z) : M H Z :=
  if uint32 (pos + len) >? DEV_EEPROM_SIZE dev then ret (- ERANGE)
  else
    if negb (len =? 0) then
      i2c_acquire (DEV_I2C_BUS dev) ;;;
      check <- _write fuel dev pos data len ;;
      i2c_release (DEV_I2C_BUS dev) ;;;
      ret check
    else ret ST25DVXXX_OK.

Definition st25dvxxx_set (fuel : nat) (dev : st25dvxxx_t) (pos val len : Z)
  : M H cint :=
  if uint32 (pos + len) >? DEV_EEPROM_SIZE dev then ret (Int (- ERANGE))
  else
    if negb (len =? 0) then
      i2c_acquire (DEV_I2C_BUS dev) ;;;
      check <- _set fuel dev pos val len ;;
      i2c_release (DEV_I2C_BUS dev) ;;;
      ret check
    else ret (Int ST25DVXXX_OK).

Definition st25dvxxx_clear (fuel : nat) (dev : st25dvxxx_t) (pos len : Z)
  : M H cint :=
  st25dvxxx_set fuel dev pos ST25DVXXX_CLEAR_BYTE len.

Definition st25dvxxx_erase (fuel : nat) (dev : st25dvxxx_t) : M H cint :=
  st25dvxxx_clear fuel dev 0 (DEV_EEPROM_SIZE dev).

Definition st25dvxxx_enable_write_protect (dev : st25dvxxx_t) : M H Z :=
  if negb (gpio_is_valid (DEV_PIN_WP dev)) then ret (- ENOTSUP)
  else
    gpio_set (DEV_PIN_WP dev) ;;;
    ret ST25DVXXX_OK.

Definition st25dvxxx_disable_write_protect (dev : st25dvxxx_t) : M H Z :=
  if negb (gpio_is_valid (DEV_PIN_WP dev)) then ret (- ENOTSUP)
  else
    gpio_clear (DEV_PIN_WP dev) ;;;
    ret ST25DVXXX_OK.

End Driver.

(** ** Running fuelled code *)

(** [returns m w a w']: started in [w], the code [m] returns [a] and
    leaves the world [w'] (some amount of fuel is enough). *)
Definition returns {H A : Type} (m : nat -> M H A) (w : world H) (a : A)
  (w' : world H) : Prop :=
  exists fuel, m fuel w = Some (a, w').

(** More fuel never changes a result. *)
Definition fuel_mono {H A : Type} (m : nat -> M H A) : Prop :=
  forall f f' w x, m f w = Some x -> (f <= f')%nat -> m f' w = Some x.

(** ** Observations on traces *)

(** The trace of [w'] continues the one of [w]. *)
Definition extends {H : Type} (w w' : world H) : Prop :=
  exists evs, trace w' = trace w ++ evs.

Definition is_transfer (e : event) : bool :=
  match e with
  | EvI2cReadRegs _ _ _ _ _ _ => true
  | EvI2cWriteRegs _ _ _ _ _ _ _ => true
  | _ => false
  end.

(** Number of bus transfers among the events. *)
Definition attempts (evs : list event) : nat :=
  length (filter is_transfer evs).

(** A write transfer stays inside one page of [ps] bytes: its first
    and its last byte address have the same page number. *)
Definition in_one_page (ps : Z) (e : event) : Prop :=
  match e with
  | EvI2cWriteRegs _ _ reg _ len _ _ =>
      0 < len /\ reg / ps = (reg + len - 1) / ps
  | _ => True
  end.

(** ** Address translation, as specified (4.1) *)

Definition chip_addr (dev : st25dvxxx_t) (pos : Z) : Z :=
  if DEV_EEPROM_SIZE dev >? 2048
  then Z.lor (DEV_I2C_ADDR dev) (Z.land (Z.shiftr pos 16) 0xFF)
  else Z.lor (DEV_I2C_ADDR dev) (Z.land (Z.shiftr pos 8) 0xFF).

Definition txn_addr (dev : st25dvxxx_t) (pos : Z) : Z :=
  if DEV_EEPROM_SIZE dev >? 2048
  then Z.land pos 0xFFFF
  else Z.land pos 0xFF.

Definition addr_width_flag (dev : st25dvxxx_t) : Z :=
  if DEV_EEPROM_SIZE dev >? 2048 then I2C_REG16 else 0.

Definition write_event (dev : st25dvxxx_t) (pos : Z) (data : list Z) (len : Z)
  (status : Z) : event :=
  EvI2cWriteRegs (DEV_I2C_BUS dev) (chip_addr dev pos) (txn_addr dev pos)
                 data len (addr_width_flag dev) status.

Definition read_event (dev : st25dvxxx_t) (pos len : Z) (status : Z) : event :=
  EvI2cReadRegs (DEV_I2C_BUS dev) (chip_addr dev pos) (txn_addr dev pos)
                len (addr_width_flag dev) status.

(** ** The answers of the hardware to a repeated transfer *)

Section Answers.

Context {H : Type} {P : Periph H} {A : Type}.
Variable txn : H -> A * H.
Variable ev : A -> event.

(** The hardware after a transfer and the poll delay that follows it. *)
Definition after_retry (h : H) : H :=
  hw_xtimer_usleep ST25DVXXX_POLL_DELAY_US (snd (txn h)).

Fixpoint hw_after (k : nat) (h : H) : H :=
  match k with
  | O => h
  | S k' => hw_after k' (after_retry h)
  end.

(** What the [k]-th retry (attempt [k + 1]) is answered. *)
Definition answer (k : nat) (h : H) : A := fst (txn (hw_after k h)).

(** The events of [k] attempts, each followed by the poll delay. *)
Fixpoint retry_events (k : nat) (h : H) : list event :=
  match k with
  | O => []
  | S k' => ev (fst (txn h)) :: EvXtimerUsleep ST25DVXXX_POLL_DELAY_US
            :: retry_events k' (after_retry h)
  end.

End Answers.

(** Attempts allowed by a poll counter that starts at [polls]: the
    counter is decremented before it is compared with zero. *)
Definition poll_budget (polls : Z) : Z :=
  if polls =? 0 then 256 else polls.

Section Schedules.

Context {H : Type} {P : Periph H}.

Definition write_txn (dev : st25dvxxx_t) (pos : Z) (data : list Z) (len : Z)
  : H -> Z * H :=
  hw_i2c_write_regs (DEV_I2C_BUS dev) (chip_addr dev pos) (txn_addr dev pos)
                    data len (addr_width_flag dev).

Definition read_txn (dev : st25dvxxx_t) (pos len : Z)
  : H -> (Z * list Z) * H :=
  hw_i2c_read_regs (DEV_I2C_BUS dev) (chip_addr dev pos) (txn_addr dev pos)
                   len (addr_width_flag dev).

(** *** Page chunks, as specified (4.3) *)

Record chunk : Type := { c_pos : Z; c_data : list Z; c_len : Z }.

(** Consecutive chunks of a write of [len] bytes at [pos]: each has
    length min(remaining length, page_size - (offset mod page_size)). *)
Fixpoint page_chunks (n : nat) (ps pos : Z) (cdata : list Z) (len : Z)
  : list chunk :=
  match n with
  | O => []
  | S n' =>
      if len <=? 0 then []
      else
        let clen := Z.min len (ps - pos mod ps) in
        {| c_pos := pos; c_data := firstn (Z.to_nat clen) cdata;
           c_len := clen |}
        :: page_chunks n' ps (uint32 (pos + clen))
                       (skipn (Z.to_nat clen) cdata) (len - clen)
  end.

(** Write the chunks in order, one page write each; stop at the first
    one that fails. *)
Fixpoint write_chunks (dev : st25dvxxx_t) (chunks : list chunk) (fuel : nat)
  : M H Z :=
  match chunks with
  | [] => ret 0
  | c :: rest =>
      check <- _write_page fuel dev (c_pos c) (c_data c) (c_len c) ;;
      if check =? 0 then write_chunks dev rest fuel else ret check
  end.

(** *** Fill chunks, as specified (4.4) *)

(** Offsets and lengths of the chunks of a fill of [len] bytes at
    [pos]: each has length min(scratch size, remaining length). *)
Fixpoint fill_chunks (n : nat) (pos len : Z) : list (Z * Z) :=
  match n with
  | O => []
  | S n' =>
      if len <=? 0 then []
      else
        let clen := Z.min ST25DVXXX_SET_BUF_SIZE len in
        (pos, clen) :: fill_chunks n' (uint32 (pos + clen)) (len - clen)
  end.

(** Hand the chunks in order to the page-chunking writer, always from
    the start of the scratch buffer; stop at the first failure.
    [check] is the result so far. *)
Fixpoint write_fills (dev : st25dvxxx_t) (scratch : list Z) (check : cint)
  (chunks : list (Z * Z)) (fuel : nat) : M H cint :=
  match chunks with
  | [] => ret check
  | (pos, clen) :: rest =>
      c <- _write fuel dev pos scratch clen ;;
      if c =? 0 then write_fills dev scratch (Int c) rest fuel
      else ret (Int c)
  end.

(** *** The poll-retry contract (4.2) *)

(** [k] attempts answered NoAck, each followed by the poll delay. *)
Definition noack_retries (ev : Z -> event) (k : nat) : list event :=
  concat (repeat [ev (- ENXIO); EvXtimerUsleep ST25DVXXX_POLL_DELAY_US] k).

(** The contract of the executor [run] that wraps the transfer [txn],
    for an attempt budget [max_polls], started in [w]:
    - if the bus answers NoAck exactly [k < max_polls] times and then
      something else (success or another error), that answer is
      returned after exactly [k + 1] attempts;
    - if the bus answers NoAck on [max_polls] attempts in a row, the
      executor stops there and returns NoAck;
    - consecutive attempts are separated by the poll delay. *)
Definition poll_retry_contract {A : Type} (txn : H -> A * H)
  (ev : Z -> event) (status : A -> Z) (run : nat -> M H A) (max_polls : Z)
  (w : world H) : Prop :=
  (forall k : nat,
      Z.of_nat k < max_polls ->
      (forall i, (i < k)%nat -> status (answer txn i (hw w)) = - ENXIO) ->
      status (answer txn k (hw w)) <> - ENXIO ->
      exists w' evs,
        returns run w (answer txn k (hw w)) w' /\
        trace w' = trace w ++ evs /\
        evs = noack_retries ev k ++ [ev (status (answer txn k (hw w)))] /\
        attempts evs = (k + 1)%nat) /\
  ((forall i, (i < Z.to_nat max_polls)%nat ->
               status (answer txn i (hw w)) = - ENXIO) ->
   exists a w' evs,
     returns run w a w' /\ status a = - ENXIO /\
     trace w' = trace w ++ evs /\
     evs = removelast (noack_retries ev (Z.to_nat max_polls)) /\
     attempts evs = Z.to_nat max_polls).

(** How many attempts the executor [run] makes: always at least one;
    against a bus that never acknowledges, 256 for a budget of zero and
    [max_polls] otherwise. *)
Definition poll_attempts_contract {A : Type} (txn : H -> A * H)
  (status : A -> Z) (run : nat -> M H A) (max_polls : Z) (w : world H)
  : Prop :=
  (exists a w' evs,
      returns run w a w' /\ trace w' = trace w ++ evs /\
      (1 <= attempts evs)%nat) /\
  ((forall i : nat, status (answer txn i (hw w)) = - ENXIO) ->
   exists a w' evs,
     returns run w a w' /\ status a = - ENXIO /\
     trace w' = trace w ++ evs /\
     (max_polls = 0 -> attempts evs = 256%nat) /\
     (1 <= max_polls -> Z.of_nat (attempts evs) = max_polls)).

(** The events of one polled transfer: the transfer itself, with some
    status, or the poll delay. *)
Definition polled_event (ev : Z -> event) (e : event) : Prop :=
  e = EvXtimerUsleep ST25DVXXX_POLL_DELAY_US \/ exists st, e = ev st.

End Schedules.

(** ** A test double: the scripted bus

    The hardware state is the list of statuses the bus will answer to
    the coming transfers; once the script is used up every transfer is
    acknowledged.  A successful read delivers zero bytes of data.  The
    pin [SCRIPT_GPIO_UNDEF] is the undefined one. *)

Definition SCRIPT_GPIO_UNDEF : Z := 0xFFFFFFFF.

Definition script_answer (h : list Z) : Z * list Z :=
  match h with
  | [] => (0, [])
  | st :: h' => (st, h')
  end.

#[global] Instance script_periph : Periph (list Z) := {|
  hw_i2c_acquire := fun _ h => h;
  hw_i2c_release := fun _ h => h;
  hw_i2c_read_regs := fun _ _ _ len _ h =>
    let (st, h') := script_answer h in
    ((st, if st =? 0 then repeat 0 (Z.to_nat len) else []), h');
  hw_i2c_write_regs := fun _ _ _ _ _ _ h => script_answer h;
  hw_xtimer_usleep := fun _ h => h;
  hw_gpio_set := fun _ h => h;
  hw_gpio_clear := fun _ h => h;
  gpio_is_valid := fun pin => negb (pin =? SCRIPT_GPIO_UNDEF);
  periph_i2c_max_bytes_per_frame := None
|}.

(** A second test double: no device answers on the bus, every transfer
    ends in NoAck. *)
#[global] Instance absent_periph : Periph unit := {|
  hw_i2c_acquire := fun _ h => h;
  hw_i2c_release := fun _ h => h;
  hw_i2c_read_regs := fun _ _ _ _ _ h => ((- ENXIO, []), h);
  hw_i2c_write_regs := fun _ _ _ _ _ _ h => (- ENXIO, h);
  hw_xtimer_usleep := fun _ h => h;
  hw_gpio_set := fun _ h => h;
  hw_gpio_clear := fun _ h => h;
  gpio_is_valid := fun pin => negb (pin =? SCRIPT_GPIO_UNDEF);
  periph_i2c_max_bytes_per_frame := None
|}.

Definition absent_world : world unit := {| hw := tt; trace := [] |}.

(** A world of the scripted bus with nothing logged yet. *)
Definition script_world (script : list Z) : world (list Z) :=
  {| hw := script; trace := [] |}.

(** AT24C02: 256 bytes in pages of 8, no write-protect pin. *)
Definition at24c02 (polls : Z) : st25dvxxx_t :=
  {| params := {| i2c := 0; pin_wp := SCRIPT_GPIO_UNDEF; eeprom_size := 256;
                  dev_addr := ST25DVXXX_DEF_DEV_ADDR; page_size := 8;
                  max_polls := polls |} |}.

(** AT24C256: 32 KiB in pages of 64, write-protect on pin 7. *)
Definition at24c256 : st25dvxxx_t :=
  {| params := {| i2c := 0; pin_wp := 7; eeprom_size := 32768;
                  dev_addr := ST25DVXXX_DEF_DEV_ADDR; page_size := 64;
                  max_polls := 6 |} |}.

(** AT24C1024: 128 KiB in pages of 256 bytes.  The parameter table
    initialises the [uint8_t] field [page_size] with
    [AT24C1024_PAGE_SIZE = 256U]; the field keeps the low 8 bits. *)
Definition AT24C1024_PAGE_SIZE : Z := 256.

Definition at24c1024 : st25dvxxx_t :=
  {| params := {| i2c := 0; pin_wp := SCRIPT_GPIO_UNDEF;
                  eeprom_size := 131072;
                  dev_addr := ST25DVXXX_DEF_DEV_ADDR;
                  page_size := uint8 AT24C1024_PAGE_SIZE;
                  max_polls := 6 |} |}.

(** ** Further observations on traces *)

Definition is_sleep (e : event) : bool :=
  match e with
  | EvXtimerUsleep _ => true
  | _ => false
  end.

(** Number of delays among the events. *)
Definition sleeps (evs : list event) : nat :=
  length (filter is_sleep evs).

(** What may happen between acquiring and releasing the bus: a
    transfer or a delay. *)
Definition on_bus (e : event) : Prop :=
  is_transfer e = true \/ is_sleep e = true.

(** The events of a public operation: none at all, or one acquire of
    [bus], transfers and delays, and one release of [bus] at the end. *)
Definition bracketed (bus : Z) (evs : list event) : Prop :=
  evs = [] \/
  exists inner,
    evs = EvI2cAcquire bus :: inner ++ [EvI2cRelease bus] /\
    Forall on_bus inner.

(** The bytes of the write transfers that the device acknowledged
    (status 0), in the order of the transfers. *)
Definition acked_data (evs : list event) : list Z :=
  flat_map (fun e => match e with
                     | EvI2cWriteRegs _ _ _ data _ _ status =>
                         if status =? 0 then data else []
                     | _ => []
                     end) evs.


(** Device address and register a transfer goes to. *)
Definition transfer_target (e : event) : option (Z * Z) :=
  match e with
  | EvI2cReadRegs _ addr reg _ _ _ => Some (addr, reg)
  | EvI2cWriteRegs _ addr reg _ _ _ _ => Some (addr, reg)
  | _ => None
  end.


(** A read transfer asks for exactly [n] bytes. *)
Definition read_length (n : Z) (e : event) : Prop :=
  match e with
  | EvI2cReadRegs _ _ _ len _ _ => len = n
  | _ => True
  end.

(** ** The MTD adapter ([MODULE_MTD_ST25DVXXX]) *)

(** [(int)size] for a [uint32_t] size. *)
Definition int32 (x : Z) : Z := if x <? 2 ^ 31 then x else x - 2 ^ 32.

(** Modelled from the spec: the generic block-device descriptor of
    [mtd.h], which is not among the sources; the fields are those the
    adapter reports: page size, pages per sector, sector count and
    minimum write size. *)
Record mtd_dev_t : Type := {
  mtd_page_size : Z;
  pages_per_sector : Z;
  sector_count : Z;
  write_size : Z
}.

(** Modelled from the spec: the adapter's descriptor of
    [mtd_st25dvxxx.h], which is not among the sources: the generic
    descriptor, the EEPROM handle [DEV(mtd)] and the parameters
    [PARAMS(mtd)]. *)
Record mtd_st25dvxxx_t : Type := {
  mtd_base : mtd_dev_t;
  st25dvxxx_eeprom : st25dvxxx_t;
  mtd_params : st25dvxxx_params_t
}.

Section Adapter.

Context {H : Type} {P : Periph H}.

Definition _mtd_st25dvxxx_read_page (fuel : nat) (mtd : mtd_st25dvxxx_t)
  (page offset size : Z) : M H (Z * list Z) :=
  let dev := st25dvxxx_eeprom mtd in
  let size :=
    match periph_i2c_max_bytes_per_frame with
    | Some frame => MIN size frame
    | None => size
    end in
  i2c_acquire (DEV_I2C_BUS dev) ;;;
  res <- _read fuel dev
           (uint32 (page * mtd_page_size (mtd_base mtd) + offset)) size ;;
  i2c_release (DEV_I2C_BUS dev) ;;;
  ret (if fst res <? 0 then fst res else int32 size, snd res).


(** [st25dvxxx_clear(...) == ST25DVXXX_OK ? 0 : -EIO] *)
Definition _mtd_st25dvxxx_erase (fuel : nat) (mtd : mtd_st25dvxxx_t)
  (addr size : Z) : M H cint :=
  check <- st25dvxxx_clear fuel (st25dvxxx_eeprom mtd) addr size ;;
  ret (match check with
       | Int z => Int (if z =? ST25DVXXX_OK then 0 else - EIO)
       | Indeterminate => Indeterminate
       end).

Definition _mtd_st25dvxxx_power (mtd : mtd_st25dvxxx_t) (power : Z)
  : M H Z :=
  ret (- ENOTSUP).

End Adapter.

(** ** A scripted bus with a frame limit

    The scripted bus on a platform whose I2C peripheral moves at most
    4 bytes per frame. *)
Definition framed_periph : Periph (list Z) := {|
  hw_i2c_acquire := fun _ h => h;
  hw_i2c_release := fun _ h => h;
  hw_i2c_read_regs := fun _ _ _ len _ h =>
    let (st, h') := script_answer h in
    ((st, if st =? 0 then repeat 0 (Z.to_nat len) else []), h');
  hw_i2c_write_regs := fun _ _ _ _ _ _ h => script_answer h;
  hw_xtimer_usleep := fun _ h => h;
  hw_gpio_set := fun _ h => h;
  hw_gpio_clear := fun _ h => h;
  gpio_is_valid := fun pin => negb (pin =? SCRIPT_GPIO_UNDEF);
  periph_i2c_max_bytes_per_frame := Some 4
|}.

(** The adapter over the AT24C02. *)
Definition mtd_at24c02 : mtd_st25dvxxx_t :=
  {| mtd_base := {| mtd_page_size := 8; pages_per_sector := 1;
                    sector_count := 32; write_size := 1 |};
     st25dvxxx_eeprom := at24c02 6;
     mtd_params := params (at24c02 6) |}.

(** ** A simulated chip

    An EEPROM behind the bus, as a third test double.  Its state holds
    its configuration (device address, capacity, page size, duration
    of the internal write cycle in microseconds), its memory and the
    time its write cycle still runs.

    While the write cycle runs the chip does not acknowledge.  It
    acknowledges only addresses inside its capacity and only transfers
    in its own address width.  A write stores its bytes from the
    addressed cell on and wraps around inside the page; it starts a
    write cycle.  A read delivers consecutive cells and wraps around
    at the end of the memory.  Time passes in [xtimer_usleep] only. *)

Record chip_cfg : Type := {
  chip_base : Z;
  chip_cap : Z;
  chip_ps : Z;
  chip_cycle : Z
}.

Record chip : Type := {
  chip_config : chip_cfg;
  chip_mem : Z -> Z;
  chip_busy : Z
}.

Definition chip_width (cfg : chip_cfg) : Z :=
  if chip_cap cfg >? 2048 then 16 else 8.

Definition chip_flags (cfg : chip_cfg) : Z :=
  if chip_cap cfg >? 2048 then I2C_REG16 else 0.

(** The cell a device address and a register select. *)
Definition chip_linear (cfg : chip_cfg) (addr reg : Z) : Z :=
  (addr - chip_base cfg) * 2 ^ chip_width cfg + reg.

(** The cell after [lin] in the page of [lin]. *)
Definition chip_next (cfg : chip_cfg) (lin : Z) : Z :=
  if (lin + 1) mod chip_ps cfg =? 0 then lin + 1 - chip_ps cfg else lin + 1.

Fixpoint chip_store (cfg : chip_cfg) (mem : Z -> Z) (lin : Z)
  (data : list Z) : Z -> Z :=
  match data with
  | [] => mem
  | b :: rest =>
      chip_store cfg (fun a => if a =? lin then b else mem a)
                 (chip_next cfg lin) rest
  end.

Definition chip_load (cfg : chip_cfg) (mem : Z -> Z) (lin len : Z) : list Z :=
  map (fun i => mem ((lin + Z.of_nat i) mod chip_cap cfg))
      (seq 0 (Z.to_nat len)).

(** Does the chip answer this transfer at all? *)
Definition chip_selected (h : chip) (addr reg : Z) : bool :=
  (chip_busy h <=? 0)
  && (0 <=? chip_linear (chip_config h) addr reg)
  && (chip_linear (chip_config h) addr reg <? chip_cap (chip_config h)).

Definition chip_write (addr reg : Z) (data : list Z) (len flags : Z)
  (h : chip) : Z * chip :=
  if negb (chip_selected h addr reg) then (- ENXIO, h)
  else if negb (flags =? chip_flags (chip_config h)) then (- EIO, h)
  else (0, {| chip_config := chip_config h;
              chip_mem := chip_store (chip_config h) (chip_mem h)
                            (chip_linear (chip_config h) addr reg)
                            (firstn (Z.to_nat len) data);
              chip_busy := chip_cycle (chip_config h) |}).

Definition chip_read (addr reg len flags : Z) (h : chip)
  : (Z * list Z) * chip :=
  if negb (chip_selected h addr reg) then ((- ENXIO, []), h)
  else if negb (flags =? chip_flags (chip_config h)) then ((- EIO, []), h)
  else ((0, chip_load (chip_config h) (chip_mem h)
              (chip_linear (chip_config h) addr reg) len), h).

Definition chip_sleep (us : Z) (h : chip) : chip :=
  {| chip_config := chip_config h;
     chip_mem := chip_mem h;
     chip_busy := Z.max 0 (chip_busy h - us) |}.

#[global] Instance chip_periph : Periph chip | 100 := {|
  hw_i2c_acquire := fun _ h => h;
  hw_i2c_release := fun _ h => h;
  hw_i2c_read_regs := fun _ addr reg len flags h =>
    chip_read addr reg len flags h;
  hw_i2c_write_regs := fun _ addr reg data len flags h =>
    chip_write addr reg data len flags h;
  hw_xtimer_usleep := chip_sleep;
  hw_gpio_set := fun _ h => h;
  hw_gpio_clear := fun _ h => h;
  gpio_is_valid := fun _ => false;
  periph_i2c_max_bytes_per_frame := None
|}.

(** The chip that fits the device descriptor [dev], with a write
    cycle of [cycle] microseconds. *)
Definition chip_for (dev : st25dvxxx_t) (cycle : Z) : chip_cfg :=
  {| chip_base := DEV_I2C_ADDR dev;
     chip_cap := DEV_EEPROM_SIZE dev;
     chip_ps := DEV_PAGE_SIZE dev;
     chip_cycle := cycle |}.

(** The chip with its write cycle over. *)
Definition chip_idle (h : chip) : chip :=
  {| chip_config := chip_config h; chip_mem := chip_mem h; chip_busy := 0 |}.

(** [mem'] is [mem] with the bytes [data] in the cells from [pos] on. *)
Definition holds_at (mem : Z -> Z) (pos : Z) (data : list Z)
  (mem' : Z -> Z) : Prop :=
  forall a,
    mem' a = if (pos <=? a) && (a <? pos + Z.of_nat (length data))
             then nth (Z.to_nat (a - pos)) data 0
             else mem a.

(** A fresh AT24C02 chip (write cycle 5 ms) with all cells [0xFF]. *)
Definition chip_at24c02 : world chip :=
  {| hw := {| chip_config := chip_for (at24c02 6) 5000;
              chip_mem := fun _ => 255;
              chip_busy := 0 |};
     trace := [] |}.

(** The simulated chip [h] is the one that fits [dev], and its write
    cycle, if one runs, ends within [cycle] microseconds. *)
Definition chip_fits (dev : st25dvxxx_t) (cycle : Z) (h : chip) : Prop :=
  chip_config h = chip_for dev cycle /\ 0 <= chip_busy h <= cycle.



(** * Properties *)

(** ** Arithmetic of the fixed-width operations *)

Lemma uint8_small (x : Z) : is_uint8 x -> uint8 x = x.
Proof. unfold is_uint8, uint8; intros; apply Z.mod_small; lia. Qed.

Lemma uint32_small (x : Z) : is_uint32 x -> uint32 x = x.
Proof. unfold is_uint32, uint32; intros; apply Z.mod_small; lia. Qed.

Lemma size_t_small (x : Z) : is_uint32 x -> size_t x = x.
Proof. unfold is_uint32, size_t; intros; apply Z.mod_small; lia. Qed.

Lemma uint32_range (x : Z) : is_uint32 (uint32 x).
Proof. unfold is_uint32, uint32; apply Z.mod_pos_bound; lia. Qed.

Lemma land_low_bits (x n : Z) : 0 <= n -> Z.land x (2 ^ n - 1) = x mod 2 ^ n.
Proof.
  intros Hn. rewrite <- Z.land_ones by assumption.
  now rewrite Z.ones_equiv, <- Z.sub_1_r.
Qed.

Lemma MOD_POW2_mod (x k : Z) : 0 <= k -> MOD_POW2 x (2 ^ k) = x mod 2 ^ k.
Proof. intros; unfold MOD_POW2; now apply land_low_bits. Qed.

Lemma MIN_min (a b : Z) : MIN a b = Z.min a b.
Proof. unfold MIN; destruct (Z.ltb_spec a b); lia. Qed.

Lemma lor_uint8 (a b : Z) : is_uint8 a -> is_uint8 b -> is_uint8 (Z.lor a b).
Proof.
  unfold is_uint8; intros Ha Hb.
  assert (E : Z.lor a b mod 2 ^ 8 = Z.lor a b).
  { rewrite <- !Z.land_ones by lia. rewrite Z.land_lor_distr_l.
    rewrite !Z.land_ones by lia. now rewrite !Z.mod_small by lia. }
  rewrite <- E. apply Z.mod_pos_bound; lia.
Qed.

Lemma land_255_uint8 (x : Z) : is_uint8 (Z.land x 0xFF).
Proof.
  unfold is_uint8. change 0xFF with (2 ^ 8 - 1).
  rewrite land_low_bits by lia. apply Z.mod_pos_bound; lia.
Qed.

Lemma high_bits_16 (pos : Z) :
  Z.shiftr (Z.land pos 0xFF0000) 16 = Z.land (Z.shiftr pos 16) 0xFF.
Proof. now rewrite Z.shiftr_land. Qed.

Lemma high_bits_8 (pos : Z) :
  Z.shiftr (Z.land pos 0xFF00) 8 = Z.land (Z.shiftr pos 8) 0xFF.
Proof. now rewrite Z.shiftr_land. Qed.

(** The page chunk the code computes is the one the contract names. *)
Lemma page_clen_spec (ps pos len k : Z) :
  0 <= k < 8 -> ps = 2 ^ k -> is_uint32 pos ->
  MIN len (uint32 (ps - MOD_POW2 pos ps)) = Z.min len (ps - pos mod ps).
Proof.
  intros Hk -> Hpos. rewrite MIN_min, MOD_POW2_mod by lia.
  assert (0 < 2 ^ k) by (apply Z.pow_pos_nonneg; lia).
  assert (2 ^ k < 2 ^ 8) by (apply Z.pow_lt_mono_r; lia).
  pose proof (Z.mod_pos_bound pos (2 ^ k) ltac:(lia)).
  rewrite uint32_small; [reflexivity | unfold is_uint32; lia].
Qed.

(** A page chunk is never empty and ends at the page end at the latest. *)
Lemma page_clen_bounds (ps pos len : Z) :
  0 < ps -> 0 < len ->
  0 < Z.min len (ps - pos mod ps) <= ps - pos mod ps.
Proof.
  intros Hps Hlen. pose proof (Z.mod_pos_bound pos ps Hps). lia.
Qed.

(** The in-transaction address keeps the offset inside the page. *)
Lemma txn_addr_mod (dev : st25dvxxx_t) (pos k : Z) :
  0 <= k < 8 ->
  txn_addr dev pos mod 2 ^ k = pos mod 2 ^ k.
Proof.
  intros Hk. unfold txn_addr.
  assert (D : forall n, k <= n -> (2 ^ k | 2 ^ n)).
  { intros n Hn. exists (2 ^ (n - k)).
    rewrite <- Z.pow_add_r by lia. f_equal; lia. }
  destruct (DEV_EEPROM_SIZE dev >? 2048).
  - change 0xFFFF with (2 ^ 16 - 1). rewrite land_low_bits by lia.
    apply Z.mod_mod_divide, D; lia.
  - change 0xFF with (2 ^ 8 - 1). rewrite land_low_bits by lia.
    apply Z.mod_mod_divide, D; lia.
Qed.

Lemma txn_addr_nonneg (dev : st25dvxxx_t) (pos : Z) : 0 <= txn_addr dev pos.
Proof.
  unfold txn_addr. destruct (DEV_EEPROM_SIZE dev >? 2048).
  - change 0xFFFF with (2 ^ 16 - 1). rewrite land_low_bits by lia.
    apply Z.mod_pos_bound; lia.
  - change 0xFF with (2 ^ 8 - 1). rewrite land_low_bits by lia.
    apply Z.mod_pos_bound; lia.
Qed.

(** A transfer that starts at [reg] and is no longer than the rest of
    the page of [reg] stays in that page. *)
Lemma same_page (ps reg len : Z) :
  0 < ps -> 0 <= reg -> 0 < len <= ps - reg mod ps ->
  reg / ps = (reg + len - 1) / ps.
Proof.
  intros Hps Hreg Hlen.
  pose proof (Z.mod_pos_bound reg ps Hps).
  pose proof (Z.div_mod reg ps ltac:(lia)).
  apply Z.div_unique with (r := reg mod ps + len - 1); lia.
Qed.

Lemma poll_budget_range (polls : Z) :
  is_uint8 polls -> 1 <= poll_budget polls <= 256.
Proof.
  unfold is_uint8, poll_budget; intros.
  destruct (Z.eqb_spec polls 0); lia.
Qed.

(** One decrement of the counter that does not reach zero uses up one
    attempt of the budget. *)
Lemma poll_budget_step (polls : Z) :
  is_uint8 polls ->
  (uint8 (polls - 1) = 0 <-> poll_budget polls = 1) /\
  (uint8 (polls - 1) <> 0 ->
   is_uint8 (uint8 (polls - 1)) /\
   poll_budget (uint8 (polls - 1)) = poll_budget polls - 1).
Proof.
  unfold is_uint8, poll_budget, uint8; intros Hp.
  destruct (Z.eqb_spec polls 0) as [-> | Hn].
  - change ((0 - 1) mod 2 ^ 8) with 255. cbn. lia.
  - rewrite Z.mod_small by lia.
    destruct (Z.eqb_spec (polls - 1) 0); lia.
Qed.

Section Properties.

Context {H : Type} {P : Periph H}.

(** ** The monad *)

Lemma call_eq {A : Type} (f : H -> A * H) (ev : A -> event) (w : world H) :
  call f ev w =
  Some (fst (f (hw w)),
        {| hw := snd (f (hw w)); trace := trace w ++ [ev (fst (f (hw w)))] |}).
Proof. unfold call. now destruct (f (hw w)). Qed.

Lemma bind_some {A B : Type} (m : M H A) (k : A -> M H B) (w : world H)
  (x : B * world H) :
  bind m k w = Some x <-> exists a w1, m w = Some (a, w1) /\ k a w1 = Some x.
Proof.
  unfold bind. split.
  - destruct (m w) as [[a w1] |]; [ | discriminate ]. intros Hk. now exists a, w1.
  - intros (a & w1 & -> & Hk). exact Hk.
Qed.

Lemma bind_eq {A B : Type} (m : M H A) (k : A -> M H B) (w w1 : world H)
  (a : A) :
  m w = Some (a, w1) -> bind m k w = k a w1.
Proof. unfold bind. now intros ->. Qed.

Lemma extends_refl (w : world H) : extends w w.
Proof. exists []. now rewrite app_nil_r. Qed.

Lemma extends_trans (w1 w2 w3 : world H) :
  extends w1 w2 -> extends w2 w3 -> extends w1 w3.
Proof.
  intros [e1 E1] [e2 E2]. exists (e1 ++ e2). now rewrite E2, E1, app_assoc.
Qed.

(** ** Fuel *)

Ltac mono_bind Hx :=
  let a := fresh "a" in
  let w1 := fresh "w" in
  let E := fresh "E" in
  apply bind_some in Hx; destruct Hx as (a & w1 & E & Hx).

Lemma poll_loop_mono {A : Type} (txn : M H A) (status : A -> Z) (polls : Z) :
  fuel_mono (fun f => poll_loop f txn status polls).
Proof.
  unfold fuel_mono. intros f; revert polls.
  induction f as [ | f IH ]; intros polls f' w x Hx Hle; [ discriminate | ].
  destruct f' as [ | f' ]; [ lia | ]. cbn [poll_loop] in *.
  mono_bind Hx. rewrite (bind_eq _ _ _ _ _ E).
  destruct (status a =? - ENXIO); [ | exact Hx ].
  cbv zeta in *. destruct (uint8 (polls - 1) =? 0); [ exact Hx | ].
  mono_bind Hx. rewrite (bind_eq _ _ _ _ _ E0).
  apply IH with (f' := f') in Hx; [ exact Hx | lia ].
Qed.


Lemma _write_page_mono (dev : st25dvxxx_t) (pos : Z) (data : list Z) (len : Z) :
  fuel_mono (fun f => _write_page f dev pos data len).
Proof.
  unfold _write_page.
  destruct (DEV_EEPROM_SIZE dev >? 2048); apply poll_loop_mono.
Qed.

Lemma _write_loop_mono (dev : st25dvxxx_t) (check pos : Z) (cdata : list Z)
  (len : Z) :
  fuel_mono (fun f => _write_loop f dev check pos cdata len).
Proof.
  unfold fuel_mono. intros f; revert check pos cdata len.
  induction f as [ | f IH ]; intros check pos cdata len f' w x Hx Hle.
  - cbn in *. destruct f'; cbn; destruct (len =? 0); try discriminate; exact Hx.
  - destruct f' as [ | f' ]; [ lia | ]. cbn [_write_loop] in *.
    destruct (len =? 0); [ exact Hx | ]. cbv zeta in *.
    mono_bind Hx.
    pose proof (_write_page_mono dev _ _ _ _ (S f') _ _ E ltac:(lia)) as E'.
    clear E; rename E' into E.
    rewrite (bind_eq _ _ _ _ _ E).
    destruct (a =? 0); [ | exact Hx ].
    apply IH with (f' := f') in Hx; [ exact Hx | lia ].
Qed.

Lemma _write_mono (dev : st25dvxxx_t) (pos : Z) (data : list Z) (len : Z) :
  fuel_mono (fun f => _write f dev pos data len).
Proof. apply _write_loop_mono. Qed.

Lemma _set_loop_mono (dev : st25dvxxx_t) (check : cint) (pos : Z)
  (buf : list Z) (len : Z) :
  fuel_mono (fun f => _set_loop f dev check pos buf len).
Proof.
  unfold fuel_mono. intros f; revert check pos len.
  induction f as [ | f IH ]; intros check pos len f' w x Hx Hle.
  - cbn in *. destruct f'; cbn; destruct (len =? 0); try discriminate; exact Hx.
  - destruct f' as [ | f' ]; [ lia | ]. cbn [_set_loop] in *.
    destruct (len =? 0); [ exact Hx | ]. cbv zeta in *.
    mono_bind Hx.
    pose proof (_write_mono dev _ _ _ _ (S f') _ _ E ltac:(lia)) as E'.
    clear E; rename E' into E.
    rewrite (bind_eq _ _ _ _ _ E).
    destruct (a =? 0); [ | exact Hx ].
    apply IH with (f' := f') in Hx; [ exact Hx | lia ].
Qed.

Lemma write_chunks_mono (dev : st25dvxxx_t) (chunks : list chunk) :
  fuel_mono (write_chunks dev chunks).
Proof.
  unfold fuel_mono. induction chunks as [ | c rest IH ]; intros f f' w x Hx Hle.
  - exact Hx.
  - cbn [write_chunks] in *. mono_bind Hx.
    pose proof (_write_page_mono dev _ _ _ _ f' _ _ E ltac:(lia)) as E'.
    clear E; rename E' into E.
    rewrite (bind_eq _ _ _ _ _ E).
    destruct (a =? 0); [ | exact Hx ]. now apply IH with (f := f).
Qed.

Lemma write_fills_mono (dev : st25dvxxx_t) (buf : list Z) (check : cint)
  (chunks : list (Z * Z)) :
  fuel_mono (write_fills dev buf check chunks).
Proof.
  unfold fuel_mono. revert check.
  induction chunks as [ | [pos clen] rest IH ]; intros check f f' w x Hx Hle.
  - exact Hx.
  - cbn [write_fills] in *. mono_bind Hx.
    pose proof (_write_mono dev _ _ _ _ f' _ _ E ltac:(lia)) as E'.
    clear E; rename E' into E.
    rewrite (bind_eq _ _ _ _ _ E).
    destruct (a =? 0); [ | exact Hx ]. now apply IH with (f := f).
Qed.

(** A result does not depend on the fuel that produced it. *)
Lemma returns_unique {A : Type} (m : nat -> M H A) (w : world H)
  (a1 a2 : A) (w1 w2 : world H) :
  fuel_mono m -> returns m w a1 w1 -> returns m w a2 w2 ->
  a1 = a2 /\ w1 = w2.
Proof.
  intros Hm [f1 E1] [f2 E2].
  pose proof (Hm _ (Nat.max f1 f2) _ _ E1 ltac:(lia)) as E1'.
  pose proof (Hm _ (Nat.max f1 f2) _ _ E2 ltac:(lia)) as E2'.
  rewrite E1' in E2'. now inversion E2'.
Qed.

(** ** The poll loop *)

Section Poll.

Context {A : Type}.
Variable txn : H -> A * H.
Variable ev : A -> event.
Variable status : A -> Z.

(** What the loop does, for any hardware: it makes attempt after
    attempt while the answer is NoAck and the budget lasts, and returns
    the answer of its last attempt. *)
Lemma poll_loop_spec (fuel : nat) :
  forall (polls : Z) (w : world H),
    is_uint8 polls ->
    (Z.to_nat (poll_budget polls) <= fuel)%nat ->
    exists k : nat,
      Z.of_nat k < poll_budget polls /\
      (forall i, (i < k)%nat -> status (answer txn i (hw w)) = - ENXIO) /\
      (status (answer txn k (hw w)) <> - ENXIO \/
       Z.of_nat k = poll_budget polls - 1) /\
      poll_loop fuel (call txn ev) status polls w =
      Some (answer txn k (hw w),
            {| hw := snd (txn (hw_after txn k (hw w)));
               trace := trace w ++ retry_events txn ev k (hw w)
                                ++ [ev (answer txn k (hw w))] |}).
Proof.
  induction fuel as [ | fuel IH ]; intros polls w Hp Hf.
  - pose proof (poll_budget_range polls Hp). lia.
  - pose proof (poll_budget_range polls Hp) as Hb.
    destruct (poll_budget_step polls Hp) as [Hz Hnz].
    cbn [poll_loop]. rewrite (bind_eq _ _ _ _ _ (call_eq txn ev w)).
    destruct (Z.eqb_spec (status (fst (txn (hw w)))) (- ENXIO)) as [Hs | Hs].
    + cbv zeta. destruct (Z.eqb_spec (uint8 (polls - 1)) 0) as [Hu | Hu].
      * exists O. split; [ lia | ]. split; [ intros i Hi; lia | ].
        split; [ right; apply Hz in Hu; lia | ].
        reflexivity.
      * destruct (Hnz Hu) as [Hp' Hb'].
        unfold xtimer_usleep. erewrite bind_eq by apply call_eq.
        cbn [fst snd hw trace].
        assert (Hf' : (Z.to_nat (poll_budget (uint8 (polls - 1))) <= fuel)%nat)
          by (rewrite Hb'; lia).
        destruct (IH (uint8 (polls - 1))
                    {| hw := hw_xtimer_usleep ST25DVXXX_POLL_DELAY_US
                               (snd (txn (hw w)));
                       trace := (trace w ++ [ev (fst (txn (hw w)))])
                                ++ [EvXtimerUsleep ST25DVXXX_POLL_DELAY_US] |}
                    Hp' Hf')
          as (k & Hk & Hno & Hlast & Hrun).
        cbn [hw trace] in *.
        exists (S k). split; [ | split; [ | split ] ].
        -- lia.
        -- intros [ | i ] Hi; [ exact Hs | ]. apply Hno. lia.
        -- destruct Hlast as [Hl | Hl]; [ left; exact Hl | right; lia ].
        -- rewrite Hrun. unfold answer. cbn [hw_after retry_events].
           unfold after_retry. do 3 f_equal.
           rewrite <- !app_assoc. reflexivity.
    + exists O. split; [ lia | ]. split; [ intros i Hi; lia | ].
      split; [ left; exact Hs | ]. reflexivity.
Qed.

(** The loop always returns. *)
Lemma poll_loop_returns (polls : Z) (w : world H) :
  is_uint8 polls ->
  exists a w',
    poll_loop 256 (call txn ev) status polls w = Some (a, w').
Proof.
  intros Hp. pose proof (poll_budget_range polls Hp).
  destruct (poll_loop_spec 256 polls w Hp ltac:(lia)) as (k & _ & _ & _ & E).
  eauto.
Qed.

(** If the hardware answers NoAck [k] times and then [r], within the
    budget, the loop returns [r] after [k + 1] attempts, with the poll
    delay between any two of them. *)
Lemma poll_loop_answer (k : nat) (polls : Z) (w : world H) (fuel : nat) :
  is_uint8 polls ->
  (Z.to_nat (poll_budget polls) <= fuel)%nat ->
  Z.of_nat k < poll_budget polls ->
  (forall i, (i < k)%nat -> status (answer txn i (hw w)) = - ENXIO) ->
  (status (answer txn k (hw w)) <> - ENXIO \/
   Z.of_nat k = poll_budget polls - 1) ->
  poll_loop fuel (call txn ev) status polls w =
  Some (answer txn k (hw w),
        {| hw := snd (txn (hw_after txn k (hw w)));
           trace := trace w ++ retry_events txn ev k (hw w)
                            ++ [ev (answer txn k (hw w))] |}).
Proof.
  intros Hp Hf Hk Hno Hlast.
  destruct (poll_loop_spec fuel polls w Hp Hf)
    as (k0 & Hk0 & Hno0 & Hlast0 & E).
  assert (k0 = k) as ->; [ | exact E ].
  destruct (Nat.lt_trichotomy k0 k) as [Hlt | [Heq | Hgt]]; [ | exact Heq | ].
  - destruct Hlast0 as [Hl | Hl]; [ now specialize (Hno _ Hlt) | lia ].
  - destruct Hlast as [Hl | Hl]; [ now specialize (Hno0 _ Hgt) | lia ].
Qed.

(** Transfers among the events of [k] retries. *)
Lemma attempts_retry_events (k : nat) (h : H) (tl : list event) :
  (forall a, is_transfer (ev a) = true) ->
  attempts (retry_events txn ev k h ++ tl) = (k + attempts tl)%nat.
Proof.
  intros Hev. revert h. induction k as [ | k IH ]; intros h; [ reflexivity | ].
  unfold attempts in *. cbn [retry_events app filter].
  rewrite Hev. cbn [is_transfer length]. now rewrite IH.
Qed.

End Poll.

(** *** The loop against its contract *)

Section PollContract.

Context {A : Type}.
Variable txn : H -> A * H.
Variable ev : Z -> event.
Variable status : A -> Z.
Hypothesis ev_transfer : forall st, is_transfer (ev st) = true.

Lemma noack_retries_S (k : nat) :
  noack_retries ev (S k) =
  noack_retries ev k ++ [ev (- ENXIO); EvXtimerUsleep ST25DVXXX_POLL_DELAY_US].
Proof.
  unfold noack_retries. induction k as [ | k IH ]; [ reflexivity | ].
  cbn [repeat concat] in *. rewrite IH at 1. reflexivity.
Qed.

Lemma removelast_noack_retries (k : nat) :
  removelast (noack_retries ev (S k)) = noack_retries ev k ++ [ev (- ENXIO)].
Proof.
  rewrite noack_retries_S, removelast_app by discriminate. reflexivity.
Qed.

Lemma retry_events_noack (k : nat) :
  forall h,
    (forall i, (i < k)%nat -> status (answer txn i h) = - ENXIO) ->
    retry_events txn (fun a => ev (status a)) k h = noack_retries ev k.
Proof.
  induction k as [ | k IH ]; intros h Hno; [ reflexivity | ].
  cbn [retry_events]. rewrite IH.
  - pose proof (Hno O ltac:(lia)) as H0. unfold answer in H0. cbn in H0.
    rewrite H0. reflexivity.
  - intros i Hi. apply (Hno (S i)). lia.
Qed.

Lemma attempts_noack_retries (k : nat) (tl : list event) :
  attempts (noack_retries ev k ++ tl) = (k + attempts tl)%nat.
Proof.
  induction k as [ | k IH ]; [ reflexivity | ].
  unfold noack_retries, attempts in *. cbn [repeat concat app filter].
  rewrite ev_transfer. cbn [is_transfer length]. now rewrite IH.
Qed.

Lemma attempts_last (st : Z) : attempts [ev st] = 1%nat.
Proof. unfold attempts. cbn. now rewrite ev_transfer. Qed.

Lemma poll_loop_contract (polls : Z) (w : world H) :
  is_uint8 polls -> 1 <= polls ->
  poll_retry_contract txn ev status
    (fun fuel => poll_loop fuel (call txn (fun a => ev (status a))) status
                   polls)
    polls w.
Proof.
  intros Hp H1.
  assert (Hb : poll_budget polls = polls).
  { unfold poll_budget. destruct (Z.eqb_spec polls 0); lia. }
  assert (Hf : (Z.to_nat (poll_budget polls) <= 256)%nat).
  { unfold is_uint8 in Hp. lia. }
  split.
  - intros k Hk Hno Hlast.
    pose proof (poll_loop_answer txn (fun a => ev (status a)) status k polls w
                  256 Hp Hf ltac:(lia) Hno (or_introl Hlast)) as E.
    rewrite (retry_events_noack k _ Hno) in E.
    eexists _, _. split; [ exists 256%nat; exact E | ].
    split; [ reflexivity | ]. split; [ reflexivity | ].
    rewrite attempts_noack_retries, attempts_last. reflexivity.
  - intros Hno.
    assert (Hn : Z.to_nat polls = S (Z.to_nat polls - 1)) by lia.
    remember (Z.to_nat polls - 1)%nat as k eqn:Ek.
    assert (Hno' : forall i, (i < k)%nat -> status (answer txn i (hw w)) = - ENXIO)
      by (intros i Hi; apply Hno; lia).
    assert (Hk : Z.of_nat k = poll_budget polls - 1) by lia.
    pose proof (poll_loop_answer txn (fun a => ev (status a)) status k polls w
                  256 Hp Hf ltac:(lia) Hno' (or_intror Hk)) as E.
    rewrite (retry_events_noack k _ Hno') in E.
    assert (Hs : status (answer txn k (hw w)) = - ENXIO) by (apply Hno; lia).
    rewrite Hs in E.
    eexists _, _, _. split; [ exists 256%nat; exact E | ].
    split; [ exact Hs | ]. split; [ reflexivity | ].
    rewrite Hn, removelast_noack_retries. split; [ reflexivity | ].
    rewrite attempts_noack_retries, attempts_last. lia.
Qed.

Lemma poll_loop_attempts (polls : Z) (w : world H) :
  is_uint8 polls ->
  poll_attempts_contract txn status
    (fun fuel => poll_loop fuel (call txn (fun a => ev (status a))) status
                   polls)
    polls w.
Proof.
  intros Hp. pose proof (poll_budget_range polls Hp) as Hb.
  split.
  - destruct (poll_loop_spec txn (fun a => ev (status a)) status 256 polls w Hp
                ltac:(lia)) as (k & _ & _ & _ & E).
    eexists _, _, _. split; [ exists 256%nat; exact E | ].
    split; [ reflexivity | ].
    rewrite attempts_retry_events by (intros; apply ev_transfer).
    cbv beta. rewrite attempts_last. lia.
  - intros Hno.
    assert (Hn : Z.to_nat (poll_budget polls)
                 = S (Z.to_nat (poll_budget polls) - 1)) by lia.
    remember (Z.to_nat (poll_budget polls) - 1)%nat as k eqn:Ek.
    assert (Hk : Z.of_nat k = poll_budget polls - 1) by lia.
    pose proof (poll_loop_answer txn (fun a => ev (status a)) status k polls w
                  256 Hp ltac:(lia) ltac:(lia) (fun i _ => Hno i)
                  (or_intror Hk)) as E.
    eexists _, _, _. split; [ exists 256%nat; exact E | ].
    split; [ apply Hno | ]. split; [ reflexivity | ].
    rewrite attempts_retry_events by (intros; apply ev_transfer).
    cbv beta. rewrite attempts_last.
    unfold poll_budget in *. destruct (Z.eqb_spec polls 0); split; lia.
Qed.

End PollContract.

Lemma poll_retry_contract_ext {A : Type} (txn : H -> A * H) (ev : Z -> event)
  (status : A -> Z) (run run' : nat -> M H A) (polls : Z) (w : world H) :
  (forall f, run' f = run f) ->
  poll_retry_contract txn ev status run polls w ->
  poll_retry_contract txn ev status run' polls w.
Proof.
  intros Heq [C1 C2]. split.
  - intros k Hk Hno Hlast.
    destruct (C1 k Hk Hno Hlast) as (w' & evs & [f Hf] & Hrest).
    exists w', evs. split; [ exists f; now rewrite Heq | exact Hrest ].
  - intros Hno. destruct (C2 Hno) as (a & w' & evs & [f Hf] & Hrest).
    exists a, w', evs. split; [ exists f; now rewrite Heq | exact Hrest ].
Qed.

Lemma poll_attempts_contract_ext {A : Type} (txn : H -> A * H)
  (status : A -> Z) (run run' : nat -> M H A) (polls : Z) (w : world H) :
  (forall f, run' f = run f) ->
  poll_attempts_contract txn status run polls w ->
  poll_attempts_contract txn status run' polls w.
Proof.
  intros Heq [C1 C2]. split.
  - destruct C1 as (a & w' & evs & [f Hf] & Hrest).
    exists a, w', evs. split; [ exists f; now rewrite Heq | exact Hrest ].
  - intros Hno. destruct (C2 Hno) as (a & w' & evs & [f Hf] & Hrest).
    exists a, w', evs. split; [ exists f; now rewrite Heq | exact Hrest ].
Qed.

(** ** Address translation *)

(** The device address byte the code computes is the specified one. *)
Lemma dev_addr_spec (dev : st25dvxxx_t) (pos : Z) :
  dev_wf dev ->
  (if DEV_EEPROM_SIZE dev >? 2048
   then uint8 (Z.lor (DEV_I2C_ADDR dev) (Z.shiftr (Z.land pos 0xFF0000) 16))
   else uint8 (Z.lor (DEV_I2C_ADDR dev) (Z.shiftr (Z.land pos 0xFF00) 8)))
  = chip_addr dev pos.
Proof.
  intros (_ & Ha & _). unfold chip_addr.
  destruct (DEV_EEPROM_SIZE dev >? 2048).
  - rewrite high_bits_16. apply uint8_small, lor_uint8;
      [ exact Ha | apply land_255_uint8 ].
  - rewrite high_bits_8. apply uint8_small, lor_uint8;
      [ exact Ha | apply land_255_uint8 ].
Qed.

(** [_write_page] is the poll loop around the translated transfer. *)
Lemma _write_page_poll (fuel : nat) (dev : st25dvxxx_t) (pos : Z)
  (data : list Z) (len : Z) :
  dev_wf dev ->
  _write_page fuel dev pos data len =
  poll_loop fuel
    (call (write_txn dev pos data len)
          (fun a => write_event dev pos data len ((fun c : Z => c) a)))
    (fun c => c) (DEV_MAX_POLLS dev).
Proof.
  intros Hwf. pose proof (dev_addr_spec dev pos Hwf) as Ha.
  unfold _write_page, write_txn, write_event, i2c_write_regs,
    txn_addr, addr_width_flag in *.
  destruct (DEV_EEPROM_SIZE dev >? 2048); rewrite Ha; reflexivity.
Qed.

(** [_read] is the poll loop around the translated transfer. *)
Lemma _read_poll (fuel : nat) (dev : st25dvxxx_t) (pos len : Z) :
  dev_wf dev ->
  _read fuel dev pos len =
  poll_loop fuel
    (call (read_txn dev pos len)
          (fun a => read_event dev pos len (fst a)))
    fst (DEV_MAX_POLLS dev).
Proof.
  intros Hwf. pose proof (dev_addr_spec dev pos Hwf) as Ha.
  unfold _read, read_txn, read_event, i2c_read_regs,
    txn_addr, addr_width_flag in *.
  destruct (DEV_EEPROM_SIZE dev >? 2048); rewrite Ha; reflexivity.
Qed.

(** The events of a poll loop are the transfer and the delay only. *)
Lemma retry_events_polled {A : Type} (txn : H -> A * H) (ev : Z -> event)
  (status : A -> Z) (k : nat) :
  forall h, Forall (polled_event ev)
                   (retry_events txn (fun a => ev (status a)) k h).
Proof.
  induction k as [ | k IH ]; intros h; cbn [retry_events].
  - constructor.
  - constructor; [ right; eauto | ]. constructor; [ now left | apply IH ].
Qed.

(** Whatever fuel produced the result of a poll loop, it is the result
    [poll_loop_spec] describes. *)
Lemma poll_loop_inv {A : Type} (txn : H -> A * H) (ev : Z -> event)
  (status : A -> Z) (fuel : nat) (polls : Z) (w w' : world H) (a : A) :
  is_uint8 polls ->
  poll_loop fuel (call txn (fun a => ev (status a))) status polls w
  = Some (a, w') ->
  exists evs,
    trace w' = trace w ++ evs /\ Forall (polled_event ev) evs /\
    In (ev (status a)) evs.
Proof.
  intros Hp E. pose proof (poll_budget_range polls Hp) as Hb.
  pose proof (poll_loop_mono _ _ _ _ (Nat.max fuel 256) _ _ E ltac:(lia)) as E'.
  destruct (poll_loop_spec txn (fun a => ev (status a)) status
              (Nat.max fuel 256) polls w Hp ltac:(lia))
    as (k & _ & _ & _ & Ek).
  cbv beta in E'. rewrite Ek in E'. inversion E'; subst a w'; clear E'.
  cbn [trace].
  eexists. split; [ reflexivity | ]. split.
  - apply Forall_app. split; [ apply retry_events_polled | ].
    constructor; [ right; eauto | constructor ].
  - apply in_or_app. right. now left.
Qed.

Lemma _write_page_trace (fuel : nat) (dev : st25dvxxx_t) (pos : Z)
  (data : list Z) (len : Z) (w w' : world H) (check : Z) :
  dev_wf dev ->
  _write_page fuel dev pos data len w = Some (check, w') ->
  exists evs,
    trace w' = trace w ++ evs /\
    Forall (polled_event (write_event dev pos data len)) evs /\
    In (write_event dev pos data len check) evs.
Proof.
  intros Hwf E. rewrite _write_page_poll in E by assumption.
  apply (poll_loop_inv _ (write_event dev pos data len) (fun c => c)) in E;
    [ exact E | apply Hwf ].
Qed.

Lemma _read_trace (fuel : nat) (dev : st25dvxxx_t) (pos len : Z)
  (w w' : world H) (r : Z * list Z) :
  dev_wf dev ->
  _read fuel dev pos len w = Some (r, w') ->
  exists evs,
    trace w' = trace w ++ evs /\
    Forall (polled_event (read_event dev pos len)) evs /\
    In (read_event dev pos len (fst r)) evs.
Proof.
  intros Hwf E. rewrite _read_poll in E by assumption.
  apply (poll_loop_inv _ (read_event dev pos len) fst) in E;
    [ exact E | apply Hwf ].
Qed.

(** A page write and a read always return. *)
Lemma _write_page_returns (dev : st25dvxxx_t) (pos : Z) (data : list Z)
  (len : Z) (w : world H) :
  dev_wf dev ->
  exists check w', _write_page 256 dev pos data len w = Some (check, w').
Proof.
  intros Hwf. rewrite _write_page_poll by assumption.
  apply poll_loop_returns, Hwf.
Qed.

Lemma _read_returns (dev : st25dvxxx_t) (pos len : Z) (w : world H) :
  dev_wf dev ->
  exists r w', _read 256 dev pos len w = Some (r, w').
Proof.
  intros Hwf. rewrite _read_poll by assumption.
  apply poll_loop_returns, Hwf.
Qed.

(** ** One polled transfer *)

(** C2, amended: for every device configured with [max_polls >= 1],
    the poll-retry executor around one bus write ([_write_page]) or one
    bus read ([_read]) returns the first answer that is not NoAck after
    exactly [k + 1] attempts when [k < max_polls] NoAck answers come
    before it (so an error other than NoAck on the first attempt is
    returned at once); it stops and returns NoAck when [max_polls]
    attempts in a row are answered NoAck; and it sleeps 1000
    microseconds between two attempts. *)
Theorem poll_retry_executor (dev : st25dvxxx_t) (pos : Z) (data : list Z)
  (len : Z) (w : world H) :
  dev_wf dev -> 1 <= DEV_MAX_POLLS dev ->
  poll_retry_contract (write_txn dev pos data len)
    (write_event dev pos data len) (fun check => check)
    (fun fuel => _write_page fuel dev pos data len) (DEV_MAX_POLLS dev) w /\
  poll_retry_contract (read_txn dev pos len)
    (read_event dev pos len) fst
    (fun fuel => _read fuel dev pos len) (DEV_MAX_POLLS dev) w.
Proof.
  intros Hwf H1. split.
  - eapply poll_retry_contract_ext;
      [ intros f; apply _write_page_poll, Hwf | ].
    apply poll_loop_contract; [ reflexivity | apply Hwf | exact H1 ].
  - eapply poll_retry_contract_ext; [ intros f; apply _read_poll, Hwf | ].
    apply poll_loop_contract; [ reflexivity | apply Hwf | exact H1 ].
Qed.

(** C9: the poll loop of [_write_page] and of [_read] always issues at
    least one bus transfer whatever [max_polls] is; against a bus that
    keeps answering NoAck a device with [max_polls = 0] makes 256
    attempts (the 8-bit counter is decremented before it is tested and
    wraps), and a device with [max_polls >= 1] makes exactly
    [max_polls]. *)
Theorem poll_counter_wraparound (dev : st25dvxxx_t) (pos : Z) (data : list Z)
  (len : Z) (w : world H) :
  dev_wf dev ->
  poll_attempts_contract (write_txn dev pos data len) (fun check => check)
    (fun fuel => _write_page fuel dev pos data len) (DEV_MAX_POLLS dev) w /\
  poll_attempts_contract (read_txn dev pos len) fst
    (fun fuel => _read fuel dev pos len) (DEV_MAX_POLLS dev) w.
Proof.
  intros Hwf. split.
  - eapply poll_attempts_contract_ext;
      [ intros f; apply _write_page_poll, Hwf | ].
    apply (poll_loop_attempts _ (write_event dev pos data len));
      [ reflexivity | apply Hwf ].
  - eapply poll_attempts_contract_ext; [ intros f; apply _read_poll, Hwf | ].
    apply (poll_loop_attempts _ (read_event dev pos len));
      [ reflexivity | apply Hwf ].
Qed.

(** C3: for every linear offset [pos], when the capacity is greater
    than 2048 bytes both the read path and the page-write path issue
    their transfers with the 16-bit address flag, the device address
    byte [base | ((pos >> 16) & 0xFF)] and the transaction address
    [pos & 0xFFFF]; when the capacity is at most 2048 bytes they use
    the 8-bit mode, [base | ((pos >> 8) & 0xFF)] and [pos & 0xFF]. *)
Theorem address_translation (dev : st25dvxxx_t) (pos : Z) :
  dev_wf dev ->
  (2048 < DEV_EEPROM_SIZE dev ->
   chip_addr dev pos = Z.lor (DEV_I2C_ADDR dev) (Z.land (Z.shiftr pos 16) 0xFF)
   /\ txn_addr dev pos = Z.land pos 0xFFFF
   /\ addr_width_flag dev = I2C_REG16) /\
  (DEV_EEPROM_SIZE dev <= 2048 ->
   chip_addr dev pos = Z.lor (DEV_I2C_ADDR dev) (Z.land (Z.shiftr pos 8) 0xFF)
   /\ txn_addr dev pos = Z.land pos 0xFF
   /\ addr_width_flag dev = 0) /\
  (forall (data : list Z) (len : Z) (w : world H),
      exists check w' evs,
        returns (fun fuel => _write_page fuel dev pos data len) w check w' /\
        trace w' = trace w ++ evs /\
        In (EvI2cWriteRegs (DEV_I2C_BUS dev) (chip_addr dev pos)
              (txn_addr dev pos) data len (addr_width_flag dev) check) evs /\
        Forall (polled_event
                  (EvI2cWriteRegs (DEV_I2C_BUS dev) (chip_addr dev pos)
                     (txn_addr dev pos) data len (addr_width_flag dev)))
               evs) /\
  (forall (len : Z) (w : world H),
      exists r w' evs,
        returns (fun fuel => _read fuel dev pos len) w r w' /\
        trace w' = trace w ++ evs /\
        In (EvI2cReadRegs (DEV_I2C_BUS dev) (chip_addr dev pos)
              (txn_addr dev pos) len (addr_width_flag dev) (fst r)) evs /\
        Forall (polled_event
                  (EvI2cReadRegs (DEV_I2C_BUS dev) (chip_addr dev pos)
                     (txn_addr dev pos) len (addr_width_flag dev)))
               evs).
Proof.
  intros Hwf. unfold chip_addr, txn_addr, addr_width_flag.
  split; [ | split; [ | split ] ].
  - intros Hc. destruct (Z.gtb_spec (DEV_EEPROM_SIZE dev) 2048); [ | lia ].
    repeat split.
  - intros Hc. destruct (Z.gtb_spec (DEV_EEPROM_SIZE dev) 2048); [ lia | ].
    repeat split.
  - intros data len w.
    destruct (_write_page_returns dev pos data len w Hwf) as (check & w' & E).
    destruct (_write_page_trace _ _ _ _ _ _ _ _ Hwf E) as (evs & Ht & Hall & Hin).
    exists check, w', evs. split; [ now exists 256%nat | ].
    split; [ exact Ht | ]. split; [ exact Hin | exact Hall ].
  - intros len w.
    destruct (_read_returns dev pos len w Hwf) as (r & w' & E).
    destruct (_read_trace _ _ _ _ _ _ _ Hwf E) as (evs & Ht & Hall & Hin).
    exists r, w', evs. split; [ now exists 256%nat | ].
    split; [ exact Ht | ]. split; [ exact Hin | exact Hall ].
Qed.

(** ** The chunk loops, one iteration at a time *)

Lemma _write_loop_done (dev : st25dvxxx_t) (check pos : Z) (cdata : list Z)
  (w : world H) (x : Z) (w' : world H) :
  returns (fun f => _write_loop f dev check pos cdata 0) w x w' <->
  x = check /\ w' = w.
Proof.
  unfold returns. split.
  - intros [[ | f ] E]; cbn in E; now inversion E.
  - intros [-> ->]. now exists O.
Qed.

Lemma _write_loop_step (dev : st25dvxxx_t) (check pos : Z) (cdata : list Z)
  (len : Z) (w : world H) (x : Z) (w' : world H) :
  len <> 0 ->
  let clen :=
    MIN len (uint32 (DEV_PAGE_SIZE dev - MOD_POW2 pos (DEV_PAGE_SIZE dev))) in
  returns (fun f => _write_loop f dev check pos cdata len) w x w' <->
  exists a w1,
    returns (fun f => _write_page f dev pos (firstn (Z.to_nat clen) cdata) clen)
            w a w1 /\
    if a =? 0
    then returns (fun f => _write_loop f dev a (uint32 (pos + clen))
                             (skipn (Z.to_nat clen) cdata)
                             (size_t (len - clen))) w1 x w'
    else x = a /\ w' = w1.
Proof.
  intros Hlen clen. apply Z.eqb_neq in Hlen. unfold returns. split.
  - intros [[ | f ] E]; cbn [_write_loop] in E; rewrite Hlen in E;
      [ discriminate | ].
    cbv zeta in E. fold clen in E. apply bind_some in E.
    destruct E as (a & w1 & E1 & E2). exists a, w1.
    split; [ now exists (S f) | ].
    destruct (a =? 0); [ now exists f | now inversion E2 ].
  - intros (a & w1 & [f1 E1] & Hk). destruct (a =? 0) eqn:Ha.
    + destruct Hk as [f2 E2]. exists (S (Nat.max f1 f2)).
      cbn [_write_loop]. rewrite Hlen. cbv zeta. fold clen.
      rewrite (bind_eq _ _ _ _ _
                 (_write_page_mono dev _ _ _ _ (S (Nat.max f1 f2)) _ _ E1
                    ltac:(lia))).
      rewrite Ha.
      exact (_write_loop_mono dev _ _ _ _ _ (Nat.max f1 f2) _ _ E2 ltac:(lia)).
    + destruct Hk as [-> ->]. exists (S f1).
      cbn [_write_loop]. rewrite Hlen. cbv zeta. fold clen.
      rewrite (bind_eq _ _ _ _ _
                 (_write_page_mono dev _ _ _ _ (S f1) _ _ E1 ltac:(lia))).
      now rewrite Ha.
Qed.

Lemma write_chunks_step (dev : st25dvxxx_t) (c : chunk) (rest : list chunk)
  (w : world H) (x : Z) (w' : world H) :
  returns (write_chunks dev (c :: rest)) w x w' <->
  exists a w1,
    returns (fun f => _write_page f dev (c_pos c) (c_data c) (c_len c)) w a w1 /\
    if a =? 0 then returns (write_chunks dev rest) w1 x w'
    else x = a /\ w' = w1.
Proof.
  unfold returns. split.
  - intros [f E]. cbn [write_chunks] in E. apply bind_some in E.
    destruct E as (a & w1 & E1 & E2). exists a, w1. split; [ now exists f | ].
    destruct (a =? 0); [ now exists f | now inversion E2 ].
  - intros (a & w1 & [f1 E1] & Hk). destruct (a =? 0) eqn:Ha.
    + destruct Hk as [f2 E2]. exists (Nat.max f1 f2). cbn [write_chunks].
      rewrite (bind_eq _ _ _ _ _
                 (_write_page_mono dev _ _ _ _ (Nat.max f1 f2) _ _ E1
                    ltac:(lia))).
      rewrite Ha.
      exact (write_chunks_mono dev _ _ (Nat.max f1 f2) _ _ E2 ltac:(lia)).
    + destruct Hk as [-> ->]. exists f1. cbn [write_chunks].
      rewrite (bind_eq _ _ _ _ _ E1). now rewrite Ha.
Qed.

Lemma _set_loop_done (dev : st25dvxxx_t) (check : cint) (pos : Z)
  (buf : list Z) (w : world H) (x : cint) (w' : world H) :
  returns (fun f => _set_loop f dev check pos buf 0) w x w' <->
  x = check /\ w' = w.
Proof.
  unfold returns. split.
  - intros [[ | f ] E]; cbn in E; now inversion E.
  - intros [-> ->]. now exists O.
Qed.

Lemma _set_loop_step (dev : st25dvxxx_t) (check : cint) (pos : Z)
  (buf : list Z) (len : Z) (w : world H) (x : cint) (w' : world H) :
  len <> 0 ->
  let clen := MIN ST25DVXXX_SET_BUF_SIZE len in
  returns (fun f => _set_loop f dev check pos buf len) w x w' <->
  exists a w1,
    returns (fun f => _write f dev pos buf clen) w a w1 /\
    if a =? 0
    then returns (fun f => _set_loop f dev (Int a) (uint32 (pos + clen)) buf
                             (size_t (len - clen))) w1 x w'
    else x = Int a /\ w' = w1.
Proof.
  intros Hlen clen. apply Z.eqb_neq in Hlen. unfold returns. split.
  - intros [[ | f ] E]; cbn [_set_loop] in E; rewrite Hlen in E;
      [ discriminate | ].
    cbv zeta in E. fold clen in E. apply bind_some in E.
    destruct E as (a & w1 & E1 & E2). exists a, w1.
    split; [ now exists (S f) | ].
    destruct (a =? 0); [ now exists f | now inversion E2 ].
  - intros (a & w1 & [f1 E1] & Hk). destruct (a =? 0) eqn:Ha.
    + destruct Hk as [f2 E2]. exists (S (Nat.max f1 f2)).
      cbn [_set_loop]. rewrite Hlen. cbv zeta. fold clen.
      rewrite (bind_eq _ _ _ _ _
                 (_write_mono dev _ _ _ _ (S (Nat.max f1 f2)) _ _ E1
                    ltac:(lia))).
      rewrite Ha.
      exact (_set_loop_mono dev _ _ _ _ _ (Nat.max f1 f2) _ _ E2 ltac:(lia)).
    + destruct Hk as [-> ->]. exists (S f1).
      cbn [_set_loop]. rewrite Hlen. cbv zeta. fold clen.
      rewrite (bind_eq _ _ _ _ _
                 (_write_mono dev _ _ _ _ (S f1) _ _ E1 ltac:(lia))).
      now rewrite Ha.
Qed.

Lemma write_fills_step (dev : st25dvxxx_t) (buf : list Z) (check : cint)
  (pos clen : Z) (rest : list (Z * Z)) (w : world H) (x : cint)
  (w' : world H) :
  returns (write_fills dev buf check ((pos, clen) :: rest)) w x w' <->
  exists a w1,
    returns (fun f => _write f dev pos buf clen) w a w1 /\
    if a =? 0 then returns (write_fills dev buf (Int a) rest) w1 x w'
    else x = Int a /\ w' = w1.
Proof.
  unfold returns. split.
  - intros [f E]. cbn [write_fills] in E. apply bind_some in E.
    destruct E as (a & w1 & E1 & E2). exists a, w1. split; [ now exists f | ].
    destruct (a =? 0); [ now exists f | now inversion E2 ].
  - intros (a & w1 & [f1 E1] & Hk). destruct (a =? 0) eqn:Ha.
    + destruct Hk as [f2 E2]. exists (Nat.max f1 f2). cbn [write_fills].
      rewrite (bind_eq _ _ _ _ _
                 (_write_mono dev _ _ _ _ (Nat.max f1 f2) _ _ E1 ltac:(lia))).
      rewrite Ha.
      exact (write_fills_mono dev _ _ _ _ (Nat.max f1 f2) _ _ E2 ltac:(lia)).
    + destruct Hk as [-> ->]. exists f1. cbn [write_fills].
      rewrite (bind_eq _ _ _ _ _ E1). now rewrite Ha.
Qed.

(** ** The page-chunking writer against its chunk schedule *)

Lemma write_chunks_nil (dev : st25dvxxx_t) (w : world H) (x : Z)
  (w' : world H) :
  returns (write_chunks dev []) w x w' <-> x = 0 /\ w' = w.
Proof.
  unfold returns. cbn. split.
  - intros [_ E]. now inversion E.
  - intros [-> ->]. now exists O.
Qed.

Lemma page_chunks_nil (n : nat) (ps pos : Z) (cdata : list Z) :
  page_chunks n ps pos cdata 0 = [].
Proof. now destruct n. Qed.

Lemma _write_loop_chunks (dev : st25dvxxx_t) (n : nat) :
  dev_wf dev -> page_pow2 dev ->
  forall (pos : Z) (cdata : list Z) (len : Z) (w : world H) (x : Z)
         (w' : world H),
    is_uint32 pos -> is_uint32 len -> (Z.to_nat len <= n)%nat ->
    returns (fun f => _write_loop f dev 0 pos cdata len) w x w' <->
    returns (write_chunks dev
               (page_chunks n (DEV_PAGE_SIZE dev) pos cdata len)) w x w'.
Proof.
  intros Hwf (k & Hk & Hps).
  assert (Hpos_ps : 0 < DEV_PAGE_SIZE dev)
    by (rewrite Hps; apply Z.pow_pos_nonneg; lia).
  induction n as [ | n IH ]; intros pos cdata len w x w' Hpos Hlen Hn.
  - assert (len = 0) as -> by (unfold is_uint32 in Hlen; lia).
    now rewrite _write_loop_done, write_chunks_nil.
  - destruct (Z.eq_dec len 0) as [-> | Hnz].
    + now rewrite _write_loop_done, page_chunks_nil, write_chunks_nil.
    + unfold is_uint32 in Hlen.
      rewrite _write_loop_step by assumption. cbv zeta.
      rewrite (page_clen_spec _ pos len k Hk Hps Hpos).
      cbn [page_chunks]. destruct (Z.leb_spec len 0) as [ | _ ]; [ lia | ].
      cbv zeta. rewrite write_chunks_step. cbn [c_pos c_data c_len].
      pose proof (page_clen_bounds (DEV_PAGE_SIZE dev) pos len
                    Hpos_ps ltac:(lia)) as Hc.
      set (clen := Z.min len (DEV_PAGE_SIZE dev - pos mod DEV_PAGE_SIZE dev))
        in *.
      assert (Hrest : is_uint32 (len - clen)) by (unfold is_uint32; lia).
      rewrite (size_t_small _ Hrest).
      split; intros (a & w1 & E1 & Hrun); exists a, w1; (split; [ exact E1 | ]);
        (destruct (Z.eqb_spec a 0) as [-> | _ ]; [ | exact Hrun ]).
      * apply IH; [ apply uint32_range | exact Hrest | lia | exact Hrun ].
      * apply IH in Hrun; [ exact Hrun | apply uint32_range | exact Hrest | lia ].
Qed.

(** [_write] runs exactly the specified chunks, in order, until one
    fails. *)
Lemma _write_chunks (dev : st25dvxxx_t) (pos : Z) (data : list Z) (len : Z)
  (w : world H) (x : Z) (w' : world H) :
  dev_wf dev -> page_pow2 dev -> is_uint32 pos -> is_uint32 len ->
  returns (fun f => _write f dev pos data len) w x w' <->
  returns (write_chunks dev
             (page_chunks (Z.to_nat len) (DEV_PAGE_SIZE dev) pos data len))
          w x w'.
Proof.
  intros Hwf Hp2 Hpos Hlen. unfold _write.
  now apply _write_loop_chunks.
Qed.

(** The specified chunks are not empty and end inside their page. *)
Lemma page_chunks_fit (ps : Z) (n : nat) :
  0 < ps ->
  forall pos cdata len,
    Forall (fun c => 0 < c_len c <= ps - c_pos c mod ps)
           (page_chunks n ps pos cdata len).
Proof.
  intros Hps. induction n as [ | n IH ]; intros pos cdata len; cbn.
  - constructor.
  - destruct (Z.leb_spec len 0); constructor; [ | apply IH ].
    cbn. apply page_clen_bounds; lia.
Qed.

(** The chunk lengths add up to the length of the write. *)
Lemma page_chunks_total (ps : Z) (n : nat) :
  0 < ps ->
  forall pos cdata len,
    0 <= len -> (Z.to_nat len <= n)%nat ->
    fold_right Z.add 0 (map c_len (page_chunks n ps pos cdata len)) = len.
Proof.
  intros Hps. induction n as [ | n IH ]; intros pos cdata len Hlen Hn; cbn.
  - lia.
  - destruct (Z.leb_spec len 0); cbn; [ lia | ].
    pose proof (page_clen_bounds ps pos len Hps ltac:(lia)).
    rewrite IH; lia.
Qed.

(** Each chunk starts where the one before it ended. *)
Lemma page_chunks_consecutive (ps : Z) (n : nat) :
  forall pos cdata len i c c',
    nth_error (page_chunks n ps pos cdata len) i = Some c ->
    nth_error (page_chunks n ps pos cdata len) (S i) = Some c' ->
    c_pos c' = uint32 (c_pos c + c_len c).
Proof.
  induction n as [ | n IH ]; intros pos cdata len i c c' Hc Hc'; cbn in *.
  - now destruct i.
  - destruct (len <=? 0); [ now destruct i | ].
    destruct i as [ | i ].
    + cbn in Hc. inversion Hc; subst c; clear Hc. cbn [c_pos c_len].
      cbn [nth_error] in Hc'. destruct n as [ | n ]; [ discriminate | ].
      cbn in Hc'. destruct (_ <=? 0); [ discriminate | ].
      now inversion Hc'.
    + cbn [nth_error] in Hc, Hc'. eapply IH; eassumption.
Qed.

Lemma write_chunks_returns (dev : st25dvxxx_t) (chunks : list chunk) :
  dev_wf dev ->
  forall w : world H, exists x w', returns (write_chunks dev chunks) w x w'.
Proof.
  intros Hwf. induction chunks as [ | c rest IH ]; intros w.
  - exists 0, w. now apply write_chunks_nil.
  - destruct (_write_page_returns dev (c_pos c) (c_data c) (c_len c) w Hwf)
      as (a & w1 & E1).
    destruct (Z.eqb_spec a 0) as [Ha | Ha].
    + destruct (IH w1) as (x & w' & Hx). exists x, w'.
      apply write_chunks_step. exists a, w1. split; [ now exists 256%nat | ].
      subst a. exact Hx.
    + exists a, w1. apply write_chunks_step. exists a, w1.
      split; [ now exists 256%nat | ].
      destruct (Z.eqb_spec a 0); [ contradiction | now split ].
Qed.

(** The transfers of a chunk that fits its page stay in that page. *)
Lemma polled_write_in_page (dev : st25dvxxx_t) (k : Z) (c : chunk)
  (evs : list event) :
  0 <= k < 8 -> DEV_PAGE_SIZE dev = 2 ^ k ->
  0 < c_len c <= DEV_PAGE_SIZE dev - c_pos c mod DEV_PAGE_SIZE dev ->
  Forall (polled_event (write_event dev (c_pos c) (c_data c) (c_len c))) evs ->
  Forall (in_one_page (DEV_PAGE_SIZE dev)) evs.
Proof.
  intros Hk Hps Hc Hall. eapply Forall_impl; [ | exact Hall ].
  intros e [-> | [st ->]]; cbn; [ exact I | ].
  split; [ lia | ]. rewrite Hps in *.
  apply same_page.
  - apply Z.pow_pos_nonneg; lia.
  - apply txn_addr_nonneg.
  - rewrite txn_addr_mod by assumption. exact Hc.
Qed.

Lemma write_chunks_trace (dev : st25dvxxx_t) (chunks : list chunk) :
  dev_wf dev -> page_pow2 dev ->
  Forall (fun c => 0 < c_len c
                   <= DEV_PAGE_SIZE dev - c_pos c mod DEV_PAGE_SIZE dev)
         chunks ->
  forall (w : world H) (x : Z) (w' : world H),
    returns (write_chunks dev chunks) w x w' ->
    exists evs,
      trace w' = trace w ++ evs /\
      Forall (in_one_page (DEV_PAGE_SIZE dev)) evs.
Proof.
  intros Hwf (k & Hk & Hps).
  induction chunks as [ | c rest IH ]; intros Hfit w x w' Hrun.
  - apply write_chunks_nil in Hrun. destruct Hrun as [_ ->].
    exists []. split; [ now rewrite app_nil_r | constructor ].
  - inversion Hfit as [ | ? ? Hc Hrest ]; subst.
    apply write_chunks_step in Hrun. destruct Hrun as (a & w1 & [f E1] & Hk').
    destruct (_write_page_trace _ _ _ _ _ _ _ _ Hwf E1) as (evs1 & Ht1 & Hall1 & _).
    pose proof (polled_write_in_page dev k c evs1 Hk Hps Hc Hall1) as Hin1.
    destruct (a =? 0).
    + destruct (IH Hrest _ _ _ Hk') as (evs2 & Ht2 & Hin2).
      exists (evs1 ++ evs2). split.
      * now rewrite Ht2, Ht1, app_assoc.
      * apply Forall_app. now split.
    + destruct Hk' as [_ ->]. now exists evs1.
Qed.

(** ** Nothing is ever removed from the trace *)

Lemma call_extends {A : Type} (f : H -> A * H) (ev : A -> event)
  (w w' : world H) (a : A) :
  call f ev w = Some (a, w') -> extends w w'.
Proof.
  rewrite call_eq. intros E. inversion E; subst. now exists [ev (fst (f (hw w)))].
Qed.

Lemma poll_loop_extends {A : Type} (f : H -> A * H) (ev : A -> event)
  (status : A -> Z) (fuel : nat) :
  forall polls w a w',
    poll_loop fuel (call f ev) status polls w = Some (a, w') -> extends w w'.
Proof.
  induction fuel as [ | fuel IH ]; intros polls w a w' E; [ discriminate | ].
  cbn [poll_loop] in E. apply bind_some in E.
  destruct E as (a1 & w1 & E1 & E2). apply call_extends in E1.
  destruct (status a1 =? - ENXIO).
  - cbv zeta in E2. destruct (uint8 (polls - 1) =? 0).
    + inversion E2; subst. exact E1.
    + apply bind_some in E2. destruct E2 as (u & w2 & E2 & E3).
      unfold xtimer_usleep in E2. apply call_extends in E2. apply IH in E3.
      eauto using extends_trans.
  - inversion E2; subst. exact E1.
Qed.

Lemma _write_page_extends (fuel : nat) (dev : st25dvxxx_t) (pos : Z)
  (data : list Z) (len : Z) (w w' : world H) (a : Z) :
  _write_page fuel dev pos data len w = Some (a, w') -> extends w w'.
Proof.
  unfold _write_page.
  destruct (DEV_EEPROM_SIZE dev >? 2048); apply poll_loop_extends.
Qed.

Lemma _write_loop_extends (dev : st25dvxxx_t) (fuel : nat) :
  forall check pos cdata len w a w',
    _write_loop fuel dev check pos cdata len w = Some (a, w') -> extends w w'.
Proof.
  induction fuel as [ | fuel IH ]; intros check pos cdata len w a w' E;
    cbn [_write_loop] in E; destruct (len =? 0);
    try discriminate; try (inversion E; subst; apply extends_refl).
  cbv zeta in E. apply bind_some in E. destruct E as (a1 & w1 & E1 & E2).
  apply _write_page_extends in E1. destruct (a1 =? 0).
  - apply IH in E2. eauto using extends_trans.
  - inversion E2; subst. exact E1.
Qed.

Lemma _write_extends (dev : st25dvxxx_t) (pos : Z) (data : list Z) (len : Z)
  (w w' : world H) (a : Z) :
  returns (fun f => _write f dev pos data len) w a w' -> extends w w'.
Proof. intros [f E]. eapply _write_loop_extends, E. Qed.

Lemma write_chunks_extends (dev : st25dvxxx_t) (chunks : list chunk) :
  forall w a w', returns (write_chunks dev chunks) w a w' -> extends w w'.
Proof.
  induction chunks as [ | c rest IH ]; intros w a w' Hrun.
  - apply write_chunks_nil in Hrun. destruct Hrun as [_ ->]. apply extends_refl.
  - apply write_chunks_step in Hrun. destruct Hrun as (a1 & w1 & [f E1] & Hk).
    apply _write_page_extends in E1. destruct (a1 =? 0).
    + apply IH in Hk. eauto using extends_trans.
    + destruct Hk as [_ ->]. exact E1.
Qed.

Lemma write_fills_extends (dev : st25dvxxx_t) (buf : list Z)
  (chunks : list (Z * Z)) :
  forall check w a w',
    returns (write_fills dev buf check chunks) w a w' -> extends w w'.
Proof.
  induction chunks as [ | [p c] rest IH ]; intros check w a w' Hrun.
  - destruct Hrun as [f E]. inversion E; subst. apply extends_refl.
  - apply write_fills_step in Hrun. destruct Hrun as (a1 & w1 & E1 & Hk).
    apply _write_extends in E1. destruct (a1 =? 0).
    + apply IH in Hk. eauto using extends_trans.
    + destruct Hk as [_ ->]. exact E1.
Qed.

(** ** Stopping at the first failure *)

(** When the chunks [done] have all been written, the run goes on with
    the chunks that follow. *)
Lemma write_chunks_app (dev : st25dvxxx_t) (done todo : list chunk)
  (w1 : world H) (x : Z) (w' : world H) :
  forall w,
    returns (write_chunks dev done) w 0 w1 ->
    returns (write_chunks dev todo) w1 x w' ->
    returns (write_chunks dev (done ++ todo)) w x w'.
Proof.
  induction done as [ | c rest IH ]; intros w Hdone Htodo.
  - apply write_chunks_nil in Hdone. destruct Hdone as [_ ->]. exact Htodo.
  - cbn [app]. apply write_chunks_step in Hdone.
    destruct Hdone as (a & w2 & E1 & Hk).
    apply write_chunks_step. exists a, w2. split; [ exact E1 | ].
    destruct (Z.eqb_spec a 0) as [Ha | Ha].
    + now apply IH.
    + destruct Hk as [Hk _]. congruence.
Qed.

Lemma write_fills_nil (dev : st25dvxxx_t) (buf : list Z) (check : cint)
  (w : world H) (x : cint) (w' : world H) :
  returns (write_fills dev buf check []) w x w' <-> x = check /\ w' = w.
Proof.
  unfold returns. cbn. split.
  - intros [_ E]. now inversion E.
  - intros [-> ->]. now exists O.
Qed.

Lemma write_fills_app (dev : st25dvxxx_t) (buf : list Z)
  (done : list (Z * Z)) (c : Z * Z) (todo : list (Z * Z))
  (w1 : world H) (x : cint) (w' : world H) (check' : cint) :
  forall check w,
    returns (write_fills dev buf (Int 0) done) w (Int 0) w1 ->
    returns (write_fills dev buf check' (c :: todo)) w1 x w' ->
    returns (write_fills dev buf check (done ++ c :: todo)) w x w'.
Proof.
  induction done as [ | [p cl] rest IH ]; intros check w Hdone Htodo.
  - apply write_fills_nil in Hdone. destruct Hdone as [_ ->].
    destruct c as [p cl]. apply write_fills_step.
    now apply write_fills_step in Htodo.
  - cbn [app]. apply write_fills_step in Hdone.
    destruct Hdone as (a & w2 & E1 & Hk).
    apply write_fills_step. exists a, w2. split; [ exact E1 | ].
    destruct (Z.eqb_spec a 0) as [Ha | Ha].
    + subst a. now apply IH.
    + destruct Hk as [Hk _]. congruence.
Qed.

(** C1: for every device whose page size is a power of two and for
    every offset [pos] and length [len], [_write] splits the write
    into consecutive chunks of length
    min(remaining length, page_size - (pos mod page_size)), each
    written by one polled page write, so that no bus write transfer
    covers a range [[txn_addr, txn_addr + chunk_len)] that crosses a
    page boundary, also when [pos] is not page-aligned; with
    capacity 256 and page size 8, writing 6 bytes at offset 5 issues
    two transfers of 3 bytes, at 5 and at 8. *)
Theorem page_chunking_writer :
  (forall (dev : st25dvxxx_t) (pos : Z) (data : list Z) (len : Z)
          (w : world H),
      dev_wf dev -> page_pow2 dev -> is_uint32 pos -> is_uint32 len ->
      let chunks :=
        page_chunks (Z.to_nat len) (DEV_PAGE_SIZE dev) pos data len in
      (forall x w',
          returns (fun f => _write f dev pos data len) w x w' <->
          returns (write_chunks dev chunks) w x w') /\
      fold_right Z.add 0 (map c_len chunks) = len /\
      (forall i c c',
          nth_error chunks i = Some c -> nth_error chunks (S i) = Some c' ->
          c_pos c' = uint32 (c_pos c + c_len c)) /\
      exists x w' evs,
        returns (fun f => _write f dev pos data len) w x w' /\
        trace w' = trace w ++ evs /\
        Forall (in_one_page (DEV_PAGE_SIZE dev)) evs) /\
  page_chunks 6 8 5 [1; 2; 3; 4; 5; 6] 6 =
    [ {| c_pos := 5; c_data := [1; 2; 3]; c_len := 3 |};
      {| c_pos := 8; c_data := [4; 5; 6]; c_len := 3 |} ] /\
  st25dvxxx_write 256 (at24c02 6) 5 [1; 2; 3; 4; 5; 6] 6 (script_world []) =
    Some (ST25DVXXX_OK,
          {| hw := [];
             trace := [ EvI2cAcquire 0;
                        EvI2cWriteRegs 0 80 5 [1; 2; 3] 3 0 0;
                        EvI2cWriteRegs 0 80 8 [4; 5; 6] 3 0 0;
                        EvI2cRelease 0 ] |}).
Proof.
  split; [ | split; reflexivity ].
  intros dev pos data len w Hwf Hp2 Hpos Hlen chunks.
  assert (Hps : 0 < DEV_PAGE_SIZE dev).
  { destruct Hp2 as (k & Hk & ->). apply Z.pow_pos_nonneg; lia. }
  split; [ | split; [ | split ] ].
  - intros x w'. now apply _write_chunks.
  - apply page_chunks_total; [ exact Hps | apply Hlen | lia ].
  - apply page_chunks_consecutive.
  - destruct (write_chunks_returns dev chunks Hwf w) as (x & w' & Hrun).
    destruct (write_chunks_trace dev chunks Hwf Hp2
                (page_chunks_fit _ _ Hps _ _ _) w x w' Hrun)
      as (evs & Ht & Hin).
    exists x, w', evs. split; [ now apply _write_chunks | now split ].
Qed.

(** ** The fill writer against its chunk schedule *)

Lemma fill_chunks_nil (n : nat) (pos : Z) : fill_chunks n pos 0 = [].
Proof. now destruct n. Qed.

Lemma _set_loop_fills (dev : st25dvxxx_t) (buf : list Z) (n : nat) :
  forall (check : cint) (pos len : Z) (w : world H) (x : cint)
         (w' : world H),
    is_uint32 len -> (Z.to_nat len <= n)%nat ->
    returns (fun f => _set_loop f dev check pos buf len) w x w' <->
    returns (write_fills dev buf check (fill_chunks n pos len)) w x w'.
Proof.
  induction n as [ | n IH ]; intros check pos len w x w' Hlen Hn.
  - assert (len = 0) as -> by (unfold is_uint32 in Hlen; lia).
    now rewrite _set_loop_done, write_fills_nil.
  - destruct (Z.eq_dec len 0) as [-> | Hnz].
    + now rewrite _set_loop_done, fill_chunks_nil, write_fills_nil.
    + unfold is_uint32 in Hlen.
      rewrite _set_loop_step by assumption. cbv zeta. rewrite MIN_min.
      cbn [fill_chunks]. destruct (Z.leb_spec len 0) as [ | _ ]; [ lia | ].
      cbv zeta. rewrite write_fills_step.
      assert (Hc : 0 < Z.min ST25DVXXX_SET_BUF_SIZE len <= len)
        by (unfold ST25DVXXX_SET_BUF_SIZE; lia).
      set (clen := Z.min ST25DVXXX_SET_BUF_SIZE len) in *.
      assert (Hrest : is_uint32 (len - clen)) by (unfold is_uint32; lia).
      rewrite (size_t_small _ Hrest).
      split; intros (a & w1 & E1 & Hrun); exists a, w1; (split; [ exact E1 | ]);
        (destruct (Z.eqb_spec a 0) as [-> | _ ]; [ | exact Hrun ]).
      * apply IH; [ exact Hrest | lia | exact Hrun ].
      * apply IH in Hrun; [ exact Hrun | exact Hrest | lia ].
Qed.

(** [_set] hands exactly the specified chunks to [_write], in order,
    until one fails. *)
Lemma _set_fills (dev : st25dvxxx_t) (pos val len : Z) (w : world H)
  (x : cint) (w' : world H) :
  is_uint32 len ->
  returns (fun f => _set f dev pos val len) w x w' <->
  returns (write_fills dev (repeat val (Z.to_nat ST25DVXXX_SET_BUF_SIZE))
             Indeterminate (fill_chunks (Z.to_nat len) pos len)) w x w'.
Proof. intros Hlen. unfold _set. now apply _set_loop_fills. Qed.

(** C7: in a multi-chunk write ([_write]) or fill ([_set]), when the
    chunks before a chunk have all succeeded and that chunk fails with
    [e], the operation returns [e] itself from the world that chunk
    left: no further chunk is transferred and what the earlier chunks
    wrote stays written.  After a chunk that succeeds the operation
    goes on with the offset, buffer and remaining length advanced by
    the chunk length, until nothing remains. *)
Theorem multi_chunk_abort (dev : st25dvxxx_t) (pos : Z) (data : list Z)
  (val len : Z) (w : world H) :
  dev_wf dev -> page_pow2 dev -> is_uint32 pos -> is_uint32 len ->
  let chunks := page_chunks (Z.to_nat len) (DEV_PAGE_SIZE dev) pos data len in
  let scratch := repeat val (Z.to_nat ST25DVXXX_SET_BUF_SIZE) in
  let fills := fill_chunks (Z.to_nat len) pos len in
  (forall done c todo w1 e w2,
      chunks = done ++ c :: todo ->
      returns (write_chunks dev done) w 0 w1 ->
      returns (fun f => _write_page f dev (c_pos c) (c_data c) (c_len c))
              w1 e w2 ->
      e <> 0 ->
      returns (fun f => _write f dev pos data len) w e w2 /\
      extends w w1 /\ extends w1 w2) /\
  (forall w', returns (write_chunks dev chunks) w 0 w' ->
              returns (fun f => _write f dev pos data len) w 0 w') /\
  (forall done p cl todo w1 e w2,
      fills = done ++ (p, cl) :: todo ->
      returns (write_fills dev scratch (Int 0) done) w (Int 0) w1 ->
      returns (fun f => _write f dev p scratch cl) w1 e w2 ->
      e <> 0 ->
      returns (fun f => _set f dev pos val len) w (Int e) w2 /\
      extends w w1 /\ extends w1 w2) /\
  (forall x w', returns (write_fills dev scratch Indeterminate fills) w x w' ->
                returns (fun f => _set f dev pos val len) w x w').
Proof.
  intros Hwf Hp2 Hpos Hlen chunks scratch fills.
  split; [ | split; [ | split ] ].
  - intros done c todo w1 e w2 Hsplit Hdone Hc He.
    split; [ | split ].
    + apply _write_chunks; try assumption. fold chunks. rewrite Hsplit.
      eapply write_chunks_app; [ exact Hdone | ].
      apply write_chunks_step. exists e, w2. split; [ exact Hc | ].
      destruct (Z.eqb_spec e 0); [ contradiction | now split ].
    + eapply write_chunks_extends, Hdone.
    + destruct Hc as [f E]. eapply _write_page_extends, E.
  - intros w' Hrun. now apply _write_chunks.
  - intros done p cl todo w1 e w2 Hsplit Hdone Hc He.
    split; [ | split ].
    + apply _set_fills; try assumption. fold fills. rewrite Hsplit.
      eapply (write_fills_app _ _ _ _ _ _ _ _ Indeterminate);
        [ exact Hdone | ].
      apply write_fills_step. exists e, w2. split; [ exact Hc | ].
      destruct (Z.eqb_spec e 0); [ contradiction | now split ].
    + eapply write_fills_extends, Hdone.
    + eapply _write_extends, Hc.
  - intros x w' Hrun. now apply _set_fills.
Qed.

Lemma fill_chunks_total (n : nat) :
  forall pos len,
    0 <= len -> (Z.to_nat len <= n)%nat ->
    fold_right Z.add 0 (map snd (fill_chunks n pos len)) = len.
Proof.
  induction n as [ | n IH ]; intros pos len Hlen Hn; cbn.
  - lia.
  - destruct (Z.leb_spec len 0); cbn; [ lia | ].
    unfold ST25DVXXX_SET_BUF_SIZE in *. rewrite IH; lia.
Qed.

Lemma fill_chunks_consecutive (n : nat) :
  forall pos len i c c',
    nth_error (fill_chunks n pos len) i = Some c ->
    nth_error (fill_chunks n pos len) (S i) = Some c' ->
    fst c' = uint32 (fst c + snd c).
Proof.
  induction n as [ | n IH ]; intros pos len i c c' Hc Hc'; cbn in *.
  - now destruct i.
  - destruct (len <=? 0); [ now destruct i | ].
    destruct i as [ | i ].
    + cbn in Hc. inversion Hc; subst c; clear Hc. cbn [fst snd].
      cbn [nth_error] in Hc'. destruct n as [ | n ]; [ discriminate | ].
      cbn in Hc'. destruct (_ <=? 0); [ discriminate | ].
      now inversion Hc'.
    + cbn [nth_error] in Hc, Hc'. eapply IH; eassumption.
Qed.

Lemma fill_chunks_sizes (n : nat) :
  forall pos len,
    is_uint32 pos ->
    Forall (fun c => is_uint32 (fst c) /\
                     0 < snd c <= ST25DVXXX_SET_BUF_SIZE)
           (fill_chunks n pos len).
Proof.
  induction n as [ | n IH ]; intros pos len Hpos; cbn.
  - constructor.
  - destruct (Z.leb_spec len 0); constructor.
    + cbn. split; [ exact Hpos | unfold ST25DVXXX_SET_BUF_SIZE; lia ].
    + apply IH, uint32_range.
Qed.

(** ** The writers return *)

Lemma _write_returns (dev : st25dvxxx_t) (pos : Z) (data : list Z) (len : Z)
  (w : world H) :
  dev_wf dev -> page_pow2 dev -> is_uint32 pos -> is_uint32 len ->
  exists x w', returns (fun f => _write f dev pos data len) w x w'.
Proof.
  intros Hwf Hp2 Hpos Hlen.
  destruct (write_chunks_returns dev
              (page_chunks (Z.to_nat len) (DEV_PAGE_SIZE dev) pos data len)
              Hwf w) as (x & w' & Hrun).
  exists x, w'. now apply _write_chunks.
Qed.

Lemma write_fills_returns (dev : st25dvxxx_t) (buf : list Z)
  (chunks : list (Z * Z)) :
  dev_wf dev -> page_pow2 dev ->
  Forall (fun c => is_uint32 (fst c) /\ 0 < snd c <= ST25DVXXX_SET_BUF_SIZE)
         chunks ->
  forall (check : cint) (w : world H),
    exists x w', returns (write_fills dev buf check chunks) w x w'.
Proof.
  intros Hwf Hp2. induction chunks as [ | [p cl] rest IH ]; intros Hall check w.
  - exists check, w. now apply write_fills_nil.
  - inversion Hall as [ | ? ? [Hp Hcl] Hrest ]; subst. cbn [fst snd] in *.
    assert (Hcl' : is_uint32 cl)
      by (unfold is_uint32, ST25DVXXX_SET_BUF_SIZE in *; lia).
    destruct (_write_returns dev p buf cl w Hwf Hp2 Hp Hcl') as (a & w1 & E1).
    destruct (Z.eqb_spec a 0) as [Ha | Ha].
    + destruct (IH Hrest (Int a) w1) as (x & w' & Hx). exists x, w'.
      apply write_fills_step. exists a, w1. split; [ exact E1 | ].
      destruct (Z.eqb_spec a 0); [ exact Hx | contradiction ].
    + exists (Int a), w1. apply write_fills_step. exists a, w1.
      split; [ exact E1 | ].
      destruct (Z.eqb_spec a 0); [ contradiction | now split ].
Qed.

Lemma _set_returns (dev : st25dvxxx_t) (pos val len : Z) (w : world H) :
  dev_wf dev -> page_pow2 dev -> is_uint32 pos -> is_uint32 len ->
  exists x w', returns (fun f => _set f dev pos val len) w x w'.
Proof.
  intros Hwf Hp2 Hpos Hlen.
  destruct (write_fills_returns dev
              (repeat val (Z.to_nat ST25DVXXX_SET_BUF_SIZE))
              (fill_chunks (Z.to_nat len) pos len) Hwf Hp2
              (fill_chunks_sizes _ _ _ Hpos) Indeterminate w)
    as (x & w' & Hrun).
  exists x, w'. now apply _set_fills.
Qed.

(** ** The result of the fill helper *)

Lemma _set_loop_assigned (dev : st25dvxxx_t) (buf : list Z) (fuel : nat) :
  forall (c : Z) (pos len : Z) (w : world H) (x : cint) (w' : world H),
    _set_loop fuel dev (Int c) pos buf len w = Some (x, w') ->
    exists z, x = Int z.
Proof.
  induction fuel as [ | fuel IH ]; intros c pos len w x w' E;
    cbn [_set_loop] in E; destruct (len =? 0);
    try discriminate; try (inversion E; subst; now exists c).
  cbv zeta in E. apply bind_some in E. destruct E as (a & w1 & _ & E).
  destruct (a =? 0); [ eapply IH, E | inversion E; now exists a ].
Qed.

Lemma _set_assigned (dev : st25dvxxx_t) (fuel : nat) (pos val len : Z)
  (w : world H) (x : cint) (w' : world H) :
  len <> 0 ->
  _set fuel dev pos val len w = Some (x, w') ->
  exists z, x = Int z.
Proof.
  intros Hlen E. unfold _set in E. apply Z.eqb_neq in Hlen.
  destruct fuel as [ | fuel ]; cbn [_set_loop] in E; rewrite Hlen in E;
    [ discriminate | ].
  cbv zeta in E. apply bind_some in E. destruct E as (a & w1 & _ & E).
  destruct (a =? 0); [ eapply _set_loop_assigned, E | inversion E; now exists a ].
Qed.

(** ** The public operations *)

Lemma in_range_sum (dev : st25dvxxx_t) (pos len : Z) :
  is_uint32 pos -> is_uint32 len -> pos + len < 2 ^ 32 ->
  (uint32 (pos + len) >? DEV_EEPROM_SIZE dev) =
  (pos + len >? DEV_EEPROM_SIZE dev).
Proof.
  intros Hpos Hlen Hsum. rewrite uint32_small; [ reflexivity | ].
  unfold is_uint32 in *. lia.
Qed.

(** What a fill does once it has passed the range check. *)
Lemma st25dvxxx_set_in_range (fuel : nat) (dev : st25dvxxx_t)
  (pos val len : Z) (w : world H) :
  uint32 (pos + len) <= DEV_EEPROM_SIZE dev -> len <> 0 ->
  st25dvxxx_set fuel dev pos val len w =
  (i2c_acquire (DEV_I2C_BUS dev) ;;;
   check <- _set fuel dev pos val len ;;
   i2c_release (DEV_I2C_BUS dev) ;;;
   ret check) w.
Proof.
  intros Hr Hlen. unfold st25dvxxx_set.
  destruct (Z.gtb_spec (uint32 (pos + len)) (DEV_EEPROM_SIZE dev)); [ lia | ].
  apply Z.eqb_neq in Hlen. now rewrite Hlen.
Qed.

Lemma st25dvxxx_set_assigned (fuel : nat) (dev : st25dvxxx_t)
  (pos val len : Z) (w : world H) (x : cint) (w' : world H) :
  st25dvxxx_set fuel dev pos val len w = Some (x, w') ->
  exists z, x = Int z.
Proof.
  unfold st25dvxxx_set.
  destruct (uint32 (pos + len) >? DEV_EEPROM_SIZE dev);
    [ intros E; inversion E; eauto | ].
  destruct (Z.eqb_spec len 0) as [ | Hlen ]; cbn [negb];
    [ intros E; inversion E; eauto | ].
  intros E. apply bind_some in E. destruct E as (u & w1 & _ & E).
  apply bind_some in E. destruct E as (check & w2 & Hset & E).
  apply bind_some in E. destruct E as (u' & w3 & _ & E).
  inversion E; subst. eapply _set_assigned; eassumption.
Qed.

Lemma st25dvxxx_set_returns (dev : st25dvxxx_t) (pos val len : Z)
  (w : world H) :
  dev_wf dev -> page_pow2 dev -> is_uint32 pos -> is_uint32 len ->
  exists z w', returns (fun f => st25dvxxx_set f dev pos val len) w (Int z) w'.
Proof.
  intros Hwf Hp2 Hpos Hlen.
  assert (Hex : exists x w',
             returns (fun f => st25dvxxx_set f dev pos val len) w x w').
  { unfold returns, st25dvxxx_set.
    destruct (uint32 (pos + len) >? DEV_EEPROM_SIZE dev);
      [ eexists _, _; now exists O | ].
    destruct (len =? 0); cbn [negb]; [ eexists _, _; now exists O | ].
    unfold i2c_acquire, i2c_release.
    destruct (_set_returns dev pos val len
                {| hw := hw_i2c_acquire (DEV_I2C_BUS dev) (hw w);
                   trace := trace w ++ [EvI2cAcquire (DEV_I2C_BUS dev)] |}
                Hwf Hp2 Hpos Hlen) as (x & w1 & [f E]).
    eexists _, _. exists f.
    erewrite bind_eq by apply call_eq. cbn [fst snd].
    erewrite bind_eq by exact E.
    erewrite bind_eq by apply call_eq. reflexivity. }
  destruct Hex as (x & w' & [f E]).
  destruct (st25dvxxx_set_assigned _ _ _ _ _ _ _ _ E) as [z ->].
  exists z, w'. now exists f.
Qed.

(** C6: for every offset, fill byte and length, [_set] prepares a
    scratch buffer of 32 bytes all equal to the fill byte and hands
    chunks of min(32, remaining length) bytes, one after the other, to
    the page-chunking writer [_write] until nothing remains or a write
    fails; [st25dvxxx_clear] is the fill with the clear byte 0x00 at
    the same offset and length, and [st25dvxxx_erase] is the fill with
    0x00 from offset 0 over the whole configured capacity. *)
Theorem fill_writer (dev : st25dvxxx_t) (pos val len : Z) (w : world H) :
  dev_wf dev -> is_uint32 len ->
  let scratch := repeat val (Z.to_nat ST25DVXXX_SET_BUF_SIZE) in
  let fills := fill_chunks (Z.to_nat len) pos len in
  (length scratch = 32%nat /\ Forall (eq val) scratch) /\
  (forall x w',
      returns (fun f => _set f dev pos val len) w x w' <->
      returns (write_fills dev scratch Indeterminate fills) w x w') /\
  fold_right Z.add 0 (map snd fills) = len /\
  (forall i c c',
      nth_error fills i = Some c -> nth_error fills (S i) = Some c' ->
      fst c' = uint32 (fst c + snd c)) /\
  ST25DVXXX_CLEAR_BYTE = 0 /\
  (forall fuel,
      st25dvxxx_clear fuel dev pos len w =
      st25dvxxx_set fuel dev pos ST25DVXXX_CLEAR_BYTE len w) /\
  (forall fuel,
      st25dvxxx_erase fuel dev w =
      st25dvxxx_set fuel dev 0 ST25DVXXX_CLEAR_BYTE (DEV_EEPROM_SIZE dev) w) /\
  (forall fuel,
      st25dvxxx_erase fuel dev w =
      if DEV_EEPROM_SIZE dev =? 0 then Some (Int ST25DVXXX_OK, w)
      else (i2c_acquire (DEV_I2C_BUS dev) ;;;
            check <- _set fuel dev 0 ST25DVXXX_CLEAR_BYTE
                       (DEV_EEPROM_SIZE dev) ;;
            i2c_release (DEV_I2C_BUS dev) ;;;
            ret check) w).
Proof.
  intros Hwf Hlen scratch fills.
  split; [ | split; [ | split; [ | split; [ | split; [ | split; [ | split ] ] ] ] ] ].
  - split; [ apply repeat_length | ].
    apply Forall_forall. intros b Hb. symmetry. exact (repeat_spec _ _ _ Hb).
  - intros x w'. now apply _set_fills.
  - apply fill_chunks_total; [ apply Hlen | lia ].
  - apply fill_chunks_consecutive.
  - reflexivity.
  - reflexivity.
  - reflexivity.
  - intros fuel. unfold st25dvxxx_erase, st25dvxxx_clear.
    destruct Hwf as (Hcap & _).
    destruct (Z.eqb_spec (DEV_EEPROM_SIZE dev) 0) as [E0 | Hnz].
    + unfold st25dvxxx_set. rewrite E0. reflexivity.
    + apply st25dvxxx_set_in_range; [ | exact Hnz ].
      rewrite Z.add_0_l, uint32_small by exact Hcap. lia.
Qed.

(** C10: the fill helper [_set] returns its result variable unassigned
    only when it is called with length 0; the public operations
    [st25dvxxx_set], [st25dvxxx_clear] and [st25dvxxx_erase] answer
    length 0 themselves, without the helper, and call it with a
    non-zero length only, so what they return is always an assigned
    value. *)
Theorem fill_result_assigned (dev : st25dvxxx_t) :
  (forall fuel pos val (w : world H),
      _set fuel dev pos val 0 w = Some (Indeterminate, w)) /\
  (forall fuel pos val len (w : world H) x w',
      len <> 0 -> _set fuel dev pos val len w = Some (x, w') ->
      exists z, x = Int z) /\
  (forall fuel pos val (w : world H),
      st25dvxxx_set fuel dev pos val 0 w =
      Some (Int (if uint32 (pos + 0) >? DEV_EEPROM_SIZE dev
                 then - ERANGE else ST25DVXXX_OK), w)) /\
  (forall fuel pos val len (w : world H) x w',
      st25dvxxx_set fuel dev pos val len w = Some (x, w') ->
      exists z, x = Int z) /\
  (forall fuel pos len (w : world H) x w',
      st25dvxxx_clear fuel dev pos len w = Some (x, w') ->
      exists z, x = Int z) /\
  (forall fuel (w : world H) x w',
      st25dvxxx_erase fuel dev w = Some (x, w') ->
      exists z, x = Int z) /\
  (dev_wf dev -> page_pow2 dev ->
   forall pos val len (w : world H),
     is_uint32 pos -> is_uint32 len ->
     exists z w',
       returns (fun f => st25dvxxx_set f dev pos val len) w (Int z) w').
Proof.
  split; [ | split; [ | split; [ | split; [ | split; [ | split ] ] ] ] ].
  - intros fuel pos val w. unfold _set. now destruct fuel.
  - intros fuel pos val len w x w' Hlen E. eapply _set_assigned; eassumption.
  - intros fuel pos val w. unfold st25dvxxx_set.
    now destruct (uint32 (pos + 0) >? DEV_EEPROM_SIZE dev).
  - intros fuel pos val len w x w' E. eapply st25dvxxx_set_assigned, E.
  - intros fuel pos len w x w' E. eapply st25dvxxx_set_assigned, E.
  - intros fuel w x w' E. eapply st25dvxxx_set_assigned, E.
  - intros Hwf Hp2 pos val len w Hpos Hlen.
    now apply st25dvxxx_set_returns.
Qed.

(** C5: for every device and every in-bounds position, the public
    read, write and set operations called with length 0 return success
    and leave the world as it was: the bus is neither acquired nor
    used. *)
Theorem zero_length_noop (fuel : nat) (dev : st25dvxxx_t) (pos : Z)
  (w : world H) :
  is_uint32 pos -> pos <= DEV_EEPROM_SIZE dev ->
  st25dvxxx_read fuel dev pos 0 w = Some ((ST25DVXXX_OK, []), w) /\
  (forall data, st25dvxxx_write fuel dev pos data 0 w = Some (ST25DVXXX_OK, w))
  /\
  (forall val, st25dvxxx_set fuel dev pos val 0 w
               = Some (Int ST25DVXXX_OK, w)).
Proof.
  intros Hpos Hin.
  assert (E : (uint32 (pos + 0) >? DEV_EEPROM_SIZE dev) = false).
  { rewrite Z.add_0_r, uint32_small by exact Hpos.
    destruct (Z.gtb_spec pos (DEV_EEPROM_SIZE dev)); [ lia | reflexivity ]. }
  unfold st25dvxxx_read, st25dvxxx_write, st25dvxxx_set. rewrite E.
  repeat split.
Qed.

(** C8: [st25dvxxx_enable_write_protect] and
    [st25dvxxx_disable_write_protect] return [-ENOTSUP] and do nothing
    when the write-protect pin is not a valid pin; otherwise they set
    the pin high (enable) or low (disable) and return success; that
    one GPIO call is all they do: no retry, nothing on the bus. *)
Theorem write_protect_controller (dev : st25dvxxx_t) (w : world H) :
  (gpio_is_valid (DEV_PIN_WP dev) = false ->
   st25dvxxx_enable_write_protect dev w = Some (- ENOTSUP, w) /\
   st25dvxxx_disable_write_protect dev w = Some (- ENOTSUP, w)) /\
  (gpio_is_valid (DEV_PIN_WP dev) = true ->
   st25dvxxx_enable_write_protect dev w =
     Some (ST25DVXXX_OK,
           {| hw := hw_gpio_set (DEV_PIN_WP dev) (hw w);
              trace := trace w ++ [EvGpioSet (DEV_PIN_WP dev)] |}) /\
   st25dvxxx_disable_write_protect dev w =
     Some (ST25DVXXX_OK,
           {| hw := hw_gpio_clear (DEV_PIN_WP dev) (hw w);
              trace := trace w ++ [EvGpioClear (DEV_PIN_WP dev)] |})).
Proof.
  unfold st25dvxxx_enable_write_protect, st25dvxxx_disable_write_protect.
  split; intros ->; split; reflexivity.
Qed.

(** The range check as long as [pos + len] does not wrap around: every
    public operation refuses a range that ends beyond the capacity
    before it touches the bus. *)
Lemma range_check_without_wrap (fuel : nat) (dev : st25dvxxx_t)
  (pos len : Z) (w : world H) :
  is_uint32 pos -> is_uint32 len -> pos + len < 2 ^ 32 ->
  DEV_EEPROM_SIZE dev < pos + len ->
  st25dvxxx_read fuel dev pos len w = Some ((- ERANGE, []), w) /\
  (forall data, st25dvxxx_write fuel dev pos data len w = Some (- ERANGE, w)) /\
  (forall val, st25dvxxx_set fuel dev pos val len w
               = Some (Int (- ERANGE), w)) /\
  st25dvxxx_clear fuel dev pos len w = Some (Int (- ERANGE), w).
Proof.
  intros Hpos Hlen Hsum Hout.
  assert (E : (uint32 (pos + len) >? DEV_EEPROM_SIZE dev) = true).
  { rewrite in_range_sum by assumption.
    destruct (Z.gtb_spec (pos + len) (DEV_EEPROM_SIZE dev)); [ reflexivity | lia ]. }
  unfold st25dvxxx_clear, st25dvxxx_read, st25dvxxx_write, st25dvxxx_set.
  rewrite E. repeat split.
Qed.

(** The single-byte operations refuse every offset at or beyond the
    capacity. *)
Lemma range_check_byte (fuel : nat) (dev : st25dvxxx_t) (pos : Z)
  (w : world H) :
  DEV_EEPROM_SIZE dev < pos + 1 ->
  st25dvxxx_read_byte fuel dev pos w = Some ((- ERANGE, []), w) /\
  (forall data, st25dvxxx_write_byte fuel dev pos data w
                = Some (- ERANGE, w)).
Proof.
  intros Hout.
  assert (E : (pos >=? DEV_EEPROM_SIZE dev) = true).
  { destruct (Z.geb_spec pos (DEV_EEPROM_SIZE dev)); [ reflexivity | lia ]. }
  unfold st25dvxxx_read_byte, st25dvxxx_write_byte. rewrite E. now split.
Qed.

End Properties.

(** * The properties on the test doubles *)

Ltac fields_in_range :=
  unfold dev_wf, is_uint32, is_uint8, DEV_EEPROM_SIZE, DEV_I2C_ADDR,
    DEV_PAGE_SIZE, DEV_MAX_POLLS;
  cbn [params eeprom_size dev_addr page_size max_polls at24c02 at24c256];
  unfold ST25DVXXX_DEF_DEV_ADDR; lia.

(** C4, the defect: [pos + len] is computed in 32 bits.  On a device
    of 256 bytes the range of 2 bytes at offset [0xFFFFFFFF] ends far
    beyond the capacity, yet the sum wraps to 1, the check passes, and
    write, fill, clear and read all acquire the bus and transfer. *)
Theorem range_check_wraps :
  let dev := at24c02 6 in
  let pos := 0xFFFFFFFF in
  let len := 2 in
  is_uint32 pos /\ is_uint32 len /\ DEV_EEPROM_SIZE dev < pos + len /\
  st25dvxxx_write 256 dev pos [1; 2] len (script_world []) =
    Some (0, {| hw := [];
                trace := [ EvI2cAcquire 0;
                           EvI2cWriteRegs 0 255 255 [1] 1 0 0;
                           EvI2cWriteRegs 0 80 0 [2] 1 0 0;
                           EvI2cRelease 0 ] |}) /\
  st25dvxxx_set 256 dev pos 9 len (script_world []) =
    Some (Int 0, {| hw := [];
                    trace := [ EvI2cAcquire 0;
                               EvI2cWriteRegs 0 255 255 [9] 1 0 0;
                               EvI2cWriteRegs 0 80 0 [9] 1 0 0;
                               EvI2cRelease 0 ] |}) /\
  st25dvxxx_clear 256 dev pos len (script_world []) =
    Some (Int 0, {| hw := [];
                    trace := [ EvI2cAcquire 0;
                               EvI2cWriteRegs 0 255 255 [0] 1 0 0;
                               EvI2cWriteRegs 0 80 0 [0] 1 0 0;
                               EvI2cRelease 0 ] |}) /\
  st25dvxxx_read 256 dev pos len (script_world []) =
    Some ((0, [0; 0]),
          {| hw := [];
             trace := [ EvI2cAcquire 0;
                        EvI2cReadRegs 0 255 255 2 0 0;
                        EvI2cRelease 0 ] |}).
Proof.
  cbv zeta. unfold is_uint32.
  split; [ lia | ]. split; [ lia | ]. split; [ cbn; lia | ].
  repeat split; vm_compute; reflexivity.
Qed.

(** C2 as stated fails for a device configured with [max_polls = 0]:
    zero attempts in a row are answered NoAck by any bus, yet the
    executor does not stop with NoAck; on a bus that answers NoAck once
    and then acknowledges it makes two attempts and succeeds. *)
Lemma poll_retry_zero_budget :
  ~ poll_retry_contract (write_txn (at24c02 0) 5 [1] 1)
      (write_event (at24c02 0) 5 [1] 1) (fun check => check)
      (fun fuel => _write_page fuel (at24c02 0) 5 [1] 1)
      (DEV_MAX_POLLS (at24c02 0)) (script_world [- ENXIO]).
Proof.
  intros [_ Hstop].
  assert (Hnone : forall i : nat,
             (i < Z.to_nat (DEV_MAX_POLLS (at24c02 0)))%nat ->
             answer (write_txn (at24c02 0) 5 [1] 1) i
                    (hw (script_world [- ENXIO])) = - ENXIO)
    by (intros i Hi; cbn in Hi; lia).
  destruct (Hstop Hnone) as (a & w' & evs & Hret & Hst & _).
  - assert (Hrun : returns (fun fuel => _write_page fuel (at24c02 0) 5 [1] 1)
                     (script_world [- ENXIO]) 0
                     {| hw := [];
                        trace := [ EvI2cWriteRegs 0 80 5 [1] 1 0 (- ENXIO);
                                   EvXtimerUsleep 1000;
                                   EvI2cWriteRegs 0 80 5 [1] 1 0 0 ] |})
      by (exists 256%nat; vm_compute; reflexivity).
    destruct (returns_unique _ _ _ _ _ _
                (_write_page_mono (at24c02 0) 5 [1] 1) Hret Hrun) as [Ha _].
    cbv beta in Hst. rewrite Ha in Hst. discriminate Hst.
Qed.

(** [poll_retry_executor] on the scripted bus, budget 6: two NoAck
    answers, then an acknowledge; three attempts. *)
Lemma poll_retry_executor_witness :
  dev_wf (at24c02 6) /\ 1 <= DEV_MAX_POLLS (at24c02 6) /\
  exists w' evs,
    returns (fun fuel => _write_page fuel (at24c02 6) 5 [1] 1)
            (script_world [- ENXIO; - ENXIO; 0]) 0 w' /\
    trace w' = evs /\ attempts evs = 3%nat.
Proof.
  assert (Hwf : dev_wf (at24c02 6)) by fields_in_range.
  assert (H1 : 1 <= DEV_MAX_POLLS (at24c02 6)) by (cbn; lia).
  split; [ exact Hwf | ]. split; [ exact H1 | ].
  destruct (poll_retry_executor (at24c02 6) 5 [1] 1
              (script_world [- ENXIO; - ENXIO; 0]) Hwf H1) as [[Hk _] _].
  assert (Hin : Z.of_nat 2 < DEV_MAX_POLLS (at24c02 6)) by (cbn; lia).
  assert (Hno : forall i : nat,
             (i < 2)%nat ->
             answer (write_txn (at24c02 6) 5 [1] 1) i
                    (hw (script_world [- ENXIO; - ENXIO; 0])) = - ENXIO)
    by (intros [ | [ | i ] ] Hi; [ reflexivity | reflexivity | lia ]).
  assert (Hlast : answer (write_txn (at24c02 6) 5 [1] 1) 2
                         (hw (script_world [- ENXIO; - ENXIO; 0])) <> - ENXIO)
    by (vm_compute; discriminate).
  destruct (Hk 2%nat Hin Hno Hlast) as (w' & evs & Hret & Ht & _ & Hn).
  - exists w', evs. split; [ exact Hret | ]. split; [ exact Ht | exact Hn ].
Defined.

(** [poll_counter_wraparound] with a budget of zero and no device on
    the bus: 256 attempts. *)
Lemma poll_counter_wraparound_witness :
  dev_wf (at24c02 0) /\
  exists a w' evs,
    returns (fun fuel => _write_page fuel (at24c02 0) 5 [1] 1)
            absent_world a w' /\
    a = - ENXIO /\ trace w' = evs /\ attempts evs = 256%nat.
Proof.
  assert (Hwf : dev_wf (at24c02 0)) by fields_in_range.
  split; [ exact Hwf | ].
  destruct (poll_counter_wraparound (at24c02 0) 5 [1] 1 absent_world Hwf)
    as [[_ Hdeaf] _].
  assert (Hno : forall i : nat,
             answer (write_txn (at24c02 0) 5 [1] 1) i (hw absent_world)
             = - ENXIO).
  { intros i. unfold answer. generalize (hw absent_world).
    induction i as [ | i IH ]; intros h; [ reflexivity | apply IH ]. }
  destruct (Hdeaf Hno) as (a & w' & evs & Hret & Hst & Ht & H0 & _).
  - exists a, w', evs. split; [ exact Hret | ]. split; [ exact Hst | ].
    split; [ exact Ht | apply H0; reflexivity ].
Defined.

(** [address_translation] on a 32 KiB device: offset [0x12345] goes
    to device address [0x51], register [0x2345], 16-bit mode. *)
Lemma address_translation_witness :
  dev_wf at24c256 /\
  exists check w' evs,
    returns (fun fuel => _write_page fuel at24c256 0x12345 [1; 2] 2)
            (script_world []) check w' /\
    trace w' = evs /\
    In (EvI2cWriteRegs 0 81 0x2345 [1; 2] 2 I2C_REG16 check) evs.
Proof.
  assert (Hwf : dev_wf at24c256) by fields_in_range.
  split; [ exact Hwf | ].
  destruct (address_translation (H := list Z) at24c256 0x12345 Hwf)
    as (_ & _ & Hw & _).
  destruct (Hw [1; 2] 2 (script_world []))
    as (check & w' & evs & Hret & Ht & Hin & _).
  exists check, w', evs. split; [ exact Hret | ].
  split; [ exact Ht | exact Hin ].
Defined.

(** [page_chunking_writer] for 6 bytes at offset 5 in pages of 8. *)
Lemma page_chunking_writer_witness :
  dev_wf (at24c02 6) /\ page_pow2 (at24c02 6) /\ is_uint32 5 /\ is_uint32 6 /\
  exists x w' evs,
    returns (fun f => _write f (at24c02 6) 5 [1; 2; 3; 4; 5; 6] 6)
            (script_world []) x w' /\
    trace w' = evs /\ Forall (in_one_page 8) evs.
Proof.
  assert (Hwf : dev_wf (at24c02 6)) by fields_in_range.
  assert (Hp2 : page_pow2 (at24c02 6)) by (exists 3; cbn; lia).
  assert (Hpos : is_uint32 5) by (unfold is_uint32; lia).
  assert (Hlen : is_uint32 6) by (unfold is_uint32; lia).
  repeat (split; [ assumption | ]).
  destruct (page_chunking_writer (H := list Z)) as [Hgen _].
  destruct (Hgen (at24c02 6) 5 [1; 2; 3; 4; 5; 6] 6 (script_world [])
              Hwf Hp2 Hpos Hlen) as (_ & _ & _ & Hrun).
  exact Hrun.
Defined.

(** [multi_chunk_abort] when the second of two chunks fails with
    [-EIO]: the first chunk stays written, the error is returned. *)
Lemma multi_chunk_abort_witness :
  dev_wf (at24c02 6) /\ page_pow2 (at24c02 6) /\ is_uint32 5 /\ is_uint32 6 /\
  exists w2,
    returns (fun f => _write f (at24c02 6) 5 [1; 2; 3; 4; 5; 6] 6)
            (script_world [0; - EIO]) (- EIO) w2 /\
    trace w2 = [ EvI2cWriteRegs 0 80 5 [1; 2; 3] 3 0 0;
                 EvI2cWriteRegs 0 80 8 [4; 5; 6] 3 0 (- EIO) ].
Proof.
  assert (Hwf : dev_wf (at24c02 6)) by fields_in_range.
  assert (Hp2 : page_pow2 (at24c02 6)) by (exists 3; cbn; lia).
  assert (Hpos : is_uint32 5) by (unfold is_uint32; lia).
  assert (Hlen : is_uint32 6) by (unfold is_uint32; lia).
  repeat (split; [ assumption | ]).
  destruct (multi_chunk_abort (at24c02 6) 5 [1; 2; 3; 4; 5; 6] 0 6
              (script_world [0; - EIO]) Hwf Hp2 Hpos Hlen) as (Hfail & _).
  eexists. split.
  - eapply (Hfail [ {| c_pos := 5; c_data := [1; 2; 3]; c_len := 3 |} ]
                  {| c_pos := 8; c_data := [4; 5; 6]; c_len := 3 |} []).
    + reflexivity.
    + exists 256%nat. vm_compute. reflexivity.
    + exists 256%nat. vm_compute. reflexivity.
    + discriminate.
  - reflexivity.
Defined.

(** [fill_writer] for 40 bytes at offset 10: fills of 32 and 8 bytes,
    seven page writes. *)
Lemma fill_writer_witness :
  dev_wf (at24c02 6) /\ is_uint32 40 /\
  fill_chunks 40 10 40 = [(10, 32); (42, 8)] /\
  exists w',
    returns (fun f => _set f (at24c02 6) 10 9 40) (script_world [])
            (Int 0) w' /\
    attempts (trace w') = 7%nat.
Proof.
  assert (Hwf : dev_wf (at24c02 6)) by fields_in_range.
  assert (Hlen : is_uint32 40) by (unfold is_uint32; lia).
  split; [ exact Hwf | ]. split; [ exact Hlen | ]. split; [ reflexivity | ].
  destruct (fill_writer (at24c02 6) 10 9 40 (script_world []) Hwf Hlen)
    as (_ & Hrun & _).
  eexists. split.
  - apply Hrun. exists 300%nat. vm_compute. reflexivity.
  - vm_compute. reflexivity.
Defined.

(** [fill_result_assigned] on a fill of 40 bytes, and the helper at
    length 0. *)
Lemma fill_result_assigned_witness :
  dev_wf (at24c02 6) /\ page_pow2 (at24c02 6) /\ is_uint32 10 /\ is_uint32 40 /\
  (exists z w',
      returns (fun f => st25dvxxx_set f (at24c02 6) 10 9 40)
              (script_world []) (Int z) w') /\
  _set 256 (at24c02 6) 10 9 0 (script_world [])
  = Some (Indeterminate, script_world []).
Proof.
  assert (Hwf : dev_wf (at24c02 6)) by fields_in_range.
  assert (Hp2 : page_pow2 (at24c02 6)) by (exists 3; cbn; lia).
  assert (Hpos : is_uint32 10) by (unfold is_uint32; lia).
  assert (Hlen : is_uint32 40) by (unfold is_uint32; lia).
  repeat (split; [ assumption | ]).
  destruct (fill_result_assigned (H := list Z) (at24c02 6))
    as (Hzero & _ & _ & _ & _ & _ & Hret).
  split; [ apply Hret; assumption | apply Hzero ].
Defined.

(** [zero_length_noop] at the very end of a 256-byte device, without
    any fuel. *)
Lemma zero_length_noop_witness :
  is_uint32 256 /\ 256 <= DEV_EEPROM_SIZE (at24c02 6) /\
  st25dvxxx_read 0 (at24c02 6) 256 0 (script_world [])
  = Some ((ST25DVXXX_OK, []), script_world []) /\
  st25dvxxx_write 0 (at24c02 6) 256 [] 0 (script_world [])
  = Some (ST25DVXXX_OK, script_world []) /\
  st25dvxxx_set 0 (at24c02 6) 256 9 0 (script_world [])
  = Some (Int ST25DVXXX_OK, script_world []).
Proof.
  assert (Hpos : is_uint32 256) by (unfold is_uint32; lia).
  assert (Hin : 256 <= DEV_EEPROM_SIZE (at24c02 6)) by (cbn; lia).
  split; [ exact Hpos | ]. split; [ exact Hin | ].
  destruct (zero_length_noop 0 (at24c02 6) 256 (script_world []) Hpos Hin)
    as (Hr & Hw & Hs).
  split; [ exact Hr | ]. split; [ apply Hw | apply Hs ].
Defined.

(** [write_protect_controller] without a pin and with pin 7. *)
Lemma write_protect_controller_witness :
  gpio_is_valid (DEV_PIN_WP (at24c02 6)) = false /\
  st25dvxxx_enable_write_protect (at24c02 6) (script_world [])
  = Some (- ENOTSUP, script_world []) /\
  gpio_is_valid (DEV_PIN_WP at24c256) = true /\
  st25dvxxx_enable_write_protect at24c256 (script_world [])
  = Some (ST25DVXXX_OK, {| hw := []; trace := [EvGpioSet 7] |}) /\
  st25dvxxx_disable_write_protect at24c256 (script_world [])
  = Some (ST25DVXXX_OK, {| hw := []; trace := [EvGpioClear 7] |}).
Proof.
  destruct (write_protect_controller (at24c02 6) (script_world []))
    as [Hundef _].
  destruct (write_protect_controller at24c256 (script_world []))
    as [_ Hvalid].
  split; [ reflexivity | ]. split; [ apply Hundef; reflexivity | ].
  split; [ reflexivity | ]. apply Hvalid. reflexivity.
Defined.

(** Outside the power-of-two page sizes a [uint8_t] can hold: the
    AT24C1024 entry stores page size 0, and a write of 20 bytes at
    offset 250 goes out as one transfer over the boundary at 256. *)
Lemma at24c1024_page_size_truncated :
  DEV_PAGE_SIZE at24c1024 = 0 /\
  ~ page_pow2 at24c1024 /\
  _write 256 at24c1024 250 (repeat 7 20) 20 (script_world []) =
    Some (0, {| hw := [];
                trace := [ EvI2cWriteRegs 0 80 250 (repeat 7 20) 20
                             I2C_REG16 0 ] |}) /\
  ~ in_one_page AT24C1024_PAGE_SIZE
      (EvI2cWriteRegs 0 80 250 (repeat 7 20) 20 I2C_REG16 0).
Proof.
  split; [ reflexivity | ]. split; [ | split ].
  - intros (k & Hk & E). change (DEV_PAGE_SIZE at24c1024) with 0 in E.
    assert (0 < 2 ^ k) by (apply Z.pow_pos_nonneg; lia). lia.
  - vm_compute. reflexivity.
  - cbn. intros [_ E]. vm_compute in E. discriminate E.
Qed.

(** * Further properties of the driver *)

Section Coverage.

Context {H : Type} {P : Periph H}.

Ltac run_bind E :=
  let a := fresh "a" in
  let w1 := fresh "w" in
  let E1 := fresh "E" in
  apply bind_some in E; destruct E as (a & w1 & E1 & E).

(** ** Events of the loops, whatever the device *)

Lemma poll_loop_forall {A : Type} (f : H -> A * H) (ev : A -> event)
  (status : A -> Z) (Q : event -> Prop) (fuel : nat) :
  Q (EvXtimerUsleep ST25DVXXX_POLL_DELAY_US) -> (forall a, Q (ev a)) ->
  forall polls w a w',
    poll_loop fuel (call f ev) status polls w = Some (a, w') ->
    exists evs, trace w' = trace w ++ evs /\ Forall Q evs.
Proof.
  intros Hs Hev.
  induction fuel as [ | fuel IH ]; intros polls w a w' E; [ discriminate | ].
  cbn [poll_loop] in E. rewrite (bind_eq _ _ _ _ _ (call_eq f ev w)) in E.
  set (w1 := {| hw := snd (f (hw w));
                trace := trace w ++ [ev (fst (f (hw w)))] |}) in *.
  assert (Hone : exists evs, trace w1 = trace w ++ evs /\ Forall Q evs).
  { exists [ev (fst (f (hw w)))]. split; [ reflexivity | ].
    constructor; [ apply Hev | constructor ]. }
  destruct (status (fst (f (hw w))) =? - ENXIO).
  - cbv zeta in E. destruct (uint8 (polls - 1) =? 0).
    + inversion E; subst. exact Hone.
    + unfold xtimer_usleep in E. erewrite bind_eq in E by apply call_eq.
      apply IH in E. destruct E as (evs & Ht & Hq). subst w1.
      cbn [trace] in Ht.
      exists ([ev (fst (f (hw w)))]
              ++ [EvXtimerUsleep ST25DVXXX_POLL_DELAY_US] ++ evs).
      split; [ now rewrite Ht, <- !app_assoc | ].
      constructor; [ apply Hev | ]. constructor; [ exact Hs | exact Hq ].
  - inversion E; subst. exact Hone.
Qed.

Lemma _write_page_forall (Q : event -> Prop) (fuel : nat) (dev : st25dvxxx_t)
  (pos : Z) (data : list Z) (len : Z) (w w' : world H) (a : Z) :
  Q (EvXtimerUsleep ST25DVXXX_POLL_DELAY_US) ->
  (forall addr reg flags st,
      Q (EvI2cWriteRegs (DEV_I2C_BUS dev) addr reg data len flags st)) ->
  _write_page fuel dev pos data len w = Some (a, w') ->
  exists evs, trace w' = trace w ++ evs /\ Forall Q evs.
Proof.
  intros Hs Hq. unfold _write_page, i2c_write_regs.
  destruct (DEV_EEPROM_SIZE dev >? 2048); apply poll_loop_forall;
    try exact Hs; intros st; apply Hq.
Qed.

Lemma _read_forall (Q : event -> Prop) (fuel : nat) (dev : st25dvxxx_t)
  (pos len : Z) (w w' : world H) (r : Z * list Z) :
  Q (EvXtimerUsleep ST25DVXXX_POLL_DELAY_US) ->
  (forall addr reg flags st,
      Q (EvI2cReadRegs (DEV_I2C_BUS dev) addr reg len flags st)) ->
  _read fuel dev pos len w = Some (r, w') ->
  exists evs, trace w' = trace w ++ evs /\ Forall Q evs.
Proof.
  intros Hs Hq. unfold _read, i2c_read_regs.
  destruct (DEV_EEPROM_SIZE dev >? 2048); apply poll_loop_forall;
    try exact Hs; intros st; apply Hq.
Qed.

Lemma trace_step (Q : event -> Prop) (w w1 w' : world H) :
  (exists evs, trace w1 = trace w ++ evs /\ Forall Q evs) ->
  (exists evs, trace w' = trace w1 ++ evs /\ Forall Q evs) ->
  exists evs, trace w' = trace w ++ evs /\ Forall Q evs.
Proof.
  intros (e1 & T1 & Q1) (e2 & T2 & Q2). exists (e1 ++ e2).
  split; [ now rewrite T2, T1, app_assoc | now apply Forall_app ].
Qed.

Lemma trace_stay (Q : event -> Prop) (w : world H) :
  exists evs, trace w = trace w ++ evs /\ Forall Q evs.
Proof. exists []. split; [ now rewrite app_nil_r | constructor ]. Qed.

Lemma on_bus_sleep (us : Z) : on_bus (EvXtimerUsleep us).
Proof. now right. Qed.

Lemma _write_loop_on_bus (dev : st25dvxxx_t) (fuel : nat) :
  forall check pos cdata len (w : world H) x w',
    _write_loop fuel dev check pos cdata len w = Some (x, w') ->
    exists evs, trace w' = trace w ++ evs /\ Forall on_bus evs.
Proof.
  induction fuel as [ | fuel IH ]; intros check pos cdata len w x w' E;
    cbn [_write_loop] in E; destruct (len =? 0);
    try discriminate; try (inversion E; subst; apply trace_stay).
  cbv zeta in E. run_bind E.
  apply (_write_page_forall on_bus) in E0;
    [ | apply on_bus_sleep | intros; now left ].
  destruct (a =? 0).
  - apply IH in E. eapply trace_step; eassumption.
  - inversion E; subst. exact E0.
Qed.

Lemma _set_loop_on_bus (dev : st25dvxxx_t) (fuel : nat) :
  forall check pos buf len (w : world H) x w',
    _set_loop fuel dev check pos buf len w = Some (x, w') ->
    exists evs, trace w' = trace w ++ evs /\ Forall on_bus evs.
Proof.
  induction fuel as [ | fuel IH ]; intros check pos buf len w x w' E;
    cbn [_set_loop] in E; destruct (len =? 0);
    try discriminate; try (inversion E; subst; apply trace_stay).
  cbv zeta in E. run_bind E. apply _write_loop_on_bus in E0.
  destruct (a =? 0).
  - apply IH in E. eapply trace_step; eassumption.
  - inversion E; subst. exact E0.
Qed.

Lemma _read_max_loop_on_bus (dev : st25dvxxx_t) (frame : Z) (fuel : nat) :
  forall pos acc len (w : world H) r w',
    _read_max_loop fuel dev frame pos acc len w = Some (r, w') ->
    exists evs, trace w' = trace w ++ evs /\ Forall on_bus evs.
Proof.
  induction fuel as [ | fuel IH ]; intros pos acc len w r w' E;
    cbn [_read_max_loop] in E; destruct (len =? 0);
    try discriminate; try (inversion E; subst; apply trace_stay).
  cbv zeta in E. run_bind E.
  apply (_read_forall on_bus) in E0;
    [ | apply on_bus_sleep | intros; now left ].
  destruct (fst a =? ST25DVXXX_OK).
  - apply IH in E. eapply trace_step; eassumption.
  - inversion E; subst. exact E0.
Qed.

Lemma _read_max_on_bus (dev : st25dvxxx_t) (fuel : nat) (pos len : Z)
  (w w' : world H) (r : Z * list Z) :
  _read_max fuel dev pos len w = Some (r, w') ->
  exists evs, trace w' = trace w ++ evs /\ Forall on_bus evs.
Proof.
  unfold _read_max. destruct periph_i2c_max_bytes_per_frame.
  - apply _read_max_loop_on_bus.
  - apply _read_forall; [ apply on_bus_sleep | intros; now left ].
Qed.

(** Acquire, run, release. *)
Lemma bracket_run {A : Type} (m : M H A) (bus : Z) (w w' : world H) (a : A) :
  (forall w0 a0 w0',
      m w0 = Some (a0, w0') ->
      exists evs, trace w0' = trace w0 ++ evs /\ Forall on_bus evs) ->
  (i2c_acquire bus ;;; check <- m ;; i2c_release bus ;;; ret check) w
  = Some (a, w') ->
  exists evs, trace w' = trace w ++ evs /\ bracketed bus evs.
Proof.
  intros Hm E. unfold i2c_acquire, i2c_release in E.
  erewrite bind_eq in E by apply call_eq. run_bind E.
  erewrite bind_eq in E by apply call_eq. inversion E; subst; clear E.
  apply Hm in E0. destruct E0 as (inner & Ht & Hin). cbn [trace hw fst snd] in *.
  exists (EvI2cAcquire bus :: inner ++ [EvI2cRelease bus]). split.
  - rewrite Ht, <- !app_assoc. reflexivity.
  - right. now exists inner.
Qed.

Lemma bracket_none (bus : Z) (w : world H) :
  exists evs, trace w = trace w ++ evs /\ bracketed bus evs.
Proof. exists []. split; [ now rewrite app_nil_r | now left ]. Qed.

(** X1: whenever a public operation returns, it has either left the
    bus alone or acquired it once, made only transfers and delays, and
    released it as its last action, also when a transfer failed. *)
Theorem bus_released_on_return (fuel : nat) (dev : st25dvxxx_t)
  (w : world H) :
  (forall pos r w',
      st25dvxxx_read_byte fuel dev pos w = Some (r, w') ->
      exists evs, trace w' = trace w ++ evs /\
                  bracketed (DEV_I2C_BUS dev) evs) /\
  (forall pos len r w',
      st25dvxxx_read fuel dev pos len w = Some (r, w') ->
      exists evs, trace w' = trace w ++ evs /\
                  bracketed (DEV_I2C_BUS dev) evs) /\
  (forall pos data x w',
      st25dvxxx_write_byte fuel dev pos data w = Some (x, w') ->
      exists evs, trace w' = trace w ++ evs /\
                  bracketed (DEV_I2C_BUS dev) evs) /\
  (forall pos data len x w',
      st25dvxxx_write fuel dev pos data len w = Some (x, w') ->
      exists evs, trace w' = trace w ++ evs /\
                  bracketed (DEV_I2C_BUS dev) evs) /\
  (forall pos val len x w',
      st25dvxxx_set fuel dev pos val len w = Some (x, w') ->
      exists evs, trace w' = trace w ++ evs /\
                  bracketed (DEV_I2C_BUS dev) evs) /\
  (forall pos len x w',
      st25dvxxx_clear fuel dev pos len w = Some (x, w') ->
      exists evs, trace w' = trace w ++ evs /\
                  bracketed (DEV_I2C_BUS dev) evs) /\
  (forall x w',
      st25dvxxx_erase fuel dev w = Some (x, w') ->
      exists evs, trace w' = trace w ++ evs /\
                  bracketed (DEV_I2C_BUS dev) evs).
Proof.
  assert (Hset : forall pos val len x w',
             st25dvxxx_set fuel dev pos val len w = Some (x, w') ->
             exists evs, trace w' = trace w ++ evs /\
                         bracketed (DEV_I2C_BUS dev) evs).
  { intros pos val len x w'. unfold st25dvxxx_set.
    destruct (_ >? _); [ intros E; inversion E; subst; apply bracket_none | ].
    destruct (len =? 0); cbn [negb];
      [ intros E; inversion E; subst; apply bracket_none | ].
    apply bracket_run. intros w0 a0 w0'. apply _set_loop_on_bus. }
  split; [ | split; [ | split; [ | split; [ | split; [ | split ] ] ] ] ].
  - intros pos r w'. unfold st25dvxxx_read_byte.
    destruct (_ >=? _); [ intros E; inversion E; subst; apply bracket_none | ].
    apply bracket_run. intros w0 a0 w0'.
    apply _read_forall; [ apply on_bus_sleep | intros; now left ].
  - intros pos len r w'. unfold st25dvxxx_read.
    destruct (_ >? _); [ intros E; inversion E; subst; apply bracket_none | ].
    destruct (len =? 0); cbn [negb];
      [ intros E; inversion E; subst; apply bracket_none | ].
    apply bracket_run. intros w0 a0 w0'. apply _read_max_on_bus.
  - intros pos data x w'. unfold st25dvxxx_write_byte.
    destruct (_ >=? _); [ intros E; inversion E; subst; apply bracket_none | ].
    apply bracket_run. intros w0 a0 w0'. apply _write_loop_on_bus.
  - intros pos data len x w'. unfold st25dvxxx_write.
    destruct (_ >? _); [ intros E; inversion E; subst; apply bracket_none | ].
    destruct (len =? 0); cbn [negb];
      [ intros E; inversion E; subst; apply bracket_none | ].
    apply bracket_run. intros w0 a0 w0'. apply _write_loop_on_bus.
  - exact Hset.
  - intros pos len. apply Hset.
  - apply Hset.
Qed.

(** ** What a fill puts on the bus *)






(** ** What a write puts on the bus *)

Lemma firstn_split_add {A : Type} (a b : nat) (l : list A) :
  firstn (a + b) l = firstn a l ++ firstn b (skipn a l).
Proof.
  revert l. induction a as [ | a IH ]; intros l; [ reflexivity | ].
  destruct l as [ | x l ]; cbn; [ now rewrite firstn_nil | ].
  now rewrite IH.
Qed.

Lemma acked_data_app (e1 e2 : list event) :
  acked_data (e1 ++ e2) = acked_data e1 ++ acked_data e2.
Proof. apply flat_map_app. Qed.

Lemma acked_data_noack_retries (ev : Z -> event) (k : nat) :
  (forall st, acked_data [ev st] = [] \/ st = 0) ->
  acked_data (noack_retries ev k) = [].
Proof.
  intros Hev. induction k as [ | k IH ]; [ reflexivity | ].
  unfold noack_retries in *. cbn [repeat concat].
  change (acked_data ([ev (- ENXIO)]
                      ++ [EvXtimerUsleep ST25DVXXX_POLL_DELAY_US]
                      ++ concat
                           (repeat
                              [ev (- ENXIO);
                               EvXtimerUsleep ST25DVXXX_POLL_DELAY_US] k))
          = []).
  rewrite !acked_data_app, IH.
  destruct (Hev (- ENXIO)) as [-> | Hz]; [ reflexivity | discriminate Hz ].
Qed.

(** One page write: the device has taken the bytes exactly when the
    result is 0. *)
Lemma _write_page_acked (fuel : nat) (dev : st25dvxxx_t) (pos : Z)
  (data : list Z) (len : Z) (w w' : world H) (check : Z) :
  dev_wf dev ->
  _write_page fuel dev pos data len w = Some (check, w') ->
  exists evs,
    trace w' = trace w ++ evs /\
    acked_data evs = if check =? 0 then data else [].
Proof.
  intros Hwf E. pose proof Hwf as (_ & _ & _ & Hp).
  pose proof (poll_budget_range _ Hp) as Hb.
  pose proof (_write_page_mono dev _ _ _ _ (Nat.max fuel 256) _ _ E
                ltac:(lia)) as E'.
  cbv beta in E'. rewrite _write_page_poll in E' by exact Hwf.
  destruct (poll_loop_spec (write_txn dev pos data len)
              (fun a => write_event dev pos data len ((fun c : Z => c) a))
              (fun c => c) (Nat.max fuel 256) (DEV_MAX_POLLS dev) w Hp
              ltac:(lia)) as (k & _ & Hno & _ & Ek).
  rewrite Ek in E'. inversion E'; subst check w'; clear E'. cbn [trace].
  eexists. split; [ reflexivity | ].
  rewrite (retry_events_noack (write_txn dev pos data len)
             (write_event dev pos data len) (fun c => c) k _ Hno).
  rewrite acked_data_app, acked_data_noack_retries.
  - cbn. now rewrite app_nil_r.
  - intros st. cbn. destruct (Z.eqb_spec st 0); [ now right | now left ].
Qed.

Lemma _write_loop_acked (dev : st25dvxxx_t) (fuel : nat) :
  dev_wf dev ->
  forall pos cdata len (w : world H) x w',
    is_uint32 len ->
    _write_loop fuel dev 0 pos cdata len w = Some (x, w') ->
    exists evs n,
      trace w' = trace w ++ evs /\ 0 <= n <= len /\
      acked_data evs = firstn (Z.to_nat n) cdata /\
      (x = 0 -> n = len).
Proof.
  intros Hwf.
  induction fuel as [ | fuel IH ]; intros pos cdata len w x w' Hlen E;
    cbn [_write_loop] in E; destruct (Z.eqb_spec len 0) as [Hz | Hnz];
    try discriminate;
    try (inversion E; subst; exists [], 0;
         rewrite app_nil_r; repeat split; lia).
  cbv zeta in E. rewrite MIN_min in E.
  pose proof (uint32_range
                (DEV_PAGE_SIZE dev - MOD_POW2 pos (DEV_PAGE_SIZE dev))) as Hu.
  set (clen := Z.min len
                 (uint32 (DEV_PAGE_SIZE dev
                          - MOD_POW2 pos (DEV_PAGE_SIZE dev)))) in *.
  assert (Hc : 0 <= clen <= len) by (unfold is_uint32 in *; lia).
  run_bind E.
  destruct (_write_page_acked _ _ _ _ _ _ _ _ Hwf E0) as (evs1 & Ht1 & Ha1).
  destruct (Z.eqb_spec a 0) as [-> | Hfail].
  - assert (Hrest : is_uint32 (len - clen)). { unfold is_uint32 in *. lia. }
    rewrite (size_t_small _ Hrest) in E.
    apply IH in E; [ | exact Hrest ].
    destruct E as (evs2 & n2 & Ht2 & Hn2 & Ha2 & Hx).
    exists (evs1 ++ evs2), (clen + n2). split; [ | split; [ | split ] ].
    + now rewrite Ht2, Ht1, app_assoc.
    + lia.
    + rewrite acked_data_app, Ha1, Ha2, Z2Nat.inj_add by lia.
      now rewrite firstn_split_add.
    + intros Hx0. specialize (Hx Hx0). lia.
  - inversion E; subst x w'. exists evs1, 0. split; [ exact Ht1 | ].
    split; [ lia | ]. split; [ exact Ha1 | ]. intros Hx0. contradiction.
Qed.

(** X3: whenever [st25dvxxx_write] returns, the bytes the device has
    acknowledged are, in order and once each, a prefix of the caller's
    buffer; when the result is 0 it is the whole write (the first
    [len] bytes).  After a failure the acknowledged prefix stays
    written. *)
Theorem write_delivers_prefix (fuel : nat) (dev : st25dvxxx_t) (pos : Z)
  (data : list Z) (len : Z) (w w' : world H) (x : Z) :
  dev_wf dev -> is_uint32 len ->
  st25dvxxx_write fuel dev pos data len w = Some (x, w') ->
  exists evs n,
    trace w' = trace w ++ evs /\ 0 <= n <= len /\
    acked_data evs = firstn (Z.to_nat n) data /\
    (x = 0 -> n = len).
Proof.
  intros Hwf Hlen. unfold st25dvxxx_write.
  destruct (_ >? _).
  { intros E. inversion E; subst. exists [], 0. rewrite app_nil_r.
    unfold is_uint32 in Hlen. split; [ reflexivity | ]. split; [ lia | ].
    split; [ reflexivity | ]. intros Hx. discriminate Hx. }
  destruct (Z.eqb_spec len 0) as [-> | Hnz]; cbn [negb].
  { intros E. inversion E; subst. exists [], 0. rewrite app_nil_r.
    repeat split; lia. }
  intros E. unfold i2c_acquire, i2c_release in E.
  erewrite bind_eq in E by apply call_eq. run_bind E.
  erewrite bind_eq in E by apply call_eq. inversion E; subst; clear E.
  apply (_write_loop_acked dev fuel Hwf) in E0; [ | exact Hlen ].
  destruct E0 as (inner & n & Ht & Hn & Ha & Hx). cbn [trace hw fst snd] in *.
  exists (EvI2cAcquire (DEV_I2C_BUS dev) :: inner
          ++ [EvI2cRelease (DEV_I2C_BUS dev)]), n.
  split; [ rewrite Ht, <- !app_assoc; reflexivity | ].
  split; [ exact Hn | ]. split; [ | exact Hx ].
  change (acked_data ([EvI2cAcquire (DEV_I2C_BUS dev)] ++ inner
                      ++ [EvI2cRelease (DEV_I2C_BUS dev)])
          = firstn (Z.to_nat n) data).
  rewrite !acked_data_app, Ha. cbn. now rewrite app_nil_r.
Qed.

(** ** How long one polled transfer can take *)

Lemma sleeps_retry_events {A : Type} (f : H -> A * H) (ev : A -> event)
  (k : nat) (tl : list event) :
  (forall a, is_sleep (ev a) = false) ->
  forall h, sleeps (retry_events f ev k h ++ tl) = (k + sleeps tl)%nat.
Proof.
  intros Hev. induction k as [ | k IH ]; intros h; [ reflexivity | ].
  unfold sleeps in *. cbn [retry_events app filter].
  rewrite Hev. cbn [is_sleep length]. now rewrite IH.
Qed.

Lemma poll_loop_latency {A : Type} (f : H -> A * H) (ev : A -> event)
  (status : A -> Z) (polls : Z) (w : world H) :
  is_uint8 polls ->
  (forall a, is_transfer (ev a) = true) ->
  (forall a, is_sleep (ev a) = false) ->
  exists a w' evs,
    poll_loop 256 (call f ev) status polls w = Some (a, w') /\
    trace w' = trace w ++ evs /\
    (1 <= attempts evs)%nat /\
    Z.of_nat (attempts evs) <= poll_budget polls /\
    sleeps evs = (attempts evs - 1)%nat /\
    last evs (EvXtimerUsleep 0) = ev a.
Proof.
  intros Hp Htr Hsl. pose proof (poll_budget_range polls Hp) as Hb.
  destruct (poll_loop_spec f ev status 256 polls w Hp ltac:(lia))
    as (k & Hk & _ & _ & E).
  eexists _, _, _. split; [ exact E | ]. split; [ reflexivity | ].
  rewrite attempts_retry_events by exact Htr.
  rewrite sleeps_retry_events by exact Hsl.
  unfold attempts, sleeps. cbn [filter]. rewrite Htr, Hsl. cbn [length].
  repeat split; try lia. apply last_last.
Qed.

(** X4: on any hardware, one polled transfer ([_write_page], [_read])
    makes at least one attempt and never more than its budget (256
    for [max_polls = 0], else [max_polls]); it sleeps once between two
    attempts, so one time fewer than it attempts, and never after the
    attempt whose status it returns. *)
Theorem polled_transfer_latency (dev : st25dvxxx_t) (pos : Z)
  (data : list Z) (len : Z) (w : world H) :
  dev_wf dev ->
  (exists check w' evs,
      returns (fun fuel => _write_page fuel dev pos data len) w check w' /\
      trace w' = trace w ++ evs /\
      (1 <= attempts evs)%nat /\
      Z.of_nat (attempts evs)
      <= (if DEV_MAX_POLLS dev =? 0 then 256 else DEV_MAX_POLLS dev) /\
      sleeps evs = (attempts evs - 1)%nat /\
      last evs (EvXtimerUsleep 0) = write_event dev pos data len check) /\
  (exists r w' evs,
      returns (fun fuel => _read fuel dev pos len) w r w' /\
      trace w' = trace w ++ evs /\
      (1 <= attempts evs)%nat /\
      Z.of_nat (attempts evs)
      <= (if DEV_MAX_POLLS dev =? 0 then 256 else DEV_MAX_POLLS dev) /\
      sleeps evs = (attempts evs - 1)%nat /\
      last evs (EvXtimerUsleep 0) = read_event dev pos len (fst r)).
Proof.
  intros Hwf. pose proof Hwf as (_ & _ & _ & Hp). split.
  - destruct (poll_loop_latency (write_txn dev pos data len)
                (fun a => write_event dev pos data len ((fun c : Z => c) a))
                (fun c => c) (DEV_MAX_POLLS dev) w Hp)
      as (a & w' & evs & E & Hrest); try reflexivity.
    exists a, w', evs. split; [ | exact Hrest ].
    exists 256%nat. now rewrite _write_page_poll.
  - destruct (poll_loop_latency (read_txn dev pos len)
                (fun a => read_event dev pos len (fst a))
                fst (DEV_MAX_POLLS dev) w Hp)
      as (a & w' & evs & E & Hrest); try reflexivity.
    exists a, w', evs. split; [ | exact Hrest ].
    exists 256%nat. now rewrite _read_poll.
Qed.

(** ** A page size of zero *)




(** ** Addresses do not alias *)

Lemma lor_disjoint_add (base hi m : Z) :
  0 <= m -> Z.land base (2 ^ m - 1) = 0 -> 0 <= hi < 2 ^ m ->
  Z.lor base hi = base + hi.
Proof.
  intros Hm Hbase Hhi.
  assert (Hd : Z.land base hi = 0).
  { rewrite <- (Z.mod_small hi (2 ^ m)) by lia.
    rewrite <- land_low_bits by lia.
    rewrite (Z.land_comm hi), Z.land_assoc, Hbase. apply Z.land_0_l. }
  pose proof (Z.add_lor_land base hi). lia.
Qed.

Lemma high_part (p s : Z) :
  0 <= s -> 0 <= p < 2 ^ (s + 8) ->
  Z.land (Z.shiftr p s) 0xFF = p / 2 ^ s.
Proof.
  intros Hs Hp. rewrite Z.shiftr_div_pow2 by lia.
  change 0xFF with (2 ^ 8 - 1). rewrite land_low_bits by lia.
  apply Z.mod_small. split; [ apply Z.div_pos; lia | ].
  apply Z.div_lt_upper_bound; [ lia | ].
  rewrite <- Z.pow_add_r by lia. lia.
Qed.

(** Offsets below the capacity are told apart by the device address
    and the register, when the base address has zeros where the high
    offset bits go. *)
Lemma translation_injective (dev : st25dvxxx_t) (m p1 p2 : Z) :
  0 <= m <= 8 ->
  Z.land (DEV_I2C_ADDR dev) (2 ^ m - 1) = 0 ->
  DEV_EEPROM_SIZE dev
  <= 2 ^ ((if DEV_EEPROM_SIZE dev >? 2048 then 16 else 8) + m) ->
  0 <= p1 < DEV_EEPROM_SIZE dev -> 0 <= p2 < DEV_EEPROM_SIZE dev ->
  chip_addr dev p1 = chip_addr dev p2 ->
  txn_addr dev p1 = txn_addr dev p2 ->
  p1 = p2.
Proof.
  intros Hm Hbase Hcap Hp1 Hp2. unfold chip_addr, txn_addr.
  assert (Hgen : forall s,
             0 <= s -> DEV_EEPROM_SIZE dev <= 2 ^ (s + m) ->
             Z.lor (DEV_I2C_ADDR dev) (Z.land (Z.shiftr p1 s) 0xFF)
             = Z.lor (DEV_I2C_ADDR dev) (Z.land (Z.shiftr p2 s) 0xFF) ->
             Z.land p1 (2 ^ s - 1) = Z.land p2 (2 ^ s - 1) ->
             p1 = p2).
  { intros s Hs Hc Hhi Hlo.
    assert (Hle : 2 ^ (s + m) <= 2 ^ (s + 8))
      by (apply Z.pow_le_mono_r; lia).
    rewrite !high_part in Hhi by lia.
    assert (Hq : forall p, 0 <= p < DEV_EEPROM_SIZE dev ->
                           0 <= p / 2 ^ s < 2 ^ m).
    { intros p Hp. split; [ apply Z.div_pos; lia | ].
      apply Z.div_lt_upper_bound; [ lia | ].
      rewrite <- Z.pow_add_r by lia. lia. }
    rewrite !(lor_disjoint_add _ _ m) in Hhi by (try apply Hq; lia).
    rewrite !land_low_bits in Hlo by lia.
    assert (0 < 2 ^ s) by (apply Z.pow_pos_nonneg; lia).
    rewrite (Z.div_mod p1 (2 ^ s)), (Z.div_mod p2 (2 ^ s)) by lia.
    assert (Hd : p1 / 2 ^ s = p2 / 2 ^ s) by lia.
    now rewrite Hd, Hlo. }
  destruct (DEV_EEPROM_SIZE dev >? 2048); intros Hhi Hlo.
  - apply (Hgen 16); try assumption; lia.
  - apply (Hgen 8); try assumption; lia.
Qed.

(** X6: when the base address has zeros in the [m] bits that take the
    high offset bits and the capacity fits the address field and those
    bits, two page writes, or a page write and a read, at offsets
    below the capacity reach the same device address and register only
    if the offsets are equal. *)
Theorem no_address_aliasing (dev : st25dvxxx_t) (m p1 p2 : Z) :
  dev_wf dev -> 0 <= m <= 8 ->
  Z.land (DEV_I2C_ADDR dev) (2 ^ m - 1) = 0 ->
  DEV_EEPROM_SIZE dev
  <= 2 ^ ((if DEV_EEPROM_SIZE dev >? 2048 then 16 else 8) + m) ->
  0 <= p1 < DEV_EEPROM_SIZE dev -> 0 <= p2 < DEV_EEPROM_SIZE dev ->
  (forall fuel1 fuel2 d1 l1 d2 l2 (w1 w2 : world H) c1 c2 w1' w2'
          evs1 evs2 e1 e2,
      _write_page fuel1 dev p1 d1 l1 w1 = Some (c1, w1') ->
      trace w1' = trace w1 ++ evs1 ->
      _write_page fuel2 dev p2 d2 l2 w2 = Some (c2, w2') ->
      trace w2' = trace w2 ++ evs2 ->
      In e1 evs1 -> In e2 evs2 -> is_transfer e1 = true ->
      transfer_target e1 = transfer_target e2 -> p1 = p2) /\
  (forall fuel1 fuel2 d1 l1 l2 (w1 w2 : world H) c1 r2 w1' w2'
          evs1 evs2 e1 e2,
      _write_page fuel1 dev p1 d1 l1 w1 = Some (c1, w1') ->
      trace w1' = trace w1 ++ evs1 ->
      _read fuel2 dev p2 l2 w2 = Some (r2, w2') ->
      trace w2' = trace w2 ++ evs2 ->
      In e1 evs1 -> In e2 evs2 -> is_transfer e1 = true ->
      transfer_target e1 = transfer_target e2 -> p1 = p2).
Proof.
  intros Hwf Hm Hbase Hcap Hp1 Hp2.
  assert (Hsame : forall ev1 ev2 evs1 evs2 e1 e2,
             Forall (polled_event ev1) evs1 -> Forall (polled_event ev2) evs2 ->
             (forall st1 st2,
                 transfer_target (ev1 st1) = transfer_target (ev2 st2) ->
                 p1 = p2) ->
             In e1 evs1 -> In e2 evs2 -> is_transfer e1 = true ->
             (forall st, transfer_target (ev2 st) <> None) ->
             transfer_target e1 = transfer_target e2 -> p1 = p2).
  { intros ev1 ev2 evs1 evs2 e1 e2 Ha1 Ha2 Hinj Hi1 Hi2 Ht Hsome Heq.
    rewrite Forall_forall in Ha1, Ha2.
    destruct (Ha1 _ Hi1) as [-> | [st1 ->]]; [ discriminate Ht | ].
    destruct (Ha2 _ Hi2) as [-> | [st2 ->]]; [ | eapply Hinj, Heq ].
    cbn in Heq. destruct (transfer_target (ev1 st1)) eqn:E1;
      [ discriminate Heq | ].
    clear - Ht E1. destruct (ev1 st1); cbn in *; discriminate. }
  assert (Hpair : forall a1 r1 a2 r2 : Z,
             Some (a1, r1) = Some (a2, r2) -> a1 = a2 /\ r1 = r2)
    by (intros a1 r1 a2 r2 E; now inversion E).
  split.
  - intros fuel1 fuel2 d1 l1 d2 l2 w1 w2 c1 c2 w1' w2' evs1 evs2 e1 e2
      E1 T1 E2 T2.
    destruct (_write_page_trace _ _ _ _ _ _ _ _ Hwf E1) as (x1 & T1' & A1 & _).
    destruct (_write_page_trace _ _ _ _ _ _ _ _ Hwf E2) as (x2 & T2' & A2 & _).
    rewrite T1 in T1'. apply app_inv_head in T1'. subst x1.
    rewrite T2 in T2'. apply app_inv_head in T2'. subst x2.
    intros I1 I2 Ht Heq.
    refine (Hsame _ _ _ _ e1 e2 A1 A2 _ I1 I2 Ht _ Heq);
      [ | intros st; discriminate ].
    intros st1 st2 Heq'. cbn in Heq'. apply Hpair in Heq'.
    destruct Heq' as [Hca Hta].
    exact (translation_injective dev m p1 p2 Hm Hbase Hcap Hp1 Hp2 Hca Hta).
  - intros fuel1 fuel2 d1 l1 l2 w1 w2 c1 r2 w1' w2' evs1 evs2 e1 e2
      E1 T1 E2 T2.
    destruct (_write_page_trace _ _ _ _ _ _ _ _ Hwf E1) as (x1 & T1' & A1 & _).
    destruct (_read_trace _ _ _ _ _ _ _ Hwf E2) as (x2 & T2' & A2 & _).
    rewrite T1 in T1'. apply app_inv_head in T1'. subst x1.
    rewrite T2 in T2'. apply app_inv_head in T2'. subst x2.
    intros I1 I2 Ht Heq.
    refine (Hsame _ _ _ _ e1 e2 A1 A2 _ I1 I2 Ht _ Heq);
      [ | intros st; discriminate ].
    intros st1 st2 Heq'. cbn in Heq'. apply Hpair in Heq'.
    destruct Heq' as [Hca Hta].
    exact (translation_injective dev m p1 p2 Hm Hbase Hcap Hp1 Hp2 Hca Hta).
Qed.

(** ** Reads on a platform with a frame limit *)




(** ** The MTD adapter *)


(** X9: the adapter's erase reports 0 when the clear succeeded and
    [-EIO] for every failure of it, a range error included (refused
    before the bus is touched); its result is never unassigned. *)
Theorem mtd_erase_statuses (fuel : nat) (mtd : mtd_st25dvxxx_t)
  (addr size : Z) (w : world H) :
  (forall x w',
      _mtd_st25dvxxx_erase fuel mtd addr size w = Some (x, w') ->
      (x = Int 0 /\
       st25dvxxx_clear fuel (st25dvxxx_eeprom mtd) addr size w
       = Some (Int ST25DVXXX_OK, w')) \/
      (x = Int (- EIO) /\
       exists z, z <> ST25DVXXX_OK /\
                 st25dvxxx_clear fuel (st25dvxxx_eeprom mtd) addr size w
                 = Some (Int z, w'))) /\
  (is_uint32 addr -> is_uint32 size -> addr + size < 2 ^ 32 ->
   DEV_EEPROM_SIZE (st25dvxxx_eeprom mtd) < addr + size ->
   _mtd_st25dvxxx_erase fuel mtd addr size w = Some (Int (- EIO), w)).
Proof.
  split.
  - intros x w' E. unfold _mtd_st25dvxxx_erase in E. run_bind E.
    inversion E; subst; clear E.
    destruct (st25dvxxx_set_assigned _ _ _ _ _ _ _ _ E0) as [z ->].
    destruct (Z.eqb_spec z ST25DVXXX_OK) as [-> | Hz].
    + left. now split.
    + right. split; [ reflexivity | ]. now exists z.
  - intros Haddr Hsize Hsum Hout. unfold _mtd_st25dvxxx_erase.
    destruct (range_check_without_wrap fuel (st25dvxxx_eeprom mtd) addr size
                w Haddr Hsize Hsum Hout) as (_ & _ & _ & Hclear).
    now rewrite (bind_eq _ _ _ _ _ Hclear).
Qed.

(** X12: on a platform that limits I2C frames to [frame] bytes, the
    adapter's page read is one polled read of min(size, frame) bytes,
    made whatever the page and offset are (the adapter checks no
    range), between one acquire and one release of the bus; it returns
    a negative bus status or min(size, frame), so a caller asking for
    more than a frame gets a short read. *)
Theorem mtd_read_page_one_frame (mtd : mtd_st25dvxxx_t)
  (page offset size frame : Z) (w : world H) :
  let dev := st25dvxxx_eeprom mtd in
  dev_wf dev -> periph_i2c_max_bytes_per_frame = Some frame ->
  0 < frame -> 0 <= size < 2 ^ 31 ->
  exists r w' evs,
    returns (fun fuel => _mtd_st25dvxxx_read_page fuel mtd page offset size)
            w r w' /\
    trace w' = trace w ++ evs /\
    bracketed (DEV_I2C_BUS dev) evs /\
    (1 <= attempts evs)%nat /\
    Forall (read_length (Z.min size frame)) evs /\
    (fst r < 0 \/ fst r = Z.min size frame).
Proof.
  intros dev Hwf Hlimit Hframe Hsize.
  unfold returns, _mtd_st25dvxxx_read_page. fold dev. cbv zeta.
  rewrite Hlimit, MIN_min.
  set (n := Z.min size frame).
  set (pos := uint32 (page * mtd_page_size (mtd_base mtd) + offset)).
  set (w0 := {| hw := hw_i2c_acquire (DEV_I2C_BUS dev) (hw w);
                trace := trace w ++ [EvI2cAcquire (DEV_I2C_BUS dev)] |}).
  destruct (_read_returns dev pos n w0 Hwf) as (res & w1 & E).
  destruct (_read_trace _ _ _ _ _ _ _ Hwf E) as (inner & Ht & Hall & Hin).
  eexists _, _, (EvI2cAcquire (DEV_I2C_BUS dev) :: inner
                 ++ [EvI2cRelease (DEV_I2C_BUS dev)]).
  split; [ | split; [ | split; [ | split; [ | split ] ] ] ].
  - exists 256%nat. unfold i2c_acquire, i2c_release.
    erewrite bind_eq by apply call_eq. fold w0.
    erewrite bind_eq by exact E.
    erewrite bind_eq by apply call_eq. reflexivity.
  - cbn [trace]. rewrite Ht. unfold w0. cbn [trace].
    rewrite <- !app_assoc. reflexivity.
  - right. exists inner. split; [ reflexivity | ].
    eapply Forall_impl; [ | exact Hall ].
    intros e [-> | [st ->]]; [ right | left ]; reflexivity.
  - unfold attempts. cbn [filter is_transfer]. rewrite filter_app, length_app.
    apply in_split in Hin. destruct Hin as (l1 & l2 & ->).
    rewrite filter_app, length_app. cbn [filter read_event is_transfer length].
    lia.
  - constructor; [ exact I | ]. apply Forall_app. split.
    + eapply Forall_impl; [ | exact Hall ].
      intros e [-> | [st ->]]; [ exact I | reflexivity ].
    + constructor; [ exact I | constructor ].
  - cbn [fst]. destruct (Z.ltb_spec (fst res) 0); [ left; assumption | right ].
    unfold int32. destruct (Z.ltb_spec n (2 ^ 31)); [ reflexivity | ].
    unfold n in *. lia.
Qed.

End Coverage.

(** * The driver on the simulated chip *)

(** ** The chip's memory *)

Lemma holds_at_app (mem mem1 mem2 : Z -> Z) (pos : Z) (d1 d2 : list Z) :
  holds_at mem pos d1 mem1 ->
  holds_at mem1 (pos + Z.of_nat (length d1)) d2 mem2 ->
  holds_at mem pos (d1 ++ d2) mem2.
Proof.
  intros H1 H2 a. rewrite (H2 a), (H1 a), length_app, Nat2Z.inj_add.
  destruct (Z.leb_spec (pos + Z.of_nat (length d1)) a);
    destruct (Z.ltb_spec a (pos + Z.of_nat (length d1) + Z.of_nat (length d2)));
    destruct (Z.leb_spec pos a);
    destruct (Z.ltb_spec a (pos + Z.of_nat (length d1)));
    destruct (Z.ltb_spec a (pos + (Z.of_nat (length d1) + Z.of_nat (length d2))));
    cbn [andb]; try lia; try reflexivity.
  - rewrite app_nth2 by lia. f_equal. lia.
  - rewrite app_nth1 by lia. reflexivity.
Qed.

Lemma holds_at_nil (mem : Z -> Z) (pos : Z) : holds_at mem pos [] mem.
Proof.
  intros a. cbn [length]. 
  destruct (Z.leb_spec pos a); destruct (Z.ltb_spec a (pos + Z.of_nat 0));
    cbn [andb]; try reflexivity; lia.
Qed.

(** A write that ends inside the page of its first cell stores its
    bytes in consecutive cells. *)
Lemma chip_store_in_page (cfg : chip_cfg) (data : list Z) :
  0 < chip_ps cfg ->
  forall mem lin,
    Z.of_nat (length data) <= chip_ps cfg - lin mod chip_ps cfg ->
    holds_at mem lin data (chip_store cfg mem lin data).
Proof.
  intros Hps. induction data as [ | b rest IH ]; intros mem lin Hfit.
  - apply holds_at_nil.
  - cbn [chip_store].
    assert (Hone : holds_at mem lin [b] (fun a => if a =? lin then b else mem a)).
    { intros a. cbn [length].
      destruct (Z.eqb_spec a lin) as [-> | Hne].
      - destruct (Z.leb_spec lin lin); destruct (Z.ltb_spec lin (lin + Z.of_nat 1));
          cbn [andb]; try lia. rewrite Z.sub_diag. reflexivity.
      - destruct (Z.leb_spec lin a); destruct (Z.ltb_spec a (lin + Z.of_nat 1));
          cbn [andb]; try reflexivity; lia. }
    destruct rest as [ | b' rest ]; [ exact Hone | ].
    change (b :: b' :: rest) with ([b] ++ b' :: rest).
    apply (holds_at_app _ _ _ _ _ _ Hone).
    pose proof (Z.mod_pos_bound lin (chip_ps cfg) Hps) as Hr.
    cbn [length] in Hfit |- *.
    assert (Hnext : (lin + 1) mod chip_ps cfg = lin mod chip_ps cfg + 1).
    { symmetry. apply Z.mod_unique with (q := lin / chip_ps cfg); [ lia | ].
      pose proof (Z.div_mod lin (chip_ps cfg) ltac:(lia)). lia. }
    unfold chip_next. rewrite Hnext.
    destruct (Z.eqb_spec (lin mod chip_ps cfg + 1) 0); [ lia | ].
    change (Z.of_nat 1) with 1. apply IH.
    rewrite Hnext. cbn [length]. lia.
Qed.

Lemma map_nth_seq (data : list Z) :
  map (fun i => nth i data 0) (seq 0 (length data)) = data.
Proof.
  induction data as [ | b rest IH ]; [ reflexivity | ].
  cbn [length seq map nth]. f_equal.
  rewrite <- seq_shift, map_map. exact IH.
Qed.

(** Reading back what is stored. *)
Lemma chip_load_holds (cfg : chip_cfg) (mem0 mem : Z -> Z) (pos : Z)
  (data : list Z) :
  holds_at mem0 pos data mem ->
  0 <= pos -> pos + Z.of_nat (length data) <= chip_cap cfg ->
  chip_load cfg mem pos (Z.of_nat (length data)) = data.
Proof.
  intros Hmem Hpos Hcap. unfold chip_load. rewrite Nat2Z.id.
  rewrite <- (map_nth_seq data) at 2.
  apply map_ext_in. intros i Hi. apply in_seq in Hi.
  rewrite Z.mod_small by lia. rewrite (Hmem (pos + Z.of_nat i)).
  destruct (Z.leb_spec pos (pos + Z.of_nat i));
    destruct (Z.ltb_spec (pos + Z.of_nat i) (pos + Z.of_nat (length data)));
    cbn [andb]; try lia.
  f_equal. lia.
Qed.

(** ** Polling the chip *)

Lemma chip_idle_eq (h : chip) : chip_busy h = 0 -> chip_idle h = h.
Proof. destruct h as [cfg mem busy]. cbn. intros ->. reflexivity. Qed.

(** A transfer that the busy chip answers with NoAck, polled with
    enough budget for the rest of the write cycle, is in the end the
    transfer on the idle chip. *)
Lemma chip_poll {A : Type} (f : chip -> A * chip) (ev : A -> event)
  (status : A -> Z) (n : nat) :
  (forall h, 0 < chip_busy h ->
             status (fst (f h)) = - ENXIO /\ snd (f h) = h) ->
  forall fuel polls (w : world chip),
    is_uint8 polls ->
    0 <= chip_busy (hw w) <= 1000 * Z.of_nat n ->
    Z.of_nat n < poll_budget polls -> (n < fuel)%nat ->
    status (fst (f (chip_idle (hw w)))) <> - ENXIO ->
    exists w',
      poll_loop fuel (call f ev) status polls w
      = Some (fst (f (chip_idle (hw w))), w') /\
      hw w' = snd (f (chip_idle (hw w))).
Proof.
  intros Hbusy.
  assert (Hnow : forall fuel polls (w : world chip),
             chip_busy (hw w) = 0 ->
             status (fst (f (chip_idle (hw w)))) <> - ENXIO ->
             exists w',
               poll_loop (S fuel) (call f ev) status polls w
               = Some (fst (f (chip_idle (hw w))), w') /\
               hw w' = snd (f (chip_idle (hw w)))).
  { intros fuel polls w Hz Hok. rewrite (chip_idle_eq _ Hz) in *.
    cbn [poll_loop]. rewrite (bind_eq _ _ _ _ _ (call_eq f ev w)).
    destruct (Z.eqb_spec (status (fst (f (hw w)))) (- ENXIO));
      [ contradiction | ].
    eexists. split; reflexivity. }
  induction n as [ | n IH ]; intros fuel polls w Hp Hb Hn Hf Hok.
  - destruct fuel as [ | fuel ]; [ lia | ]. apply Hnow; [ lia | exact Hok ].
  - destruct fuel as [ | fuel ]; [ lia | ].
    destruct (Z.eq_dec (chip_busy (hw w)) 0) as [Hz | Hnz];
      [ apply Hnow; assumption | ].
    destruct (Hbusy (hw w) ltac:(lia)) as [Hs Hsame].
    destruct (poll_budget_step polls Hp) as [Hzero Hstep].
    cbn [poll_loop]. rewrite (bind_eq _ _ _ _ _ (call_eq f ev w)).
    rewrite Hs, Z.eqb_refl. cbv zeta.
    destruct (Z.eqb_spec (uint8 (polls - 1)) 0) as [Hu | Hu];
      [ apply Hzero in Hu; lia | ].
    destruct (Hstep Hu) as [Hp' Hb'].
    unfold xtimer_usleep. erewrite bind_eq by apply call_eq.
    cbn [fst snd hw trace]. rewrite Hsame.
    match goal with
    | |- exists w', poll_loop _ _ _ _ ?w1 = _ /\ _ =>
        destruct (IH fuel (uint8 (polls - 1)) w1 Hp') as (w' & E & Hw)
    end.
    + cbn [hw hw_xtimer_usleep chip_periph chip_sleep chip_busy].
      unfold ST25DVXXX_POLL_DELAY_US. lia.
    + lia.
    + lia.
    + exact Hok.
    + exists w'. split; [ exact E | exact Hw ].
Qed.

Section ChipRuns.

Variable dev : st25dvxxx_t.
Variables cycle m : Z.

Hypothesis dev_ok : dev_wf dev.
Hypothesis pages_ok : page_pow2 dev.
Hypothesis bits_ok : 0 <= m <= 8.
Hypothesis base_ok : Z.land (DEV_I2C_ADDR dev) (2 ^ m - 1) = 0.
Hypothesis cap_ok :
  DEV_EEPROM_SIZE dev
  <= 2 ^ ((if DEV_EEPROM_SIZE dev >? 2048 then 16 else 8) + m).
Hypothesis cycle_ok :
  0 <= cycle
  <= 1000 * ((if DEV_MAX_POLLS dev =? 0 then 256 else DEV_MAX_POLLS dev) - 1).

(** The chip decodes the translated address to the offset. *)
Lemma chip_linear_translated (p : Z) :
  0 <= p < DEV_EEPROM_SIZE dev ->
  chip_linear (chip_for dev cycle) (chip_addr dev p) (txn_addr dev p) = p.
Proof.
  intros Hp. unfold chip_linear, chip_width, chip_addr, txn_addr.
  cbn [chip_for chip_base chip_cap].
  assert (Hgen : forall s,
             0 <= s -> DEV_EEPROM_SIZE dev <= 2 ^ (s + m) ->
             (Z.lor (DEV_I2C_ADDR dev) (Z.land (Z.shiftr p s) 0xFF)
              - DEV_I2C_ADDR dev) * 2 ^ s + Z.land p (2 ^ s - 1) = p).
  { intros s Hs Hc.
    assert (Hle : 2 ^ (s + m) <= 2 ^ (s + 8))
      by (apply Z.pow_le_mono_r; lia).
    assert (0 < 2 ^ s) by (apply Z.pow_pos_nonneg; lia).
    rewrite high_part by lia.
    rewrite (lor_disjoint_add _ _ m); try assumption; try lia.
    - rewrite land_low_bits by lia.
      pose proof (Z.div_mod p (2 ^ s) ltac:(lia)). lia.
    - split; [ apply Z.div_pos; lia | ].
      apply Z.div_lt_upper_bound; [ lia | ].
      rewrite <- Z.pow_add_r by lia. lia. }
  revert cap_ok. destruct (DEV_EEPROM_SIZE dev >? 2048); intros Hc.
  - apply (Hgen 16); [ lia | exact Hc ].
  - apply (Hgen 8); [ lia | exact Hc ].
Qed.

Lemma chip_budget :
  let n := Z.to_nat (poll_budget (DEV_MAX_POLLS dev) - 1) in
  cycle <= 1000 * Z.of_nat n /\
  Z.of_nat n < poll_budget (DEV_MAX_POLLS dev) /\ (n < 256)%nat.
Proof.
  destruct dev_ok as (_ & _ & _ & Hp).
  pose proof (poll_budget_range _ Hp) as Hb.
  unfold poll_budget in *. cbv zeta. lia.
Qed.

(** One page write on the chip: the bytes are stored and a write
    cycle starts. *)
Lemma chip_write_page (p : Z) (d : list Z) (w : world chip) :
  chip_fits dev cycle (hw w) ->
  0 <= p -> p + Z.of_nat (length d) <= DEV_EEPROM_SIZE dev ->
  0 < Z.of_nat (length d) <= DEV_PAGE_SIZE dev - p mod DEV_PAGE_SIZE dev ->
  exists w',
    _write_page 256 dev p d (Z.of_nat (length d)) w = Some (0, w') /\
    chip_fits dev cycle (hw w') /\
    holds_at (chip_mem (hw w)) p d (chip_mem (hw w')).
Proof.
  intros [Hcfg Hbusy] Hp Hcap Hfit.
  destruct chip_budget as (Hn1 & Hn2 & Hn3).
  rewrite _write_page_poll by exact dev_ok.
  assert (Hidle : write_txn dev p d (Z.of_nat (length d)) (chip_idle (hw w))
                  = (0, {| chip_config := chip_for dev cycle;
                           chip_mem := chip_store (chip_for dev cycle)
                                         (chip_mem (hw w)) p d;
                           chip_busy := cycle |})).
  { unfold write_txn. cbn [hw_i2c_write_regs chip_periph].
    unfold chip_write, chip_selected.
    cbn [chip_idle chip_config chip_busy chip_mem]. rewrite Hcfg.
    rewrite chip_linear_translated by lia.
    cbn [chip_for chip_cap chip_cycle].
    destruct (Z.leb_spec 0 0); [ | lia ].
    destruct (Z.leb_spec 0 p); [ | lia ].
    destruct (Z.ltb_spec p (DEV_EEPROM_SIZE dev)); [ | lia ].
    cbn [andb negb].
    unfold chip_flags, addr_width_flag. cbn [chip_for chip_cap].
    rewrite Z.eqb_refl. cbn [negb].
    rewrite Nat2Z.id, firstn_all. reflexivity. }
  destruct (chip_poll (write_txn dev p d (Z.of_nat (length d)))
              (fun a => write_event dev p d (Z.of_nat (length d))
                          ((fun c : Z => c) a))
              (fun c => c)
              (Z.to_nat (poll_budget (DEV_MAX_POLLS dev) - 1)))
    with (fuel := 256%nat) (polls := DEV_MAX_POLLS dev) (w := w)
    as (w' & E & Hw).
  - intros h Hb. unfold write_txn. cbn [hw_i2c_write_regs chip_periph].
    unfold chip_write, chip_selected.
    destruct (Z.leb_spec (chip_busy h) 0); [ lia | ].
    cbn [andb negb fst snd]. split; reflexivity.
  - apply dev_ok.
  - lia.
  - exact Hn2.
  - exact Hn3.
  - rewrite Hidle. cbn [fst]. discriminate.
  - rewrite Hidle in E, Hw. cbn [fst snd] in E, Hw.
    exists w'. split; [ exact E | ]. rewrite Hw. unfold chip_fits.
    cbn [chip_config chip_busy chip_mem].
    split; [ split; [ reflexivity | lia ] | ].
    apply chip_store_in_page; [ | cbn [chip_for chip_ps]; lia ].
    cbn [chip_for chip_ps]. destruct pages_ok as (k & Hk & ->).
    apply Z.pow_pos_nonneg; lia.
Qed.

(** One polled read on the chip delivers the cells from [p] on. *)
Lemma chip_read_cells (p len : Z) (w : world chip) :
  chip_fits dev cycle (hw w) ->
  0 <= p < DEV_EEPROM_SIZE dev ->
  exists w',
    _read 256 dev p len w
    = Some ((0, chip_load (chip_for dev cycle) (chip_mem (hw w)) p len), w') /\
    chip_fits dev cycle (hw w') /\
    chip_mem (hw w') = chip_mem (hw w).
Proof.
  intros [Hcfg Hbusy] Hp.
  destruct chip_budget as (Hn1 & Hn2 & Hn3).
  rewrite _read_poll by exact dev_ok.
  assert (Hidle : read_txn dev p len (chip_idle (hw w))
                  = ((0, chip_load (chip_for dev cycle) (chip_mem (hw w)) p len),
                     chip_idle (hw w))).
  { unfold read_txn. cbn [hw_i2c_read_regs chip_periph].
    unfold chip_read, chip_selected.
    cbn [chip_idle chip_config chip_busy chip_mem]. rewrite Hcfg.
    rewrite chip_linear_translated by lia.
    cbn [chip_for chip_cap].
    destruct (Z.leb_spec 0 0); [ | lia ].
    destruct (Z.leb_spec 0 p); [ | lia ].
    destruct (Z.ltb_spec p (DEV_EEPROM_SIZE dev)); [ | lia ].
    cbn [andb negb].
    unfold chip_flags, addr_width_flag. cbn [chip_for chip_cap].
    rewrite Z.eqb_refl. cbn [negb]. reflexivity. }
  destruct (chip_poll (read_txn dev p len)
              (fun a => read_event dev p len (fst a)) fst
              (Z.to_nat (poll_budget (DEV_MAX_POLLS dev) - 1)))
    with (fuel := 256%nat) (polls := DEV_MAX_POLLS dev) (w := w)
    as (w' & E & Hw).
  - intros h Hb. unfold read_txn. cbn [hw_i2c_read_regs chip_periph].
    unfold chip_read, chip_selected.
    destruct (Z.leb_spec (chip_busy h) 0); [ lia | ].
    cbn [andb negb fst snd]. split; reflexivity.
  - apply dev_ok.
  - lia.
  - exact Hn2.
  - exact Hn3.
  - rewrite Hidle. cbn [fst]. discriminate.
  - rewrite Hidle in E, Hw. cbn [fst snd] in E, Hw.
    exists w'. split; [ exact E | ]. rewrite Hw. unfold chip_fits.
    cbn [chip_idle chip_config chip_busy chip_mem].
    split; [ split; [ exact Hcfg | lia ] | reflexivity ].
Qed.

Lemma chip_cap_uint32 : DEV_EEPROM_SIZE dev < 2 ^ 32.
Proof. destruct dev_ok as (Hc & _). unfold is_uint32 in Hc. lia. Qed.

Lemma chip_page_positive : 0 < DEV_PAGE_SIZE dev.
Proof. destruct pages_ok as (k & Hk & ->). apply Z.pow_pos_nonneg; lia. Qed.

(** The specified chunks of a write inside the capacity, run on the
    chip: all succeed and the bytes are in place. *)
Lemma chip_write_chunks (n : nat) :
  forall pos cdata len (w : world chip),
    chip_fits dev cycle (hw w) ->
    0 <= pos -> 0 <= len -> pos + len <= DEV_EEPROM_SIZE dev ->
    len <= Z.of_nat (length cdata) -> (Z.to_nat len <= n)%nat ->
    exists w',
      returns (write_chunks dev
                 (page_chunks n (DEV_PAGE_SIZE dev) pos cdata len)) w 0 w' /\
      chip_fits dev cycle (hw w') /\
      holds_at (chip_mem (hw w)) pos (firstn (Z.to_nat len) cdata)
               (chip_mem (hw w')).
Proof.
  pose proof chip_cap_uint32 as Hcap32. pose proof chip_page_positive as Hps.
  assert (Hdone : forall pos cdata (w : world chip) l,
             chip_fits dev cycle (hw w) -> l = [] ->
             exists w',
               returns (write_chunks dev l) w 0 w' /\
               chip_fits dev cycle (hw w') /\
               holds_at (chip_mem (hw w)) pos (firstn (Z.to_nat 0) cdata)
                        (chip_mem (hw w'))).
  { intros pos cdata w l Hfit ->. exists w.
    split; [ apply write_chunks_nil; split; reflexivity | ].
    split; [ exact Hfit | apply holds_at_nil ]. }
  induction n as [ | n IH ]; intros pos cdata len w Hfit Hpos Hlen Hcap Hbuf Hn.
  - assert (len = 0) as -> by lia. apply Hdone; [ exact Hfit | reflexivity ].
  - destruct (Z.eq_dec len 0) as [-> | Hnz];
      [ apply Hdone; [ exact Hfit | reflexivity ] | ].
    cbn [page_chunks]. destruct (Z.leb_spec len 0) as [ | _ ]; [ lia | ].
    cbv zeta.
    pose proof (page_clen_bounds (DEV_PAGE_SIZE dev) pos len Hps ltac:(lia))
      as Hc.
    set (clen := Z.min len (DEV_PAGE_SIZE dev - pos mod DEV_PAGE_SIZE dev))
      in *.
    assert (Hd : Z.of_nat (length (firstn (Z.to_nat clen) cdata)) = clen)
      by (rewrite length_firstn; lia).
    destruct (chip_write_page pos (firstn (Z.to_nat clen) cdata) w Hfit Hpos)
      as (w1 & E1 & Hfit1 & Hmem1); [ rewrite Hd; lia | rewrite Hd; lia | ].
    rewrite Hd in E1.
    rewrite (uint32_small (pos + clen)) by (unfold is_uint32; lia).
    destruct (IH (pos + clen) (skipn (Z.to_nat clen) cdata) (len - clen) w1
                Hfit1) as (w2 & E2 & Hfit2 & Hmem2); try lia.
    { rewrite length_skipn. lia. }
    exists w2. split; [ | split; [ exact Hfit2 | ] ].
    + apply write_chunks_step. exists 0, w1. cbn [c_pos c_data c_len].
      split; [ exists 256%nat; exact E1 | exact E2 ].
    + replace (Z.to_nat len) with (Z.to_nat clen + Z.to_nat (len - clen))%nat
        by lia.
      rewrite firstn_split_add.
      apply (holds_at_app _ _ _ _ _ _ Hmem1). rewrite Hd. exact Hmem2.
Qed.

(** A write inside the capacity, on the chip. *)
Lemma chip_write_range (pos : Z) (data : list Z) (len : Z)
  (w : world chip) :
  chip_fits dev cycle (hw w) ->
  0 <= pos -> 0 <= len -> pos + len <= DEV_EEPROM_SIZE dev ->
  len <= Z.of_nat (length data) ->
  exists w',
    returns (fun f => _write f dev pos data len) w 0 w' /\
    chip_fits dev cycle (hw w') /\
    holds_at (chip_mem (hw w)) pos (firstn (Z.to_nat len) data)
             (chip_mem (hw w')).
Proof.
  intros Hfit Hpos Hlen Hcap Hbuf. pose proof chip_cap_uint32 as Hcap32.
  destruct (chip_write_chunks (Z.to_nat len) pos data len w Hfit Hpos Hlen
              Hcap Hbuf (Nat.le_refl _)) as (w' & E & Hfit' & Hmem).
  exists w'. split; [ | split; assumption ].
  apply _write_chunks; try assumption; unfold is_uint32; lia.
Qed.

Lemma firstn_repeat_le (val : Z) (a b : nat) :
  (a <= b)%nat -> firstn a (repeat val b) = repeat val a.
Proof.
  revert b. induction a as [ | a IH ]; intros b Hab; [ reflexivity | ].
  destruct b as [ | b ]; [ lia | ]. cbn. f_equal. apply IH. lia.
Qed.

(** The specified chunks of a fill inside the capacity, run on the
    chip. *)
Lemma chip_write_fills (val : Z) (n : nat) :
  forall check pos len (w : world chip),
    chip_fits dev cycle (hw w) ->
    0 <= pos -> 0 <= len -> pos + len <= DEV_EEPROM_SIZE dev ->
    (Z.to_nat len <= n)%nat ->
    exists w',
      returns (write_fills dev (repeat val (Z.to_nat ST25DVXXX_SET_BUF_SIZE))
                 check (fill_chunks n pos len)) w
              (if len =? 0 then check else Int 0) w' /\
      chip_fits dev cycle (hw w') /\
      holds_at (chip_mem (hw w)) pos (repeat val (Z.to_nat len))
               (chip_mem (hw w')).
Proof.
  pose proof chip_cap_uint32 as Hcap32.
  assert (Hdone : forall check pos (w : world chip) l,
             chip_fits dev cycle (hw w) -> l = [] ->
             exists w',
               returns (write_fills dev
                          (repeat val (Z.to_nat ST25DVXXX_SET_BUF_SIZE))
                          check l) w check w' /\
               chip_fits dev cycle (hw w') /\
               holds_at (chip_mem (hw w)) pos (repeat val (Z.to_nat 0))
                        (chip_mem (hw w'))).
  { intros check pos w l Hfit ->. exists w.
    split; [ apply write_fills_nil; split; reflexivity | ].
    split; [ exact Hfit | apply holds_at_nil ]. }
  induction n as [ | n IH ]; intros check pos len w Hfit Hpos Hlen Hcap Hn.
  - assert (len = 0) as -> by lia. apply Hdone; [ exact Hfit | reflexivity ].
  - destruct (Z.eq_dec len 0) as [-> | Hnz];
      [ apply Hdone; [ exact Hfit | reflexivity ] | ].
    destruct (Z.eqb_spec len 0) as [ | _ ]; [ contradiction | ].
    cbn [fill_chunks]. destruct (Z.leb_spec len 0) as [ | _ ]; [ lia | ].
    cbv zeta.
    set (clen := Z.min ST25DVXXX_SET_BUF_SIZE len).
    assert (Hc : 0 < clen <= len /\ clen <= 32)
      by (unfold clen, ST25DVXXX_SET_BUF_SIZE; lia).
    destruct (chip_write_range pos
                (repeat val (Z.to_nat ST25DVXXX_SET_BUF_SIZE)) clen w Hfit
                Hpos) as (w1 & E1 & Hfit1 & Hmem1); try lia.
    { rewrite repeat_length. unfold ST25DVXXX_SET_BUF_SIZE. lia. }
    rewrite firstn_repeat_le in Hmem1
      by (unfold ST25DVXXX_SET_BUF_SIZE; lia).
    rewrite (uint32_small (pos + clen)) by (unfold is_uint32; lia).
    destruct (IH (Int 0) (pos + clen) (len - clen) w1 Hfit1)
      as (w2 & E2 & Hfit2 & Hmem2); try lia.
    exists w2. split; [ | split; [ exact Hfit2 | ] ].
    + apply write_fills_step. exists 0, w1. split; [ exact E1 | ].
      cbn [Z.eqb]. destruct (Z.eqb_spec (len - clen) 0); exact E2.
    + replace (Z.to_nat len) with (Z.to_nat clen + Z.to_nat (len - clen))%nat
        by lia.
      rewrite repeat_app.
      apply (holds_at_app _ _ _ _ _ _ Hmem1).
      rewrite repeat_length, Z2Nat.id by lia. exact Hmem2.
Qed.

(** Acquire, run, release on the chip: acquiring and releasing do not
    touch it. *)
Lemma chip_bracket {A : Type} (m0 : nat -> M chip A) (bus : Z)
  (w : world chip) (a : A) (w1 : world chip) :
  returns m0 {| hw := hw w; trace := trace w ++ [EvI2cAcquire bus] |} a w1 ->
  exists w',
    returns (fun f => i2c_acquire bus ;;; check <- m0 f ;;
                      i2c_release bus ;;; ret check) w a w' /\
    hw w' = hw w1.
Proof.
  intros [f E]. eexists. split.
  - exists f. unfold i2c_acquire, i2c_release.
    erewrite bind_eq by apply call_eq. cbn [fst snd hw_i2c_acquire chip_periph].
    erewrite bind_eq by exact E.
    erewrite bind_eq by apply call_eq. reflexivity.
  - reflexivity.
Qed.

(** Reading back, through [st25dvxxx_read], what the chip holds. *)
Lemma chip_read_back (mem0 : Z -> Z) (pos : Z) (data : list Z)
  (w : world chip) :
  chip_fits dev cycle (hw w) ->
  holds_at mem0 pos data (chip_mem (hw w)) ->
  0 <= pos -> pos + Z.of_nat (length data) <= DEV_EEPROM_SIZE dev ->
  exists w',
    returns (fun f => st25dvxxx_read f dev pos (Z.of_nat (length data))) w
            (ST25DVXXX_OK, data) w'.
Proof.
  intros Hfit Hmem Hpos Hcap. pose proof chip_cap_uint32 as Hcap32.
  unfold st25dvxxx_read.
  rewrite (uint32_small (pos + Z.of_nat (length data)))
    by (unfold is_uint32; lia).
  destruct (Z.gtb_spec (pos + Z.of_nat (length data)) (DEV_EEPROM_SIZE dev));
    [ lia | ].
  destruct (Z.eqb_spec (Z.of_nat (length data)) 0) as [Hz | Hnz]; cbn [negb].
  - exists w. exists O. destruct data; [ reflexivity | discriminate Hz ].
  - destruct (chip_read_cells pos (Z.of_nat (length data))
                {| hw := hw w;
                   trace := trace w ++ [EvI2cAcquire (DEV_I2C_BUS dev)] |}
                Hfit ltac:(lia)) as (w1 & E1 & _ & _).
    cbn [hw] in E1.
    rewrite (chip_load_holds (chip_for dev cycle) mem0 _ _ _ Hmem Hpos Hcap)
      in E1.
    destruct (chip_bracket (fun f => _read_max f dev pos
                                       (Z.of_nat (length data)))
                (DEV_I2C_BUS dev) w (ST25DVXXX_OK, data) w1)
      as (w' & E & _).
    + exists 256%nat. exact E1.
    + exists w'. exact E.
Qed.

(** X10: write, then read back.  On the simulated chip that fits the
    device (page size a power of two, base address clear where the
    high offset bits go, a write cycle the poll budget covers), a
    write of a buffer at an offset inside the capacity returns
    [ST25DVXXX_OK], leaves every cell outside the written range as it
    was, and a read of the same range then returns [ST25DVXXX_OK] and
    exactly the buffer, however the range lies across the pages. *)
Theorem chip_write_read_round_trip (pos : Z) (data : list Z)
  (w : world chip) :
  chip_fits dev cycle (hw w) ->
  0 <= pos -> pos + Z.of_nat (length data) <= DEV_EEPROM_SIZE dev ->
  exists w1,
    returns (fun f => st25dvxxx_write f dev pos data
                        (Z.of_nat (length data))) w ST25DVXXX_OK w1 /\
    (forall a, ~ pos <= a < pos + Z.of_nat (length data) ->
               chip_mem (hw w1) a = chip_mem (hw w) a) /\
    exists w2,
      returns (fun f => st25dvxxx_read f dev pos (Z.of_nat (length data)))
              w1 (ST25DVXXX_OK, data) w2.
Proof.
  intros Hfit Hpos Hcap. pose proof chip_cap_uint32 as Hcap32.
  assert (Hrun : exists w1,
             returns (fun f => st25dvxxx_write f dev pos data
                                 (Z.of_nat (length data))) w ST25DVXXX_OK w1 /\
             chip_fits dev cycle (hw w1) /\
             holds_at (chip_mem (hw w)) pos data (chip_mem (hw w1))).
  { unfold st25dvxxx_write.
    rewrite (uint32_small (pos + Z.of_nat (length data)))
      by (unfold is_uint32; lia).
    destruct (Z.gtb_spec (pos + Z.of_nat (length data)) (DEV_EEPROM_SIZE dev));
      [ lia | ].
    destruct (Z.eqb_spec (Z.of_nat (length data)) 0) as [Hz | Hnz]; cbn [negb].
    - exists w. split; [ exists O; reflexivity | ]. split; [ exact Hfit | ].
      destruct data; [ apply holds_at_nil | discriminate Hz ].
    - destruct (chip_write_range pos data (Z.of_nat (length data))
                  {| hw := hw w;
                     trace := trace w ++ [EvI2cAcquire (DEV_I2C_BUS dev)] |}
                  Hfit Hpos ltac:(lia) Hcap ltac:(lia))
        as (w1 & E1 & Hfit1 & Hmem1).
      rewrite Nat2Z.id, firstn_all in Hmem1. cbn [hw] in Hmem1.
      destruct (chip_bracket (fun f => _write f dev pos data
                                         (Z.of_nat (length data)))
                  (DEV_I2C_BUS dev) w 0 w1 E1) as (w' & E & Hhw).
      exists w'. rewrite Hhw. split; [ exact E | split; assumption ]. }
  destruct Hrun as (w1 & E & Hfit1 & Hmem1). exists w1.
  split; [ exact E | ]. split.
  - intros a Hout. rewrite (Hmem1 a).
    destruct (Z.leb_spec pos a);
      destruct (Z.ltb_spec a (pos + Z.of_nat (length data)));
      cbn [andb]; try reflexivity. lia.
  - exact (chip_read_back _ pos data w1 Hfit1 Hmem1 Hpos Hcap).
Qed.

(** X11: fill or erase, then read back.  On the simulated chip that
    fits the device, [st25dvxxx_set] over a range inside the capacity
    returns [ST25DVXXX_OK], leaves the cells outside the range as they
    were, and a read of the range then returns the fill byte [len]
    times; after [st25dvxxx_erase], reading the whole capacity returns
    only zero bytes. *)
Theorem chip_fill_read_back (pos val len : Z) (w : world chip) :
  chip_fits dev cycle (hw w) ->
  0 <= pos -> 0 <= len -> pos + len <= DEV_EEPROM_SIZE dev ->
  (exists w1,
      returns (fun f => st25dvxxx_set f dev pos val len) w
              (Int ST25DVXXX_OK) w1 /\
      (forall a, ~ pos <= a < pos + len ->
                 chip_mem (hw w1) a = chip_mem (hw w) a) /\
      exists w2,
        returns (fun f => st25dvxxx_read f dev pos len) w1
                (ST25DVXXX_OK, repeat val (Z.to_nat len)) w2) /\
  (exists w1,
      returns (fun f => st25dvxxx_erase f dev) w (Int ST25DVXXX_OK) w1 /\
      exists w2,
        returns (fun f => st25dvxxx_read f dev 0 (DEV_EEPROM_SIZE dev)) w1
                (ST25DVXXX_OK,
                 repeat ST25DVXXX_CLEAR_BYTE (Z.to_nat (DEV_EEPROM_SIZE dev)))
                w2).
Proof.
  intros Hfit Hpos Hlen Hcap. pose proof chip_cap_uint32 as Hcap32.
  assert (Hgen : forall p v l,
             0 <= p -> 0 <= l -> p + l <= DEV_EEPROM_SIZE dev ->
             exists w1,
               returns (fun f => st25dvxxx_set f dev p v l) w
                       (Int ST25DVXXX_OK) w1 /\
               (forall a, ~ p <= a < p + l ->
                          chip_mem (hw w1) a = chip_mem (hw w) a) /\
               exists w2,
                 returns (fun f => st25dvxxx_read f dev p l) w1
                         (ST25DVXXX_OK, repeat v (Z.to_nat l)) w2).
  { intros p v l Hp Hl Hc.
    assert (Hrun : exists w1,
               returns (fun f => st25dvxxx_set f dev p v l) w
                       (Int ST25DVXXX_OK) w1 /\
               chip_fits dev cycle (hw w1) /\
               holds_at (chip_mem (hw w)) p (repeat v (Z.to_nat l))
                        (chip_mem (hw w1))).
    { unfold st25dvxxx_set.
      rewrite (uint32_small (p + l)) by (unfold is_uint32; lia).
      destruct (Z.gtb_spec (p + l) (DEV_EEPROM_SIZE dev)); [ lia | ].
      destruct (Z.eqb_spec l 0) as [-> | Hnz]; cbn [negb].
      - exists w. split; [ exists O; reflexivity | ]. split; [ exact Hfit | ].
        apply holds_at_nil.
      - destruct (chip_write_fills v (Z.to_nat l) Indeterminate p l
                    {| hw := hw w;
                       trace := trace w ++ [EvI2cAcquire (DEV_I2C_BUS dev)] |}
                    Hfit Hp Hl Hc (Nat.le_refl _))
          as (w1 & E1 & Hfit1 & Hmem1).
        destruct (Z.eqb_spec l 0) as [ | _ ]; [ contradiction | ].
        cbn [hw] in Hmem1.
        apply _set_fills in E1; [ | unfold is_uint32; lia ].
        destruct (chip_bracket (fun f => _set f dev p v l)
                    (DEV_I2C_BUS dev) w (Int 0) w1 E1) as (w' & E & Hhw).
        exists w'. rewrite Hhw. split; [ exact E | split; assumption ]. }
    destruct Hrun as (w1 & E & Hfit1 & Hmem1). exists w1.
    split; [ exact E | ]. split.
    - intros a Hout. rewrite (Hmem1 a), repeat_length, Z2Nat.id by lia.
      destruct (Z.leb_spec p a); destruct (Z.ltb_spec a (p + l));
        cbn [andb]; try reflexivity. lia.
    - pose proof (chip_read_back _ p (repeat v (Z.to_nat l)) w1 Hfit1 Hmem1 Hp)
        as Hread.
      rewrite repeat_length, Z2Nat.id in Hread by lia. exact (Hread Hc). }
  split.
  - apply Hgen; assumption.
  - destruct dev_ok as ((Hc0 & _) & _).
    destruct (Hgen 0 ST25DVXXX_CLEAR_BYTE (DEV_EEPROM_SIZE dev))
      as (w1 & E & _ & Hread); try lia.
    exists w1. split; [ exact E | exact Hread ].
Qed.

End ChipRuns.


(** * The coverage properties on concrete runs *)

(** [bus_released_on_return] for a write whose first attempt is not
    acknowledged and for a read that fails with [-EIO]. *)
Lemma bus_released_on_return_witness :
  (exists w',
      st25dvxxx_write 256 (at24c02 6) 5 [1; 2; 3; 4; 5; 6] 6
        (script_world [- ENXIO]) = Some (ST25DVXXX_OK, w') /\
      exists evs, trace w' = trace (script_world [- ENXIO]) ++ evs /\
                  bracketed (DEV_I2C_BUS (at24c02 6)) evs) /\
  (exists w',
      st25dvxxx_read 256 (at24c02 6) 5 6 (script_world [- EIO])
      = Some ((- EIO, []), w') /\
      exists evs, trace w' = trace (script_world [- EIO]) ++ evs /\
                  bracketed (DEV_I2C_BUS (at24c02 6)) evs).
Proof.
  split.
  - eexists. split; [ vm_compute; reflexivity | ].
    destruct (bus_released_on_return 256 (at24c02 6)
                (script_world [- ENXIO])) as (_ & _ & _ & Hw & _).
    apply (Hw 5 [1; 2; 3; 4; 5; 6] 6 ST25DVXXX_OK). vm_compute. reflexivity.
  - eexists. split; [ vm_compute; reflexivity | ].
    destruct (bus_released_on_return 256 (at24c02 6)
                (script_world [- EIO])) as (_ & Hr & _).
    apply (Hr 5 6 (- EIO, [])). vm_compute. reflexivity.
Defined.


(** [write_delivers_prefix] when the second of two chunks fails. *)
Lemma write_delivers_prefix_witness :
  dev_wf (at24c02 6) /\ is_uint32 6 /\
  exists w',
    st25dvxxx_write 256 (at24c02 6) 5 [1; 2; 3; 4; 5; 6] 6
      (script_world [0; - EIO]) = Some (- EIO, w') /\
    exists evs n,
      trace w' = trace (script_world [0; - EIO]) ++ evs /\ 0 <= n <= 6 /\
      acked_data evs = firstn (Z.to_nat n) [1; 2; 3; 4; 5; 6] /\
      (- EIO = 0 -> n = 6).
Proof.
  assert (Hwf : dev_wf (at24c02 6)) by fields_in_range.
  assert (Hlen : is_uint32 6) by (unfold is_uint32; lia).
  split; [ exact Hwf | ]. split; [ exact Hlen | ].
  eexists. split; [ vm_compute; reflexivity | ].
  apply (write_delivers_prefix 256 (at24c02 6) 5 [1; 2; 3; 4; 5; 6] 6
           (script_world [0; - EIO]) _ (- EIO) Hwf Hlen).
  vm_compute. reflexivity.
Defined.

(** [polled_transfer_latency] on a bus that does not acknowledge the
    first two attempts. *)
Lemma polled_transfer_latency_witness :
  dev_wf (at24c02 6) /\
  (exists check w' evs,
      returns (fun fuel => _write_page fuel (at24c02 6) 5 [1; 2; 3] 3)
              (script_world [- ENXIO; - ENXIO]) check w' /\
      trace w' = trace (script_world [- ENXIO; - ENXIO]) ++ evs /\
      (1 <= attempts evs)%nat /\
      Z.of_nat (attempts evs)
      <= (if DEV_MAX_POLLS (at24c02 6) =? 0 then 256
          else DEV_MAX_POLLS (at24c02 6)) /\
      sleeps evs = (attempts evs - 1)%nat /\
      last evs (EvXtimerUsleep 0)
      = write_event (at24c02 6) 5 [1; 2; 3] 3 check).
Proof.
  assert (Hwf : dev_wf (at24c02 6)) by fields_in_range.
  split; [ exact Hwf | ].
  exact (proj1 (polled_transfer_latency (at24c02 6) 5 [1; 2; 3] 3
                  (script_world [- ENXIO; - ENXIO]) Hwf)).
Defined.


(** [no_address_aliasing] for the AT24C02 decoded with three address
    bits at its base address [0x50]. *)
Lemma no_address_aliasing_witness :
  dev_wf (at24c02 6) /\ 0 <= 3 <= 8 /\
  Z.land (DEV_I2C_ADDR (at24c02 6)) (2 ^ 3 - 1) = 0 /\
  DEV_EEPROM_SIZE (at24c02 6)
  <= 2 ^ ((if DEV_EEPROM_SIZE (at24c02 6) >? 2048 then 16 else 8) + 3) /\
  0 <= 5 < DEV_EEPROM_SIZE (at24c02 6) /\
  exists w1' w2' e1 e2,
    _write_page 256 (at24c02 6) 5 [1; 2] 2 (script_world []) = Some (0, w1') /\
    _read 256 (at24c02 6) 5 3 (script_world [- ENXIO])
    = Some ((0, [0; 0; 0]), w2') /\
    In e1 (trace w1') /\ In e2 (trace w2') /\ is_transfer e1 = true /\
    transfer_target e1 = transfer_target e2 /\ 5 = 5.
Proof.
  assert (Hwf : dev_wf (at24c02 6)) by fields_in_range.
  assert (Hm : 0 <= 3 <= 8) by lia.
  assert (Hbase : Z.land (DEV_I2C_ADDR (at24c02 6)) (2 ^ 3 - 1) = 0)
    by reflexivity.
  assert (Hcap : DEV_EEPROM_SIZE (at24c02 6)
                 <= 2 ^ ((if DEV_EEPROM_SIZE (at24c02 6) >? 2048
                          then 16 else 8) + 3))
    by (vm_compute; discriminate).
  assert (Hp : 0 <= 5 < DEV_EEPROM_SIZE (at24c02 6)) by (cbn; lia).
  repeat (split; [ assumption | ]).
  destruct (no_address_aliasing (H := list Z) (at24c02 6) 3 5 5 Hwf Hm Hbase
              Hcap Hp Hp) as (_ & Hwr).
  exists {| hw := []; trace := [EvI2cWriteRegs 0 80 5 [1; 2] 2 0 0] |},
         {| hw := [];
            trace := [EvI2cReadRegs 0 80 5 3 0 (- ENXIO);
                      EvXtimerUsleep ST25DVXXX_POLL_DELAY_US;
                      EvI2cReadRegs 0 80 5 3 0 0] |},
         (EvI2cWriteRegs 0 80 5 [1; 2] 2 0 0),
         (EvI2cReadRegs 0 80 5 3 0 0).
  assert (E1 : _write_page 256 (at24c02 6) 5 [1; 2] 2 (script_world [])
               = Some (0, {| hw := [];
                             trace := [EvI2cWriteRegs 0 80 5 [1; 2] 2 0 0] |}))
    by (vm_compute; reflexivity).
  assert (E2 : _read 256 (at24c02 6) 5 3 (script_world [- ENXIO])
               = Some ((0, [0; 0; 0]),
                       {| hw := [];
                          trace := [EvI2cReadRegs 0 80 5 3 0 (- ENXIO);
                                    EvXtimerUsleep ST25DVXXX_POLL_DELAY_US;
                                    EvI2cReadRegs 0 80 5 3 0 0] |}))
    by (vm_compute; reflexivity).
  assert (I1 : In (EvI2cWriteRegs 0 80 5 [1; 2] 2 0 0)
                  [EvI2cWriteRegs 0 80 5 [1; 2] 2 0 0])
    by (left; reflexivity).
  assert (I2 : In (EvI2cReadRegs 0 80 5 3 0 0)
                  [EvI2cReadRegs 0 80 5 3 0 (- ENXIO);
                   EvXtimerUsleep ST25DVXXX_POLL_DELAY_US;
                   EvI2cReadRegs 0 80 5 3 0 0])
    by (right; right; left; reflexivity).
  split; [ exact E1 | ]. split; [ exact E2 | ].
  split; [ exact I1 | ]. split; [ exact I2 | ].
  split; [ reflexivity | ]. split; [ reflexivity | ].
  exact (Hwr 256%nat 256%nat [1; 2] 2 3 (script_world [])
           (script_world [- ENXIO]) 0 (0, [0; 0; 0]) _ _ _ _ _ _
           E1 eq_refl E2 eq_refl I1 I2 eq_refl eq_refl).
Defined.



(** [mtd_erase_statuses] when the bus fails with [-ENXIO] on every
    attempt, and for a range beyond the capacity. *)
Lemma mtd_erase_statuses_witness :
  (exists w',
      _mtd_st25dvxxx_erase (P := absent_periph) 256 mtd_at24c02 8 16
        absent_world = Some (Int (- EIO), w') /\
      st25dvxxx_clear (P := absent_periph) 256
        (st25dvxxx_eeprom mtd_at24c02) 8 16 absent_world
      = Some (Int (- ENXIO), w')) /\
  is_uint32 250 /\ is_uint32 16 /\ 250 + 16 < 2 ^ 32 /\
  DEV_EEPROM_SIZE (st25dvxxx_eeprom mtd_at24c02) < 250 + 16 /\
  _mtd_st25dvxxx_erase 256 mtd_at24c02 250 16 (script_world [])
  = Some (Int (- EIO), script_world []).
Proof.
  split.
  - destruct (mtd_erase_statuses (P := absent_periph) 256 mtd_at24c02 8 16
                absent_world) as (Hst & _).
    eexists. split; [ vm_compute; reflexivity | ].
    destruct (Hst (Int (- EIO)) _ ltac:(vm_compute; reflexivity))
      as [(Hx & _) | (_ & z & _ & E)].
    + discriminate Hx.
    + vm_compute. reflexivity.
  - assert (Haddr : is_uint32 250) by (unfold is_uint32; lia).
    assert (Hsize : is_uint32 16) by (unfold is_uint32; lia).
    assert (Hsum : 250 + 16 < 2 ^ 32) by lia.
    assert (Hout : DEV_EEPROM_SIZE (st25dvxxx_eeprom mtd_at24c02) < 250 + 16)
      by (cbn; lia).
    repeat (split; [ assumption | ]).
    destruct (mtd_erase_statuses (H := list Z) 256 mtd_at24c02 250 16
                (script_world [])) as (_ & Hrange).
    exact (Hrange Haddr Hsize Hsum Hout).
Defined.

(** [chip_write_read_round_trip] on the simulated AT24C02 (write cycle
    5 ms, six polls): 6 bytes at offset 5, over a page boundary. *)
Lemma chip_write_read_round_trip_witness :
  dev_wf (at24c02 6) /\ page_pow2 (at24c02 6) /\ 0 <= 3 <= 8 /\
  Z.land (DEV_I2C_ADDR (at24c02 6)) (2 ^ 3 - 1) = 0 /\
  DEV_EEPROM_SIZE (at24c02 6)
  <= 2 ^ ((if DEV_EEPROM_SIZE (at24c02 6) >? 2048 then 16 else 8) + 3) /\
  0 <= 5000
  <= 1000 * ((if DEV_MAX_POLLS (at24c02 6) =? 0 then 256
              else DEV_MAX_POLLS (at24c02 6)) - 1) /\
  chip_fits (at24c02 6) 5000 (hw chip_at24c02) /\
  0 <= 5 /\
  5 + Z.of_nat (length [1; 2; 3; 4; 5; 6]) <= DEV_EEPROM_SIZE (at24c02 6) /\
  exists w1,
    returns (fun f => st25dvxxx_write f (at24c02 6) 5 [1; 2; 3; 4; 5; 6]
                        (Z.of_nat (length [1; 2; 3; 4; 5; 6])))
            chip_at24c02 ST25DVXXX_OK w1 /\
    (forall a, ~ 5 <= a < 5 + Z.of_nat (length [1; 2; 3; 4; 5; 6]) ->
               chip_mem (hw w1) a = chip_mem (hw chip_at24c02) a) /\
    exists w2,
      returns (fun f => st25dvxxx_read f (at24c02 6) 5
                          (Z.of_nat (length [1; 2; 3; 4; 5; 6])))
              w1 (ST25DVXXX_OK, [1; 2; 3; 4; 5; 6]) w2.
Proof.
  assert (Hwf : dev_wf (at24c02 6)) by fields_in_range.
  assert (Hp2 : page_pow2 (at24c02 6)) by (exists 3; cbn; lia).
  assert (Hm : 0 <= 3 <= 8) by lia.
  assert (Hbase : Z.land (DEV_I2C_ADDR (at24c02 6)) (2 ^ 3 - 1) = 0)
    by reflexivity.
  assert (Hcap : DEV_EEPROM_SIZE (at24c02 6)
                 <= 2 ^ ((if DEV_EEPROM_SIZE (at24c02 6) >? 2048
                          then 16 else 8) + 3))
    by (vm_compute; discriminate).
  assert (Hcycle : 0 <= 5000
                   <= 1000 * ((if DEV_MAX_POLLS (at24c02 6) =? 0 then 256
                               else DEV_MAX_POLLS (at24c02 6)) - 1))
    by (cbn; lia).
  assert (Hfit : chip_fits (at24c02 6) 5000 (hw chip_at24c02))
    by (split; [ reflexivity | cbn; lia ]).
  assert (Hpos : 0 <= 5) by lia.
  assert (Hin : 5 + Z.of_nat (length [1; 2; 3; 4; 5; 6])
                <= DEV_EEPROM_SIZE (at24c02 6)) by (cbn; lia).
  repeat (split; [ assumption | ]).
  exact (chip_write_read_round_trip (at24c02 6) 5000 3 Hwf Hp2 Hm Hbase Hcap
           Hcycle 5 [1; 2; 3; 4; 5; 6] chip_at24c02 Hfit Hpos Hin).
Defined.

(** [chip_fill_read_back] on the simulated AT24C02: 40 bytes of [9]
    at offset 10. *)
Lemma chip_fill_read_back_witness :
  dev_wf (at24c02 6) /\ page_pow2 (at24c02 6) /\ 0 <= 3 <= 8 /\
  Z.land (DEV_I2C_ADDR (at24c02 6)) (2 ^ 3 - 1) = 0 /\
  DEV_EEPROM_SIZE (at24c02 6)
  <= 2 ^ ((if DEV_EEPROM_SIZE (at24c02 6) >? 2048 then 16 else 8) + 3) /\
  0 <= 5000
  <= 1000 * ((if DEV_MAX_POLLS (at24c02 6) =? 0 then 256
              else DEV_MAX_POLLS (at24c02 6)) - 1) /\
  chip_fits (at24c02 6) 5000 (hw chip_at24c02) /\
  0 <= 10 /\ 0 <= 40 /\ 10 + 40 <= DEV_EEPROM_SIZE (at24c02 6) /\
  exists w1,
    returns (fun f => st25dvxxx_set f (at24c02 6) 10 9 40) chip_at24c02
            (Int ST25DVXXX_OK) w1 /\
    (forall a, ~ 10 <= a < 10 + 40 ->
               chip_mem (hw w1) a = chip_mem (hw chip_at24c02) a) /\
    exists w2,
      returns (fun f => st25dvxxx_read f (at24c02 6) 10 40) w1
              (ST25DVXXX_OK, repeat 9 (Z.to_nat 40)) w2.
Proof.
  assert (Hwf : dev_wf (at24c02 6)) by fields_in_range.
  assert (Hp2 : page_pow2 (at24c02 6)) by (exists 3; cbn; lia).
  assert (Hm : 0 <= 3 <= 8) by lia.
  assert (Hbase : Z.land (DEV_I2C_ADDR (at24c02 6)) (2 ^ 3 - 1) = 0)
    by reflexivity.
  assert (Hcap : DEV_EEPROM_SIZE (at24c02 6)
                 <= 2 ^ ((if DEV_EEPROM_SIZE (at24c02 6) >? 2048
                          then 16 else 8) + 3))
    by (vm_compute; discriminate).
  assert (Hcycle : 0 <= 5000
                   <= 1000 * ((if DEV_MAX_POLLS (at24c02 6) =? 0 then 256
                               else DEV_MAX_POLLS (at24c02 6)) - 1))
    by (cbn; lia).
  assert (Hfit : chip_fits (at24c02 6) 5000 (hw chip_at24c02))
    by (split; [ reflexivity | cbn; lia ]).
  assert (Hpos : 0 <= 10) by lia.
  assert (Hlen : 0 <= 40) by lia.
  assert (Hin : 10 + 40 <= DEV_EEPROM_SIZE (at24c02 6)) by (cbn; lia).
  repeat (split; [ assumption | ]).
  exact (proj1 (chip_fill_read_back (at24c02 6) 5000 3 Hwf Hp2 Hm Hbase Hcap
                  Hcycle 10 9 40 chip_at24c02 Hfit Hpos Hlen Hin)).
Defined.


(** [mtd_read_page_one_frame] with frames of 4 bytes: 6 bytes asked at
    offset 5 of page 40, beyond the 32 pages of the device. *)
Lemma mtd_read_page_one_frame_witness :
  dev_wf (st25dvxxx_eeprom mtd_at24c02) /\
  periph_i2c_max_bytes_per_frame (Periph := framed_periph) = Some 4 /\
  0 < 4 /\ 0 <= 6 < 2 ^ 31 /\
  exists r w' evs,
    returns (fun fuel => _mtd_st25dvxxx_read_page (P := framed_periph) fuel
                           mtd_at24c02 40 5 6) (script_world []) r w' /\
    trace w' = trace (script_world []) ++ evs /\
    bracketed (DEV_I2C_BUS (st25dvxxx_eeprom mtd_at24c02)) evs /\
    (1 <= attempts evs)%nat /\
    Forall (read_length (Z.min 6 4)) evs /\
    (fst r < 0 \/ fst r = Z.min 6 4).
Proof.
  assert (Hwf : dev_wf (st25dvxxx_eeprom mtd_at24c02))
    by (change (st25dvxxx_eeprom mtd_at24c02) with (at24c02 6);
        fields_in_range).
  assert (Hlimit : periph_i2c_max_bytes_per_frame (Periph := framed_periph)
                   = Some 4) by reflexivity.
  assert (Hframe : 0 < 4) by lia.
  assert (Hsize : 0 <= 6 < 2 ^ 31) by lia.
  repeat (split; [ assumption | ]).
  exact (mtd_read_page_one_frame (P := framed_periph) mtd_at24c02 40 5 6 4
           (script_world []) Hwf Hlimit Hframe Hsize).
Defined.
